(** * traininggov-scraper: the incremental synchronisation pipeline

    A shallow embedding of the TypeScript sources of the scraper
    (autoSync.ts, fetcher.ts, crawler.ts, services/exportService.ts,
    parsers/uocParser.ts, utils/logger.ts, utils/requestUtils.ts) and
    the properties of the planner, the fetch engine, the identifier
    extractor, the record corpus and the document extractor.

    JavaScript strings are sequences of UTF-16 code units; they are
    modelled as [list N], one number per code unit.  [Map] and [Set]
    objects are stdpp finite maps and sets keyed by such strings. *)

From Stdlib Require Import NArith ZArith List Bool Lia String Ascii.
From stdpp Require Import gmap list.

Local Open Scope N_scope.

(* ===================================================================== *)
(** * Part I: the embedding *)
(* ===================================================================== *)

(** ** JavaScript strings *)

Module Js.

(** A string literal of the source, one code unit per character (the
    literals of the source that are written this way are all ASCII). *)
Definition lit (s : string) : list N :=
  List.map N_of_ascii (list_ascii_of_string s).

(** Character classes of the regular expressions: [A-Z], [a-z], [\d],
    [\w], [\s] and [.] (without the [s] flag). *)
Definition isUpper (c : N) : bool := (65 <=? c) && (c <=? 90).
Definition isLower (c : N) : bool := (97 <=? c) && (c <=? 122).
Definition isDigit (c : N) : bool := (48 <=? c) && (c <=? 57).
Definition isUpperOrDigit (c : N) : bool := isUpper c || isDigit c.
Definition isWord (c : N) : bool :=
  isUpper c || isLower c || isDigit c || (c =? 95).

(** WhiteSpace and LineTerminator code units: what [\s] matches and what
    [String.prototype.trim] strips. *)
Definition isLineTerminator (c : N) : bool :=
  (c =? 10) || (c =? 13) || (c =? 8232) || (c =? 8233).
Definition isSpace (c : N) : bool :=
  ((9 <=? c) && (c <=? 13)) || (c =? 32) || (c =? 160) || (c =? 5760)
  || ((8192 <=? c) && (c <=? 8202)) || (c =? 8232) || (c =? 8233)
  || (c =? 8239) || (c =? 8287) || (c =? 12288) || (c =? 65279).
Definition isDot (c : N) : bool := negb (isLineTerminator c).

(** Canonicalize of the [i] flag (no [u] flag): a code unit is compared
    through its upper-case form, and a code unit outside ASCII is never
    identified with an ASCII one; only the ASCII letters matter to the
    patterns of the source, which are all ASCII. *)
Definition canon (c : N) : N := if isLower c then c - 32 else c.

(** [String.prototype.toLowerCase], exact on every code unit whose
    lower-case form has a Basic Latin unit: the letters A-Z, U+212A
    KELVIN SIGN (to k) and U+0130 (to i followed by U+0307).  Every
    other code unit is kept: its lower-case form has no Basic Latin
    unit, and the lower-cased texts are only tested against ASCII words
    ('timeout', 'socket', 'superseded by', 'current', ...), so each test
    comes out as on the JavaScript string. *)
Definition lowerUnits (c : N) : list N :=
  if isUpper c then [c + 32]
  else if c =? 8490 then [107]
  else if c =? 304 then [105; 775]
  else [c].
Definition toLowerCase (s : list N) : list N := flat_map lowerUnits s.

Fixpoint eqs (a b : list N) : bool :=
  match a, b with
  | [], [] => true
  | x :: a', y :: b' => (x =? y) && eqs a' b'
  | _, _ => false
  end.

Fixpoint startsWith (pat s : list N) : bool :=
  match pat, s with
  | [], _ => true
  | p :: pat', c :: s' => (p =? c) && startsWith pat' s'
  | _ :: _, [] => false
  end.

(** [s.includes(pat)] *)
Fixpoint includes (s pat : list N) : bool :=
  startsWith pat s ||
  match s with
  | [] => false
  | _ :: s' => includes s' pat
  end.

(** [arr.includes(x)] on an array of strings *)
Definition arrayIncludes (arr : list (list N)) (x : list N) : bool :=
  existsb (eqs x) arr.

(** [s.replace(pat, "")] with a string pattern: the first occurrence of
    [pat] is removed. *)
Fixpoint removeFirst (pat s : list N) : list N :=
  if startsWith pat s then skipn (List.length pat) s
  else match s with
       | [] => []
       | c :: s' => c :: removeFirst pat s'
       end.

Fixpoint trimStart (s : list N) : list N :=
  match s with
  | c :: s' => if isSpace c then trimStart s' else s
  | [] => []
  end.

Definition trim (s : list N) : list N :=
  rev (trimStart (rev (trimStart s))).

(** Truthiness of a string: non-empty. *)
Definition truthy (s : list N) : bool :=
  match s with [] => false | _ => true end.

(** [[...new Set(arr)]]: the elements in the order of their first
    occurrence. *)
Fixpoint uniqueFrom (seen : list (list N)) (arr : list (list N)) : list (list N) :=
  match arr with
  | [] => []
  | x :: arr' =>
      if arrayIncludes seen x then uniqueFrom seen arr'
      else x :: uniqueFrom (x :: seen) arr'
  end.
Definition unique (arr : list (list N)) : list (list N) := uniqueFrom [] arr.

(** Thrown values: [Error] objects, with [String(e)] as
    [Error.prototype.toString] gives it. *)
Record jsError := { name : list N; message : list N }.

Definition newError (msg : list N) : jsError :=
  {| name := lit "Error"; message := msg |}.

Definition errToString (e : jsError) : list N :=
  if negb (truthy (name e)) then message e
  else if negb (truthy (message e)) then name e
  else name e ++ lit ": " ++ message e.

(** [e.message || String(e)] *)
Definition errText (e : jsError) : list N :=
  if truthy (message e) then message e else errToString e.

(** The completion of a call that may throw. *)
Inductive thrown (A : Type) :=
  | Return (a : A)
  | Throw (e : jsError).
Arguments Return {A} a.
Arguments Throw {A} e.

End Js.

(** ** Regular expressions

    Every quantifier of the patterns in the source applies to a single
    character class, so a pattern is a sequence of items read from left
    to right; a capturing group is an opening and a closing mark. *)

Module Regex.
Import Js.

Inductive item :=
  | Cls (p : N -> bool)                        (* one code unit in a class *)
  | Rep (p : N -> bool) (lo : nat) (hi : option nat) (* greedy p{lo,hi} *)
  | Open (g : nat)                             (* ( of group g *)
  | Close (g : nat)                            (* ) of group g *)
  | Bol                                        (* ^ *)
  | Eol                                        (* $ *)
  | Wb.                                        (* \b *)

(** Quantifier shorthands. *)
Definition Star p := Rep p 0 None.
Definition Plus p := Rep p 1 None.
Definition Opt p := Rep p 0 (Some 1%nat).
Definition AtLeast n p := Rep p n None.

(** A literal, with and without the [i] flag. *)
Definition Chr (c : N) := Cls (N.eqb c).
Definition ChrI (c : N) := Cls (fun x => canon x =? canon c).
Definition Lit (s : string) : list item := List.map Chr (lit s).
Definition LitI (s : string) : list item := List.map ChrI (lit s).
(** A class under the [i] flag. *)
Definition icase (p : N -> bool) : N -> bool := fun c => p (canon c).

(** The state of one match attempt: the input already passed (reversed),
    the positions of the groups opened, and the groups captured. *)
Record captures := {
  opened : list (nat * nat);
  closed : list (nat * list N)
}.
Definition nocaps : captures := {| opened := []; closed := [] |}.

Fixpoint assoc {A} (g : nat) (l : list (nat * A)) : option A :=
  match l with
  | [] => None
  | (g', v) :: l' => if Nat.eqb g g' then Some v else assoc g l'
  end.

Definition openGroup (g : nat) (bef : list N) (c : captures) : captures :=
  {| opened := (g, List.length bef) :: opened c; closed := closed c |}.

Definition closeGroup (g : nat) (bef : list N) (c : captures) : captures :=
  match assoc g (opened c) with
  | Some start =>
      {| opened := opened c;
         closed := (g, rev (firstn (List.length bef - start) bef)) :: closed c |}
  | None => c
  end.

Definition hdWord (s : list N) : bool :=
  match s with c :: _ => isWord c | [] => false end.

Definition more (hi : option nat) : bool :=
  match hi with Some O => false | _ => true end.
Definition less (hi : option nat) : option nat :=
  match hi with Some n => Some (pred n) | None => None end.

Record result := {
  r_bef : list N;       (* input up to the end of the match, reversed *)
  r_rest : list N;      (* input after the match *)
  r_caps : captures
}.

(** A greedy quantified class [p{lo,hi}] followed by the rest of the
    pattern [k]: it takes as many code units as it can and gives them
    back one by one until the rest matches. *)
Fixpoint rep (k : list N -> list N -> option result) (p : N -> bool)
    (s bef : list N) (lo : nat) (hi : option nat) {struct s} : option result :=
  let stop := match lo with O => k bef s | S _ => None end in
  match s with
  | c :: s' =>
      if p c && more hi then
        match rep k p s' (c :: bef) (pred lo) (less hi) with
        | Some r => Some r
        | None => stop
        end
      else stop
  | [] => stop
  end.

(** The backtracking matcher: [go items bef s caps] matches [items] at
    the position between [rev bef] and [s]. *)
Fixpoint go (items : list item) (bef s : list N) (caps : captures) : option result :=
  match items with
  | [] => Some {| r_bef := bef; r_rest := s; r_caps := caps |}
  | Cls p :: rest =>
      match s with
      | c :: s' => if p c then go rest (c :: bef) s' caps else None
      | [] => None
      end
  | Rep p lo hi :: rest => rep (fun b t => go rest b t caps) p s bef lo hi
  | Open g :: rest => go rest bef s (openGroup g bef caps)
  | Close g :: rest => go rest bef s (closeGroup g bef caps)
  | Bol :: rest => match bef with [] => go rest bef s caps | _ => None end
  | Eol :: rest => match s with [] => go rest bef s caps | _ => None end
  | Wb :: rest => if xorb (hdWord bef) (hdWord s) then go rest bef s caps else None
  end.

(** The outcome of [exec]: the whole match and the groups. *)
Record found := {
  whole : list N;
  groups : list (nat * list N)
}.

Definition group (g : nat) (m : found) : option (list N) := assoc g (groups m).

Definition mkFound (bef : list N) (r : result) : found :=
  {| whole := rev (firstn (List.length (r_bef r) - List.length bef) (r_bef r));
     groups := closed (r_caps r) |}.

(** [re.exec(s)] without the [g] flag: the match at the leftmost start. *)
Fixpoint execFrom (items : list item) (bef s : list N) : option found :=
  match go items bef s nocaps with
  | Some r => Some (mkFound bef r)
  | None =>
      match s with
      | c :: s' => execFrom items (c :: bef) s'
      | [] => None
      end
  end.
Definition exec (items : list item) (s : list N) : option found := execFrom items [] s.
Definition test (items : list item) (s : list N) : bool :=
  match exec items s with Some _ => true | None => false end.

(** [s.matchAll(re)] / [s.match(re)] with the [g] flag: the matches from
    left to right, each search starting where the previous match ended
    (one further after an empty match).  [skip] counts the code units of
    the previous match still to be passed. *)
Fixpoint scan (items : list item) (bef s : list N) (skip : nat) : list found :=
  match s with
  | c :: s' =>
      match skip with
      | S k => scan items (c :: bef) s' k
      | O =>
          match go items bef s nocaps with
          | Some r =>
              mkFound bef r ::
              scan items (c :: bef) s' (pred (List.length (r_bef r) - List.length bef))
          | None => scan items (c :: bef) s' O
          end
      end
  | [] =>
      match skip with
      | S _ => []
      | O =>
          match go items bef [] nocaps with
          | Some r => [mkFound bef r]
          | None => []
          end
      end
  end.
Definition matchAll (items : list item) (s : list N) : list found := scan items [] s O.

End Regex.

(** ** IdentifierExtractor (autoSync.ts) *)

Module IdentifierExtractor.
Import Js Regex.

(** [code.toUpperCase()] on the Basic Latin block; a code with a code
    unit outside it is rejected by the last pattern of
    [isValidUnitCode] whatever the denylist test says. *)
Definition toUpperCase (s : list N) : list N := List.map canon s.

Definition excludeList : list (list N) :=
  List.map lit
    ["SCUBA"; "HACCP"; "HACC"; "TAFE"; "CERT"; "DIPLOMA"; "ADVANCED";
     "STATEMENT"; "QUALIFICATION"; "TRAINING"; "EDUCATION";
     "SKILLS"; "COMPETENCY"; "ASSESSMENT"; "EVIDENCE"]%string.

(** /^[A-Z]{2,4}/ *)
Definition leadingLetters : list item := [Bol; Rep isUpper 2 (Some 4%nat)].
(** /\d/g *)
Definition oneDigit : list item := [Cls isDigit].
(** /^[A-Z]{2,4}[A-Z0-9]*\d+[A-Z]?$/i *)
Definition validPattern : list item :=
  [Bol; Rep (icase isUpper) 2 (Some 4%nat); Star (icase isUpperOrDigit);
   Plus isDigit; Opt (icase isUpper); Eol].

Definition isValidUnitCode (code : list N) : bool :=
  if (List.length code <? 6)%nat || (12 <? List.length code)%nat then false
  else if negb (test leadingLetters code) then false
  else
    let digitCount := List.length (matchAll oneDigit code) in
    if (digitCount <? 3)%nat then false
    else if arrayIncludes excludeList (toUpperCase code) then false
    else test validPattern code.

(** The workbook as [XLSX.readFile] and [sheet_to_json] give it: sheets
    of rows, a row an object from column names to cell values of mixed
    type. *)
Inductive cell :=
  | CString (s : list N)
  | CNumber (n : Z)
  | CBoolean (b : bool)
  | CUndefined.

Definition row := list (list N * cell).
Record sheet := { sheetName : list N; rows : list row }.
Definition workbook := list sheet.

Fixpoint getProp (r : row) (key : list N) : cell :=
  match r with
  | [] => CUndefined
  | (k, v) :: r' => if eqs k key then v else getProp r' key
  end.

(** /\b([A-Z]{2,4}[A-Z0-9]{3,10})\b/g *)
Definition unitCodePattern : list item :=
  [Wb; Open 1; Rep isUpper 2 (Some 4%nat); Rep isUpperOrDigit 3 (Some 10%nat);
   Close 1; Wb].

(** The codes one cell contributes: [match[1]] of every match that
    passes the validation filter; a cell that is not a non-empty string
    contributes none. *)
Definition codesOfCell (cellValue : cell) : list (list N) :=
  match cellValue with
  | CString s =>
      if truthy s then
        List.filter isValidUnitCode
          (omap (group 1) (matchAll unitCodePattern s))
      else []
  | _ => []
  end.

Definition columnsOf (columnName : list N) (r : row) : list cell :=
  if truthy columnName then [getProp r columnName] else List.map snd r.

Definition codesOfSheet (columnName : list N) (sh : sheet) : list (list N) :=
  flat_map (fun r => flat_map codesOfCell (columnsOf columnName r)) (rows sh).

(** [file] is the workbook at [filepath], [None] when the file cannot be
    accessed.  A file that is there and that [XLSX.readFile] cannot read
    is outside this model. *)
Definition readUnitCodesFromExcel (filepath : list N) (file : option workbook)
    (columnName : list N) : thrown (list (list N)) :=
  match file with
  | None => Throw (newError (lit "Input Excel file not found: " ++ filepath))
  | Some wb => Return (unique (flat_map (codesOfSheet columnName) wb))
  end.

(** The token grammar as the specification words it: 2 to 4 leading
    upper-case letters, an alphanumeric body with at least 3 digits that
    ends in a digit, optionally one closing letter, 6 to 12 code units
    in all. *)
Definition isLetter (c : N) : bool := isUpper c || isLower c.
Definition isAlnum (c : N) : bool := isLetter c || isDigit c.

Definition tokenGrammar (code : list N) : Prop :=
  exists letters body final,
    code = letters ++ body ++ final /\
    (2 <= List.length letters <= 4)%nat /\
    forallb isUpper letters = true /\
    forallb isAlnum body = true /\
    (3 <= List.length (List.filter isDigit body))%nat /\
    (exists b d, body = b ++ [d] /\ isDigit d = true) /\
    (final = [] \/ exists c, final = [c] /\ isLetter c = true) /\
    (6 <= List.length code <= 12)%nat.

(** Scenario A of the specification: one sheet, the three tokens in one
    column. *)
Definition scenarioA : workbook :=
  [ {| sheetName := lit "Sheet1";
       rows := [ [(lit "Unit", CString (lit "MARA022"))];
                 [(lit "Unit", CString (lit "SCUBA"))];
                 [(lit "Unit", CString (lit "HLTAID011"))] ] |} ].

End IdentifierExtractor.


(** ** FetchEngine (fetcher.ts, utils/logger.ts) *)

Module FetchEngine.
Import Js.

Inductive ErrorType := NETWORK | TIMEOUT | PARSE | UNKNOWN.

Definition errorTypeName (t : ErrorType) : list N :=
  match t with
  | NETWORK => lit "NETWORK"
  | TIMEOUT => lit "TIMEOUT"
  | PARSE => lit "PARSE"
  | UNKNOWN => lit "UNKNOWN"
  end.

(** [classifyError(e)]; [None] is [undefined]. *)
Definition classifyError (e : option jsError) : ErrorType :=
  match e with
  | None => UNKNOWN
  | Some e =>
      let msg := toLowerCase (errText e) in
      if includes msg (lit "timed out") || includes msg (lit "timeout") then TIMEOUT
      else if includes msg (lit "net::err") || includes msg (lit "econn")
              || includes msg (lit "socket") || includes msg (lit "epipe") then NETWORK
      else if includes msg (lit "parse") || includes msg (lit "json") then PARSE
      else UNKNOWN
  end.

(** What the engine does to the outside, in the order it does it. *)
Inductive event :=
  | ESleep (ms : Z)                       (* sleep(ms) *)
  | ELaunch                               (* puppeteer.launch *)
  | EAttempt (url : list N) (attempt : Z) (* newPage, goto, the render waits, content *)
  | ECloseBrowser.                        (* browser.close *)

(** What one page attempt comes to: the rendered HTML, an error thrown
    inside the [try] block (navigation, content), or an error thrown
    outside it, by [browser.newPage()] before the block or by
    [page.close()] in its handler, which ends the [get] as it is. *)
Inductive pageOutcome :=
  | Rendered (html : list N)
  | Failed (e : jsError)
  | NewPageFailed (e : jsError).

(** The environment answers as a function of what has happened so far:
    the clock ([Date.now()], [new Date().toISOString()]), the outcome of
    the page attempt just started, and [Math.random()] scaled to the
    jitter of the crawler. *)
Record env := {
  now : list event -> Z;
  isoTime : list event -> list N;
  render : list event -> pageOutcome;
  jitter : list event -> Z
}.

Record FetcherOptions := {
  opt_minDelayMs : option Z;
  opt_headless : option bool;
  opt_timeout : option Z;
  opt_maxRetries : option Z;
  opt_backoffMs : option Z
}.

Record Fetcher := {
  lastRequestAt : Z;
  minDelayMs : Z;
  headless : bool;
  timeout : Z;
  browser : bool;          (* this.browser is not null *)
  browserPromise : bool;   (* this.browserPromise is not null *)
  maxRetries : Z;
  backoffMs : Z
}.

Definition newFetcher (opts : FetcherOptions) : Fetcher :=
  {| lastRequestAt := 0;
     minDelayMs := default 1500%Z (opt_minDelayMs opts);
     headless := default true (opt_headless opts);
     timeout := default 30000%Z (opt_timeout opts);
     browser := false;
     browserPromise := false;
     maxRetries := default 3%Z (opt_maxRetries opts);
     backoffMs := default 750%Z (opt_backoffMs opts) |}.

Definition setLastRequestAt (f : Fetcher) (t : Z) : Fetcher :=
  {| lastRequestAt := t; minDelayMs := minDelayMs f; headless := headless f;
     timeout := timeout f; browser := browser f;
     browserPromise := browserPromise f; maxRetries := maxRetries f;
     backoffMs := backoffMs f |}.

Definition setBrowser (f : Fetcher) (b p : bool) : Fetcher :=
  {| lastRequestAt := lastRequestAt f; minDelayMs := minDelayMs f;
     headless := headless f; timeout := timeout f; browser := b;
     browserPromise := p; maxRetries := maxRetries f;
     backoffMs := backoffMs f |}.

Definition ensurePoliteDelay (E : env) (f : Fetcher) (tr : list event) : list event :=
  let since := (now E tr - lastRequestAt f)%Z in
  let wait := Z.max 0 (minDelayMs f - since) in
  if (wait >? 0)%Z then tr ++ [ESleep wait] else tr.

(** One caller at a time: the browser is launched on first use; a
    promise left over from an earlier launch is returned as it is.  The
    launch is taken to resolve: a [puppeteer.launch] that rejects is
    outside this model. *)
Definition ensureBrowser (f : Fetcher) (tr : list event) : Fetcher * list event :=
  if browser f then (f, tr)
  else if browserPromise f then (f, tr)
  else (setBrowser f true true, tr ++ [ELaunch]).

(** The final failure: [new Error(`FetchFailed:${type}:${errMsg}`)]. *)
Definition lastErrMsg (lastErr : option jsError) : list N :=
  match lastErr with
  | None => lit "undefined"
  | Some e =>
      if truthy (message e) then message e
      else if truthy (errToString e) then errToString e
      else lit "Unknown error"
  end.

Definition fetchFailed (lastErr : option jsError) : jsError :=
  newError (lit "FetchFailed:" ++ errorTypeName (classifyError lastErr)
            ++ lit ":" ++ lastErrMsg lastErr).

(** The [while (attempt < this.maxRetries)] loop of [get]; [fuel] bounds
    the iterations and [Z.to_nat maxRetries] is enough of it. *)
Fixpoint attemptLoop (E : env) (f : Fetcher) (url : list N) (fuel : nat)
    (attempt : Z) (lastErr : option jsError) (tr : list event)
    : thrown (list N) * Fetcher * list event :=
  match fuel with
  | O => (Throw (fetchFailed lastErr), f, tr)
  | S fuel' =>
      if (attempt <? maxRetries f)%Z then
        let attempt := (attempt + 1)%Z in
        let tr := tr ++ [EAttempt url attempt] in
        match render E tr with
        | NewPageFailed e => (Throw e, f, tr)
        | Rendered html => (Return html, setLastRequestAt f (now E tr), tr)
        | Failed err =>
            let tr :=
              if (attempt <? maxRetries f)%Z
              then tr ++ [ESleep (backoffMs f * attempt)] else tr in
            attemptLoop E f url fuel' attempt (Some err) tr
        end
      else (Throw (fetchFailed lastErr), f, tr)
  end.

Definition get (E : env) (f : Fetcher) (url : list N) (tr : list event)
    : thrown (list N) * Fetcher * list event :=
  let tr := ensurePoliteDelay E f tr in
  let '(f, tr) := ensureBrowser f tr in
  attemptLoop E f url (Z.to_nat (maxRetries f)) 0 None tr.

Definition close (f : Fetcher) (tr : list event) : Fetcher * list event :=
  if browser f then (setBrowser f false (browserPromise f), tr ++ [ECloseBrowser])
  else (f, tr).

(** [class CachedFetcher extends Fetcher] of autoSync.ts. *)
Record CachedFetcher := {
  super : Fetcher;
  cache : gmap (list N) (list N)
}.

Definition newCachedFetcher (opts : FetcherOptions) : CachedFetcher :=
  {| super := newFetcher opts; cache := ∅ |}.

Definition setCache (cf : CachedFetcher) (url html : list N) : CachedFetcher :=
  {| super := super cf; cache := <[url := html]> (cache cf) |}.

Definition cachedGet (E : env) (cf : CachedFetcher) (url : list N) (tr : list event)
    : thrown (list N) * CachedFetcher * list event :=
  match cache cf !! url with
  | Some html => (Return html, cf, tr)
  | None =>
      let '(r, f, tr) := get E (super cf) url tr in
      (r, {| super := f; cache := cache cf |}, tr)
  end.

Definition cachedClose (cf : CachedFetcher) (tr : list event) : CachedFetcher * list event :=
  let '(f, tr) := close (super cf) tr in
  ({| super := f; cache := cache cf |}, tr).

(** What a caller can do with a [CachedFetcher], and a sequence of such
    calls on one instance. *)
Inductive call :=
  | CallGet (url : list N)
  | CallSetCache (url html : list N)
  | CallClose.

Definition doCall (E : env) (st : CachedFetcher * list event) (c : call)
    : CachedFetcher * list event :=
  match c with
  | CallGet url => let '(_, cf, tr) := cachedGet E st.1 url st.2 in (cf, tr)
  | CallSetCache url html => (setCache st.1 url html, st.2)
  | CallClose => cachedClose st.1 st.2
  end.

Definition doCalls (E : env) (cf : CachedFetcher) (tr : list event) (cs : list call)
    : CachedFetcher * list event :=
  fold_left (doCall E) cs (cf, tr).

Definition setsCacheOf (url : list N) (c : call) : bool :=
  match c with
  | CallSetCache u _ => eqs u url
  | _ => false
  end.

(** The events of one [get] as the specification describes them: [m]
    attempts numbered from [j + 1], and between an attempt and the next
    a wait of [backoffMs] times the number of the attempt that failed. *)
Fixpoint attemptsFrom (url : list N) (backoffMs : Z) (j m : nat) : list event :=
  match m with
  | O => []
  | S m' =>
      EAttempt url (Z.of_nat (S j)) ::
      match m' with
      | O => []
      | S _ => ESleep (backoffMs * Z.of_nat (S j)) :: attemptsFrom url backoffMs (S j) m'
      end
  end.

Definition attemptsTrace (url : list N) (backoffMs : Z) (m : nat) : list event :=
  attemptsFrom url backoffMs 0 m.

Definition isAttempt (e : event) : bool :=
  match e with EAttempt _ _ => true | _ => false end.

(** The first attempts on [url] in a trace: the calls of [get] that went
    to the network for it. *)
Definition isFirstAttemptOn (url : list N) (e : event) : bool :=
  match e with
  | EAttempt u a => eqs u url && (a =? 1)%Z
  | _ => false
  end.

Definition downloads (url : list N) (tr : list event) : nat :=
  List.length (List.filter (isFirstAttemptOn url) tr).

End FetchEngine.

(** ** The record model (models/uoc.ts) *)

Module Model.

Record UocElement := {
  element : list N;
  performanceCriteria : list (list N)
}.

Record UocSection := {
  heading : list N;
  level : Z;
  paragraphs : list (list N);
  lists : list (list (list N))
}.

(** [{ code: string; url: string }], a supersession link. *)
Record UocLink := { link_code : list N; link_url : list N }.

Record Uoc := {
  url : list N;
  code : list N;
  title : list N;
  status : option (list N);
  release : option (list N);
  application : option (list N);
  unitSector : option (list N);
  licensingOrRegulatoryInfo : option (list N);
  prerequisites : option (list (list N));
  elements : option (list UocElement);
  foundationSkills : option (list N);
  assessmentConditions : option (list N);
  performanceEvidence : option (list N);
  knowledgeEvidence : option (list N);
  description : option (list N);
  supersededBy : option UocLink;
  supersedes : option UocLink;
  sections : option (list UocSection);
  lastFetchedAt : list N
}.

End Model.

(** ** DocumentExtractor (parsers/uocParser.ts) *)

Module DocumentExtractor.
Import Js Regex Model.

(** An element matched by [$("a[href^='/training/details/']")]. *)
Record anchor := {
  a_href : option (list N);     (* $a.attr("href") *)
  a_text : list N;              (* $a.text() *)
  a_parentText : list N         (* $a.parent().text() *)
}.

(** What the field chains that are not unfolded here return on a
    document ([extractStatus], [readDlByLabel] and
    [extractTextFromSection] for the labelled fields,
    [extractElementsAndPC], the evidence and assessment chains, the
    description paragraph and the generic sections). *)
Record otherFields := {
  o_description : option (list N);
  o_status : option (list N);
  o_release : option (list N);
  o_application : option (list N);
  o_unitSector : option (list N);
  o_licensing : option (list N);
  o_prerequisites : option (list (list N));
  o_elements : option (list UocElement);
  o_foundationSkills : option (list N);
  o_assessmentConditions : option (list N);
  o_performanceEvidence : option (list N);
  o_knowledgeEvidence : option (list N);
  o_sections : list UocSection
}.

(** The document [cheerio.load(html)] returns, as the answers it gives
    to the queries of the parser. *)
Record page := {
  heroLength : nat;            (* $(".heroSubheading .title").length *)
  heroStrongText : list N;     (* heroSubheading.find("strong").first().text() *)
  heroText : list N;           (* heroSubheading.text() *)
  h1Text : list N;             (* $("h1").first().text() *)
  h2Text : list N;             (* $("h2").first().text() *)
  detailLinks : list anchor;   (* the detail links, in document order *)
  others : otherFields
}.

(** /[A-Z]{2,}\w*\d{2,}/, the code inside the patterns below *)
Definition codeItems (upper : N -> bool) : list item :=
  [AtLeast 2 upper; Star isWord; AtLeast 2 isDigit].

(** /Unit of Competency:\s*([A-Z]{2,}\w*\d{2,})/i *)
Definition uocPattern : list item :=
  LitI "Unit of Competency:" ++ [Star isSpace; Open 1]
  ++ codeItems (icase isUpper) ++ [Close 1].

(** /Title:\s*(.+)$/i *)
Definition titlePattern : list item :=
  LitI "Title:" ++ [Star isSpace; Open 1; Plus isDot; Close 1; Eol].

(** [-–—] *)
Definition isDash (c : N) : bool := (c =? 45) || (c =? 8211) || (c =? 8212).

(** /^([A-Z]{2,}\w*\d{2,})\s*[-–—]?\s*(.+)$/ *)
Definition headingPattern : list item :=
  [Bol; Open 1] ++ codeItems isUpper
  ++ [Close 1; Star isSpace; Opt isDash; Star isSpace; Open 2; Plus isDot; Close 2; Eol].

(** [m[g]] of a match whose group [g] took part in it. *)
Definition groupText (g : nat) (m : found) : list N := default [] (group g m).

Definition extractCodeAndTitle (d : page) : list N * list N :=
  let strongText := trim (heroStrongText d) in
  let fullText := trim (heroText d) in
  if (0 <? heroLength d)%nat && truthy strongText && truthy fullText then
    (strongText, trim (removeFirst strongText fullText))
  else
    let h1 := trim (h1Text d) in
    match exec uocPattern h1 with
    | Some uocMatch =>
        let h2 := trim (h2Text d) in
        let title :=
          match exec titlePattern h2 with
          | Some titleMatch => trim (groupText 1 titleMatch)
          | None => []
          end in
        (groupText 1 uocMatch, title)
    | None =>
        match exec headingPattern h1 with
        | Some m => (groupText 1 m, groupText 2 m)
        | None => (lit "Unknown", lit "Unknown")
        end
    end.

(** /\b([A-Z]{2,}\w*\d{2,})\b/ *)
Definition linkCodePattern : list item :=
  [Wb; Open 1] ++ codeItems isUpper ++ [Close 1; Wb].

Definition linkOf (a : anchor) (codeMatch : found) : UocLink :=
  {| link_code := groupText 1 codeMatch;
     link_url := lit "https://training.gov.au" ++ default [] (a_href a) |}.

(** /superseded by/i on the parent text *)
Definition saysSupersededBy (a : anchor) : bool :=
  test (LitI "superseded by") (toLowerCase (a_parentText a)).

(** /supersedes/i on the parent text or /supersedes:/i on the link text *)
Definition saysSupersedes (a : anchor) : bool :=
  test (LitI "supersedes") (toLowerCase (a_parentText a))
  || test (LitI "supersedes:") (trim (a_text a)).

(** The body of the [.each] callback: the two variables after one more
    link. *)
Definition supersessionStep (acc : option UocLink * option UocLink) (a : anchor)
    : option UocLink * option UocLink :=
  let '(supersededBy, supersedes) := acc in
  let codeMatch := exec linkCodePattern (trim (a_text a)) in
  let supersededBy :=
    if saysSupersededBy a then
      match codeMatch with
      | Some m => Some (linkOf a m)
      | None => supersededBy
      end
    else supersededBy in
  let supersedes :=
    if saysSupersedes a then
      match codeMatch with
      | Some m => Some (linkOf a m)
      | None => supersedes
      end
    else supersedes in
  (supersededBy, supersedes).

Definition extractSupersession (d : page) : option UocLink * option UocLink :=
  fold_left supersessionStep (detailLinks d) (None, None).

(** The link one anchor gives for a relation, and the first and the last
    anchor of a document that give one: the two readings of "at most
    one link is retained". *)
Definition relationLink (says : anchor -> bool) (a : anchor) : option UocLink :=
  if says a then option_map (linkOf a) (exec linkCodePattern (trim (a_text a)))
  else None.

Fixpoint firstLink (says : anchor -> bool) (links : list anchor) : option UocLink :=
  match links with
  | [] => None
  | a :: rest =>
      match relationLink says a with
      | Some l => Some l
      | None => firstLink says rest
      end
  end.

Definition lastLink (says : anchor -> bool) (links : list anchor) : option UocLink :=
  firstLink says (rev links).

(** No strategy of [extractCodeAndTitle] matches. *)
Definition heroMatches (d : page) : bool :=
  (0 <? heroLength d)%nat && truthy (trim (heroStrongText d))
  && truthy (trim (heroText d)).

Definition noIdentityStrategy (d : page) : bool :=
  negb (heroMatches d)
  && negb (test uocPattern (trim (h1Text d)))
  && negb (test headingPattern (trim (h1Text d))).

(** [parseUocHtml(html, url)]; [load] is [cheerio.load] and [stamp] is
    [new Date().toISOString()] at the time of the call. *)
Definition parseUocHtml (load : list N -> page) (stamp : list N)
    (html url : list N) : Uoc :=
  let d := load html in
  let '(code, title) := extractCodeAndTitle d in
  let '(supersededBy, supersedes) := extractSupersession d in
  {| Model.url := url;
     Model.code := code;
     Model.title := title;
     status := o_status (others d);
     release := o_release (others d);
     application := o_application (others d);
     unitSector := o_unitSector (others d);
     licensingOrRegulatoryInfo := o_licensing (others d);
     prerequisites := o_prerequisites (others d);
     elements := o_elements (others d);
     foundationSkills := o_foundationSkills (others d);
     assessmentConditions := o_assessmentConditions (others d);
     performanceEvidence := o_performanceEvidence (others d);
     knowledgeEvidence := o_knowledgeEvidence (others d);
     description := o_description (others d);
     Model.supersededBy := supersededBy;
     Model.supersedes := supersedes;
     sections := match o_sections (others d) with [] => None | l => Some l end;
     lastFetchedAt := stamp |}.

Definition noOtherFields : otherFields :=
  {| o_description := None; o_status := None; o_release := None;
     o_application := None; o_unitSector := None; o_licensing := None;
     o_prerequisites := None; o_elements := None; o_foundationSkills := None;
     o_assessmentConditions := None; o_performanceEvidence := None;
     o_knowledgeEvidence := None; o_sections := [] |}.

(** A document in which no query of the parser finds anything, as for
    an empty input. *)
Definition emptyPage : page :=
  {| heroLength := 0; heroStrongText := []; heroText := []; h1Text := [];
     h2Text := []; detailLinks := []; others := noOtherFields |}.

(** The record of a document in which nothing is found. *)
Definition unknownRecord (stamp url : list N) : Uoc :=
  {| Model.url := url; Model.code := lit "Unknown"; Model.title := lit "Unknown";
     status := None; release := None; application := None; unitSector := None;
     licensingOrRegulatoryInfo := None; prerequisites := None; elements := None;
     foundationSkills := None; assessmentConditions := None;
     performanceEvidence := None; knowledgeEvidence := None; description := None;
     Model.supersededBy := None; Model.supersedes := None; sections := None;
     lastFetchedAt := stamp |}.

End DocumentExtractor.

(** ** OutcomeStore (services/exportService.ts) and the files of the data
    directory *)

Module OutcomeStore.
Import Js Model.

(** [s.split('\n')] *)
Fixpoint splitNl (s : list N) : list (list N) :=
  match s with
  | [] => [[]]
  | c :: s' =>
      if c =? 10 then [] :: splitNl s'
      else match splitNl s' with
           | l :: ls => (c :: l) :: ls
           | [] => [[c]]
           end
  end.

(** [arr.join('\n')] *)
Fixpoint joinNl (ls : list (list N)) : list N :=
  match ls with
  | [] => []
  | [l] => l
  | l :: ls' => l ++ 10 :: joinNl ls'
  end.

(** [content.trim().split('\n').filter(Boolean)] *)
Definition linesOf (content : list N) : list (list N) :=
  List.filter truthy (splitNl (trim content)).

(** error-log.json, as [JSON.parse] reads it: the arrays autoSync.ts
    writes and the array [logError] keeps; a property may be missing. *)
Record invalidEntry := {
  inv_code : list N;
  inv_reason : list N;
  inv_permanent : bool
}.

Record errorEntry := {
  err_code : list N;
  err_error : list N;
  err_attempts : option Z;
  err_lastAttempt : option (list N)
}.

Record crawlError := {
  ce_url : list N;
  ce_errorType : list N;
  ce_message : list N
}.

Record logSummary := {
  totalChecked : Z;
  s_valid : Z;
  s_invalid : Z;
  s_errors : Z
}.

Record errorLog := {
  log_timestamp : list N;
  log_summary : option logSummary;
  log_invalidUnits : option (list invalidEntry);
  log_errorUnits : option (list errorEntry);
  log_errors : option (list crawlError)
}.

(** The data directory: uoc.jsonl, units/<code>.json and error-log.json;
    [None] is a file that does not exist. *)
Record disk := {
  jsonlFile : option (list N);
  unitFiles : gmap (list N) (list N);
  errorLogFile : option errorLog
}.

Definition noFiles : disk :=
  {| jsonlFile := None; unitFiles := ∅; errorLogFile := None |}.

Definition setJsonl (d : disk) (content : list N) : disk :=
  {| jsonlFile := Some content; unitFiles := unitFiles d;
     errorLogFile := errorLogFile d |}.

Definition setErrorLog (d : disk) (log : errorLog) : disk :=
  {| jsonlFile := jsonlFile d; unitFiles := unitFiles d;
     errorLogFile := Some log |}.

(** The service object: the set of codes it has seen. *)
Record ExportService := { existingCodes : gset (list N) }.

Definition newExportService : ExportService := {| existingCodes := ∅ |}.

Section Json.

(** [JSON.stringify(item)], [JSON.stringify(item, null, 2)], and the
    [code] property of [JSON.parse(line)]: [None] when parsing or the
    property access throws, [Some None] when the value has no string
    under [code]. *)
Variable stringify : Uoc -> list N.
Variable pretty : Uoc -> list N.
Variable parsedCode : list N -> option (option (list N)).

Definition init (svc : ExportService) (d : disk) : ExportService * disk :=
  match jsonlFile d with
  | Some content =>
      let add (codes : gset (list N)) (line : list N) :=
        match parsedCode line with
        | Some (Some c) => if truthy c then {[c]} ∪ codes else codes
        | _ => codes
        end in
      ({| existingCodes := fold_left add (linesOf content) (existingCodes svc) |}, d)
  | None => (svc, setJsonl d [])
  end.

Definition removeUnit (code : list N) (d : disk) : disk :=
  match jsonlFile d with
  | Some content =>
      let keep (line : list N) :=
        match parsedCode line with
        | Some (Some c) => negb (eqs c code)
        | Some None => true
        | None => true
        end in
      let updatedLines := List.filter keep (linesOf content) in
      setJsonl d (joinNl updatedLines ++ [10])
  | None => d
  end.

Definition writeJsonl (svc : ExportService) (d : disk) (item : Uoc)
    : ExportService * disk :=
  let d := if bool_decide (code item ∈ existingCodes svc)
           then removeUnit (code item) d else d in
  let line := stringify item ++ [10] in
  let d := setJsonl d (default [] (jsonlFile d) ++ line) in
  let svc := {| existingCodes := {[code item]} ∪ existingCodes svc |} in
  (svc,
   {| jsonlFile := jsonlFile d;
      unitFiles := <[code item := pretty item]> (unitFiles d);
      errorLogFile := errorLogFile d |}).

End Json.

(** [logError]: the entry is added to the [errors] array of the log,
    which keeps its last 500 entries. *)
Definition logError (d : disk) (stamp : list N) (entry : crawlError) : disk :=
  let payload :=
    match errorLogFile d with
    | Some log => log
    | None => {| log_timestamp := stamp; log_summary := None;
                 log_invalidUnits := None; log_errorUnits := None;
                 log_errors := Some [] |}
    end in
  let errors := default [] (log_errors payload) ++ [entry] in
  let errors :=
    if (500 <? List.length errors)%nat
    then skipn (List.length errors - 500) errors else errors in
  setErrorLog d
    {| log_timestamp := log_timestamp payload;
       log_summary := log_summary payload;
       log_invalidUnits := log_invalidUnits payload;
       log_errorUnits := log_errorUnits payload;
       log_errors := Some errors |}.

(** One run of the service on a list of records: [init], then
    [writeJsonl] for each. *)
Definition writeAll (stringify pretty : Uoc -> list N)
    (parsedCode : list N -> option (option (list N)))
    (svc : ExportService) (d : disk) (items : list Uoc) : ExportService * disk :=
  fold_left (fun sd item => writeJsonl stringify pretty parsedCode sd.1 sd.2 item)
            items (svc, d).

Definition exportRun (stringify pretty : Uoc -> list N)
    (parsedCode : list N -> option (option (list N)))
    (d : disk) (items : list Uoc) : disk :=
  let '(svc, d) := init parsedCode newExportService d in
  (writeAll stringify pretty parsedCode svc d items).2.

(** Several runs, one after the other, each with a service of its
    own. *)
Definition exportRuns (stringify pretty : Uoc -> list N)
    (parsedCode : list N -> option (option (list N)))
    (d : disk) (runs : list (list Uoc)) : disk :=
  fold_left (exportRun stringify pretty parsedCode) runs d.

(** What [JSON.stringify] gives for a record: one line, not empty, with
    no line break in it and no white space at its ends. *)
Definition startsWithSpace (s : list N) : bool :=
  match s with c :: _ => isSpace c | [] => false end.

Definition oneLine (l : list N) : bool :=
  truthy l && forallb (fun c => negb (c =? 10)) l
  && negb (startsWithSpace l) && negb (startsWithSpace (rev l)).

(** The file whose lines are [ls], each closed by a line break. *)
Definition linesFile (ls : list (list N)) : list N :=
  flat_map (fun l => l ++ [10]) ls.

(** The corpus file holds the records [items], one complete line each,
    after at most some leading white space. *)
Definition holds (stringify : Uoc -> list N) (d : disk) (items : list Uoc) : Prop :=
  exists nl,
    forallb isSpace nl = true /\
    jsonlFile d = Some (nl ++ linesFile (List.map stringify items)).

(** The corpus as the specification describes it: writing a record
    removes the entry of the same identifier and appends the new one. *)
Definition upsert (corpus : list Uoc) (item : Uoc) : list Uoc :=
  List.filter (fun u => negb (eqs (code u) (code item))) corpus ++ [item].

(** The entry of an identifier in a list of records: the first record
    with that code. *)
Definition entryOf (c : list N) (records : list Uoc) : option Uoc :=
  List.find (fun u => eqs (code u) c) records.

End OutcomeStore.

(** ** CrawlScheduler (crawler.ts) *)

Module CrawlScheduler.
Import Js Model FetchEngine DocumentExtractor OutcomeStore.

Record crawl := {
  c_fetcher : CachedFetcher;
  c_exporter : ExportService;
  c_disk : disk;
  c_trace : list event;
  successes : Z;
  failures : list (list N * list N)      (* url, message *)
}.

Section Crawler.

Variable E : env.
Variable load : list N -> page.
Variable stringify pretty : Uoc -> list N.
Variable parsedCode : list N -> option (option (list N)).

(** One turn of a worker: fetch, extract, persist, wait; a failure is
    logged and the worker goes on. *)
Definition crawlOne (st : crawl) (url : list N) : crawl :=
  let '(r, cf, tr) := cachedGet E (c_fetcher st) url (c_trace st) in
  match r with
  | Return html =>
      let uoc := parseUocHtml load (isoTime E tr) html url in
      let '(svc, d) := writeJsonl stringify pretty parsedCode (c_exporter st) (c_disk st) uoc in
      {| c_fetcher := cf; c_exporter := svc; c_disk := d;
         c_trace := tr ++ [ESleep (300 + jitter E tr)];
         successes := (successes st + 1)%Z; failures := failures st |}
  | Throw err =>
      let message := errText err in
      let type := classifyError (Some err) in
      {| c_fetcher := cf; c_exporter := c_exporter st;
         c_disk := logError (c_disk st) (isoTime E tr)
                     {| ce_url := url; ce_errorType := errorTypeName type;
                        ce_message := message |};
         c_trace := tr; successes := successes st;
         failures := failures st ++ [(url, message)] |}
  end.

(** [crawlUocUrls(urls)], the workers taken one after the other. *)
Definition crawlUocUrls (cf : CachedFetcher) (svc : ExportService) (d : disk)
    (tr : list event) (urls : list (list N)) : crawl :=
  let '(svc, d) := init parsedCode svc d in
  let queue := unique urls in
  let st := fold_left crawlOne queue
              {| c_fetcher := cf; c_exporter := svc; c_disk := d; c_trace := tr;
                 successes := 0; failures := [] |} in
  let '(cf, tr) := cachedClose (c_fetcher st) (c_trace st) in
  {| c_fetcher := cf; c_exporter := c_exporter st; c_disk := c_disk st;
     c_trace := tr; successes := successes st; failures := failures st |}.

End Crawler.
End CrawlScheduler.

(** ** SyncPlanner and the run (autoSync.ts) *)

Module AutoSync.
Import Js Model FetchEngine DocumentExtractor OutcomeStore CrawlScheduler
       IdentifierExtractor.

(** A [Map] whose order of insertion is observed. *)
Section JsMap.
Context {K V : Type} (eqb : K -> K -> bool).

Fixpoint mapGet (m : list (K * V)) (k : K) : option V :=
  match m with
  | [] => None
  | (k', v) :: m' => if eqb k' k then Some v else mapGet m' k
  end.

Definition mapHas (m : list (K * V)) (k : K) : bool :=
  match mapGet m k with Some _ => true | None => false end.

Fixpoint mapSet (m : list (K * V)) (k : K) (v : V) : list (K * V) :=
  match m with
  | [] => [(k, v)]
  | (k', v') :: m' =>
      if eqb k' k then (k', v) :: m' else (k', v') :: mapSet m' k v
  end.

Definition mapValues (m : list (K * V)) : list V := List.map snd m.

End JsMap.

(** Key equality of a [Map] on cell values. *)
Definition cellEqb (a b : cell) : bool :=
  match a, b with
  | CString x, CString y => eqs x y
  | CNumber x, CNumber y => (x =? y)%Z
  | CBoolean x, CBoolean y => Bool.eqb x y
  | CUndefined, CUndefined => true
  | _, _ => false
  end.

Definition cellTruthy (c : cell) : bool :=
  match c with
  | CString s => truthy s
  | CNumber n => negb (n =? 0)%Z
  | CBoolean b => b
  | CUndefined => false
  end.

Record SyncConfig := {
  inputExcel : list N;
  inputColumn : list N;
  outputExcel : list N;
  dataDir : list N;
  cfg_maxRetries : option Z;
  retryDelay : option Z;
  autoRetry : option bool
}.

Record SyncResult := {
  success : bool;
  validCount : Z;
  invalidCount : Z;
  errorCount : Z;
  retryCount : Z
}.

Record UnitError := {
  ue_code : list N;
  error : list N;
  attempts : Z;
  lastAttempt : list N
}.

(** [n || d] on numbers *)
Definition numOr (n : option Z) (d : Z) : Z :=
  match n with
  | Some z => if (z =? 0)%Z then d else z
  | None => d
  end.

(** [s || d] on strings *)
Definition strOr (s : option (list N)) (d : list N) : list N :=
  match s with
  | Some x => if truthy x then x else d
  | None => d
  end.

(** The output workbook of an earlier run: the 'Unit Code' and 'Release'
    cells of the rows of its first sheet. *)
Definition getExistingUnits (file : option workbook) : list (cell * cell) :=
  match file with
  | Some (sh :: _) =>
      fold_left
        (fun existingUnits r =>
           let codeCell := getProp r (lit "Unit Code") in
           let releaseCell :=
             let c := getProp r (lit "Release") in
             if cellTruthy c then c else CString [] in
           if cellTruthy codeCell then mapSet cellEqb existingUnits codeCell releaseCell
           else existingUnits)
        (rows sh) []
  | _ => []
  end.

(** Only the [errorUnits] array of the log is read. *)
Definition loadPreviousErrors (d : disk) (stamp : list N) : gmap (list N) UnitError :=
  match errorLogFile d with
  | Some errorLog =>
      match log_errorUnits errorLog with
      | Some errs =>
          fold_left
            (fun errorMap err =>
               <[err_code err :=
                   {| ue_code := err_code err;
                      error := err_error err;
                      attempts := numOr (err_attempts err) 1;
                      lastAttempt := strOr (err_lastAttempt err) stamp |}]> errorMap)
            errs ∅
      | None => ∅
      end
  | None => ∅
  end.

Definition saveErrorLog (d : disk) (stamp : list N)
    (invalidUnits : list (list N * list N)) (errorUnits : list UnitError)
    (totalChecked validCount : Z) : disk :=
  setErrorLog d
    {| log_timestamp := stamp;
       log_summary :=
         Some {| OutcomeStore.totalChecked := totalChecked;
                 s_valid := validCount;
                 s_invalid := Z.of_nat (List.length invalidUnits);
                 s_errors := Z.of_nat (List.length errorUnits) |};
       log_invalidUnits :=
         Some (List.map (fun u => {| inv_code := u.1; inv_reason := u.2;
                                     inv_permanent := true |}) invalidUnits);
       log_errorUnits :=
         Some (List.map (fun u => {| err_code := ue_code u;
                                     err_error := error u;
                                     err_attempts := Some (attempts u);
                                     err_lastAttempt := Some (lastAttempt u) |})
                        errorUnits);
       log_errors := None |}.

(** *** The planner: the loop over [requestedCodes] *)

Record plan := {
  unitsToScrape : list (list N);
  unitsToRetry : list (list N);
  skipped : list (list N)     (* the codes a skip line is printed for *)
}.

Definition planStep (existingUnits : list (cell * cell))
    (previousErrors : gmap (list N) UnitError) (maxRetries : Z)
    (p : plan) (code : list N) : plan :=
  if negb (mapHas cellEqb existingUnits (CString code)) then
    match previousErrors !! code with
    | Some errInfo =>
        if (attempts errInfo <? maxRetries)%Z then
          {| unitsToScrape := unitsToScrape p;
             unitsToRetry := unitsToRetry p ++ [code];
             skipped := skipped p |}
        else
          {| unitsToScrape := unitsToScrape p;
             unitsToRetry := unitsToRetry p;
             skipped := skipped p ++ [code] |}
    | None =>
        {| unitsToScrape := unitsToScrape p ++ [code];
           unitsToRetry := unitsToRetry p;
           skipped := skipped p |}
    end
  else
    {| unitsToScrape := unitsToScrape p;
       unitsToRetry := unitsToRetry p;
       skipped := skipped p ++ [code] |}.

Definition planUnits (existingUnits : list (cell * cell))
    (previousErrors : gmap (list N) UnitError) (maxRetries : Z)
    (requestedCodes : list (list N)) : plan :=
  fold_left (planStep existingUnits previousErrors maxRetries) requestedCodes
    {| unitsToScrape := []; unitsToRetry := []; skipped := [] |}.

(** The classification as the specification words it: present or
    exhausted is 'skip', pending with attempts left is 'retry', anything
    else is 'new'. *)
Inductive classification := skip | retry | new.

Definition classify (existingUnits : list (cell * cell))
    (previousErrors : gmap (list N) UnitError) (maxRetries : Z)
    (code : list N) : classification :=
  if mapHas cellEqb existingUnits (CString code) then skip
  else match previousErrors !! code with
       | Some errInfo => if (attempts errInfo <? maxRetries)%Z then retry else skip
       | None => new
       end.

Definition isClass (k : classification) (c : classification) : bool :=
  match k, c with
  | skip, skip | retry, retry | new, new => true
  | _, _ => false
  end.

(** The requested codes of one class, in the order requested. *)
Definition only (existingUnits : list (cell * cell))
    (previousErrors : gmap (list N) UnitError) (maxRetries : Z)
    (k : classification) (codes : list (list N)) : list (list N) :=
  List.filter
    (fun c => isClass k (classify existingUnits previousErrors maxRetries c)) codes.

(** [const allUnitsToProcess = [...unitsToScrape, ...unitsToRetry]] *)
Definition allUnitsToProcess (p : plan) : list (list N) :=
  unitsToScrape p ++ unitsToRetry p.

(** *** Validation *)

Record validation := {
  validUnits : list (list N);
  invalidUnits : list (list N * list N);            (* code, reason *)
  errorUnits : list (list N * UnitError);           (* a Map, by code *)
  fetcher : CachedFetcher;
  trace : list event
}.

Definition unitUrl (code : list N) : list N :=
  lit "https://training.gov.au/training/details/" ++ code ++ lit "/unitdetails".

(** The not-found markers [categorizeError] looks for in a message. *)
Definition hasNotFoundMarker (msg : list N) : bool :=
  includes msg (lit "404") || includes msg (lit "not found").

(** The record of an earlier failure of [code]: that of the previous
    run, else that of this run. *)
Definition priorError (previousErrors : gmap (list N) UnitError)
    (errorUnits : list (list N * UnitError)) (code : list N) : option UnitError :=
  match previousErrors !! code with
  | Some e => Some e
  | None => mapGet eqs errorUnits code
  end.

Section Run.

Variable E : env.
Variable previousErrors : gmap (list N) UnitError.

Definition categorizeError (st : validation) (code : list N) (err : jsError)
    : validation :=
  let errorMsg := errText err in
  let existingError :=
    match previousErrors !! code with
    | Some e => Some e
    | None => mapGet eqs (errorUnits st) code
    end in
  let attempts := (numOr (option_map attempts existingError) 0 + 1)%Z in
  if includes errorMsg (lit "404") || includes errorMsg (lit "not found") then
    {| validUnits := validUnits st;
       invalidUnits := invalidUnits st ++ [(code, lit "404 - Unit not found")];
       errorUnits := errorUnits st;
       fetcher := fetcher st; trace := trace st |}
  else
    {| validUnits := validUnits st;
       invalidUnits := invalidUnits st;
       errorUnits :=
         mapSet eqs (errorUnits st) code
           {| ue_code := code; error := errorMsg; AutoSync.attempts := attempts;
              lastAttempt := isoTime E (trace st) |};
       fetcher := fetcher st; trace := trace st |}.

(** The body of the [batch.map] callback for one code. *)
Definition validateOne (st : validation) (code : list N) : validation :=
  let url := unitUrl code in
  let '(r, cf, tr) := cachedGet E (fetcher st) url (trace st) in
  match r with
  | Return html =>
      if includes html (lit "Unit of competency")
         || includes html (lit "Performance Criteria")
         || includes html (lit "Performance evidence") then
        {| validUnits := validUnits st ++ [code];
           invalidUnits := invalidUnits st;
           errorUnits := errorUnits st;
           fetcher := setCache cf url html; trace := tr |}
      else if includes html (lit "404") || includes html (lit "not found") then
        {| validUnits := validUnits st;
           invalidUnits := invalidUnits st ++ [(code, lit "Unit does not exist (404)")];
           errorUnits := errorUnits st;
           fetcher := cf; trace := tr |}
      else
        {| validUnits := validUnits st;
           invalidUnits := invalidUnits st ++ [(code, lit "No unit content detected")];
           errorUnits := errorUnits st;
           fetcher := cf; trace := tr |}
  | Throw err =>
      categorizeError
        {| validUnits := validUnits st; invalidUnits := invalidUnits st;
           errorUnits := errorUnits st; fetcher := cf; trace := tr |}
        code err
  end.

Definition sleepBetweenBatches (st : validation) : validation :=
  {| validUnits := validUnits st; invalidUnits := invalidUnits st;
     errorUnits := errorUnits st; fetcher := fetcher st;
     trace := trace st ++ [ESleep 500] |}.

(** The batches of five, one batch after the other and the codes of a
    batch in their order; [fuel] bounds the number of batches. *)
Fixpoint validateBatches (fuel : nat) (queue : list (list N)) (st : validation)
    : validation :=
  match fuel with
  | O => st
  | S fuel' =>
      match queue with
      | [] => st
      | _ =>
          let st := fold_left validateOne (firstn 5 queue) st in
          let rest := skipn 5 queue in
          let st := match rest with [] => st | _ => sleepBetweenBatches st end in
          validateBatches fuel' rest st
      end
  end.

Definition validateAll (queue : list (list N)) (cf : CachedFetcher) : validation :=
  validateBatches (List.length queue) queue
    {| validUnits := []; invalidUnits := []; errorUnits := [];
       fetcher := cf; trace := [] |}.

End Run.

(** *** One run of [syncUnits] up to the end of the crawl (the export of
    the spreadsheet that follows is not part of the model). *)

Record outcome := {
  result : SyncResult;
  files : disk;
  log : list event;
  queue : list (list N)
}.

Definition syncFetcherOptions : FetcherOptions :=
  {| opt_minDelayMs := Some 1000%Z; opt_headless := Some true;
     opt_timeout := Some 30000%Z; opt_maxRetries := None; opt_backoffMs := None |}.

Definition syncUnits (E : env) (load : list N -> page)
    (stringify pretty : Uoc -> list N)
    (parsedCode : list N -> option (option (list N)))
    (config : SyncConfig) (input output : option workbook) (d : disk)
    : thrown outcome :=
  let maxRetries := numOr (cfg_maxRetries config) 3 in
  match readUnitCodesFromExcel (inputExcel config) input (inputColumn config) with
  | Throw e => Throw e
  | Return requestedCodes =>
      let existingUnits := getExistingUnits output in
      let previousErrors := loadPreviousErrors d (isoTime E []) in
      let p := planUnits existingUnits previousErrors maxRetries requestedCodes in
      let all := allUnitsToProcess p in
      match all with
      | [] =>
          Return
            {| result := {| success := true;
                            validCount := Z.of_nat (List.length existingUnits);
                            invalidCount := 0; errorCount := 0; retryCount := 0 |};
               files := d; log := []; queue := all |}
      | _ =>
          let v := validateAll E previousErrors all
                     (newCachedFetcher syncFetcherOptions) in
          let d := saveErrorLog d (isoTime E (trace v)) (invalidUnits v)
                     (mapValues (errorUnits v))
                     (Z.of_nat (List.length all))
                     (Z.of_nat (List.length (validUnits v))) in
          let res validCount :=
            {| success := (List.length (errorUnits v) =? 0)%nat;
               validCount := validCount;
               invalidCount := Z.of_nat (List.length (invalidUnits v));
               errorCount := Z.of_nat (List.length (errorUnits v));
               retryCount := Z.of_nat (List.length (unitsToRetry p)) |} in
          match validUnits v with
          | [] =>
              let '(_, tr) := cachedClose (fetcher v) (trace v) in
              Return {| result := res 0%Z; files := d; log := tr; queue := all |}
          | _ =>
              let urls := List.map unitUrl (validUnits v) in
              let c := crawlUocUrls E load stringify pretty parsedCode
                         (fetcher v) newExportService d (trace v) urls in
              Return {| result := res (Z.of_nat (List.length (validUnits v)));
                        files := c_disk c; log := c_trace c; queue := all |}
          end
      end
  end.

End AutoSync.

(** ** The scenarios of the specification *)

Module Scenarios.
Import Js Model FetchEngine DocumentExtractor OutcomeStore IdentifierExtractor
       AutoSync.

Definition stamp : list N := lit "2025-11-07T10:30:00.000Z".

(** An environment in which every page attempt has the same outcome. *)
Definition always (o : pageOutcome) : env :=
  {| now := fun tr => (1000 * Z.of_nat (List.length tr))%Z;
     isoTime := fun _ => stamp;
     render := fun _ => o;
     jitter := fun _ => 0%Z |}.

Definition notFoundPage : list N :=
  lit "<html><body><h1>404</h1><p>Page not found</p></body></html>".

Definition notFoundError : jsError :=
  newError (lit "FetchFailed:UNKNOWN:net::ERR_ABORTED 404 page not found").

(** The state of the validation before its first code. *)
Definition firstState : validation :=
  {| validUnits := []; invalidUnits := []; errorUnits := [];
     fetcher := newCachedFetcher syncFetcherOptions; trace := [] |}.

Definition timeoutError : jsError :=
  {| name := lit "TimeoutError";
     message := lit "Navigation timeout of 30000 ms exceeded" |}.



(** A serialisation that keeps the code and the title of a record on
    one line, "{code|title}" with the code units of both moved out of
    the way of the three marks. *)
Definition codeLine (u : Uoc) : list N :=
  123 :: List.map (fun c => c + 256) (code u)
      ++ 124 :: List.map (fun c => c + 256) (title u) ++ [125].

Fixpoint shifted (l : list N) : list N :=
  match l with
  | c :: l' => if 256 <=? c then (c - 256) :: shifted l' else []
  | [] => []
  end.

Definition codeOfLine (line : list N) : option (option (list N)) :=
  match line with
  | 123 :: l => Some (Some (shifted l))
  | _ => None
  end.

(** A record with a code and a title and nothing else. *)
Definition recordOf (c t : string) : Uoc :=
  {| Model.url := unitUrl (lit c); Model.code := lit c; Model.title := lit t;
     status := None; release := None; application := None; unitSector := None;
     licensingOrRegulatoryInfo := None; prerequisites := None; elements := None;
     foundationSkills := None; assessmentConditions := None;
     performanceEvidence := None; knowledgeEvidence := None; description := None;
     Model.supersededBy := None; Model.supersedes := None; sections := None;
     lastFetchedAt := stamp |}.

Definition oneColumn (codes : list string) : workbook :=
  [ {| sheetName := lit "Sheet1";
       rows := List.map (fun c => [(lit "Unit", CString (lit c))]) codes |} ].

(** The configuration of [main]. *)
Definition config : SyncConfig :=
  {| inputExcel := lit "Units.xlsx"; inputColumn := [];
     outputExcel := lit "UnitsData.xlsx"; dataDir := lit "data";
     cfg_maxRetries := Some 3%Z; retryDelay := Some 5000%Z;
     autoRetry := Some true |}.

Definition run (E : env) (input : workbook) (d : disk) : thrown outcome :=
  syncUnits E (fun _ => emptyPage) codeLine codeLine codeOfLine config
    (Some input) None d.

(** The files a run leaves, or the files it found when it threw. *)
Definition filesAfter (d : disk) (r : thrown outcome) : disk :=
  match r with Return o => files o | Throw _ => d end.

Definition queueOf (r : thrown outcome) : list (list N) :=
  match r with Return o => queue o | Throw _ => [] end.

Definition logOf (r : thrown outcome) : list event :=
  match r with Return o => log o | Throw _ => [] end.

(** A document with two links under "Superseded by" and one under
    "Supersedes". *)
Definition detailLink (code context : string) : anchor :=
  {| a_href := Some (lit "/training/details/" ++ lit code ++ lit "/unitdetails");
     a_text := lit code;
     a_parentText := lit context |}.

(** A document with a first-level and a second-level heading only. *)
Definition headings (h1 h2 : string) : page :=
  {| heroLength := 0; heroStrongText := []; heroText := [];
     h1Text := lit h1; h2Text := lit h2; detailLinks := [];
     others := noOtherFields |}.

Definition twoSuccessors : page :=
  {| heroLength := 0; heroStrongText := []; heroText := [];
     h1Text := lit "Unit of Competency: MARB027"; h2Text := [];
     detailLinks :=
       [ detailLink "MARB045" "Superseded by MARB045 and MARB046";
         detailLink "MARB046" "Superseded by MARB045 and MARB046";
         detailLink "MARB012" "Supersedes MARB012" ];
     others := noOtherFields |}.

(** A planner state with one record present, one identifier pending
    after one attempt and one exhausted. *)
Definition someExisting : list (cell * cell) :=
  [(CString (lit "MARB027"), CString (lit "Release 1"))].

Definition pendingAfter (code : string) (n : Z) : UnitError :=
  {| ue_code := lit code; error := lit "Network timeout"; attempts := n;
     lastAttempt := stamp |}.

Definition somePending : gmap (list N) UnitError :=
  <[lit "TIMEOUT001" := pendingAfter "TIMEOUT001" 1]>
    (<[lit "TIMEOUT002" := pendingAfter "TIMEOUT002" 3]> ∅).

Definition someRequested : list (list N) :=
  [lit "MARB027"; lit "TIMEOUT001"; lit "TIMEOUT002"; lit "MARA022"].

End Scenarios.

(** ** Retrying a request (utils/requestUtils.ts) *)

Module RequestUtils.
Import Js.

(** What [fn] rejects with: the error and [err.response.status] when it
    has one ([err.code] is only printed). *)
Record requestError := {
  re_error : jsError;
  re_status : option Z
}.

(** [status && status !== 429 && status >= 400 && status < 500] *)
Definition nonRetryable (err : requestError) : bool :=
  match re_status err with
  | Some status =>
      negb (status =? 0)%Z && negb (status =? 429)%Z
      && (400 <=? status)%Z && (status <? 500)%Z
  | None => false
  end.

(** What [withRetries] does to the outside: a call of [fn] in the
    iteration numbered [attempt], and a wait. *)
Inductive revent :=
  | RCall (attempt : Z)
  | RSleep (ms : Z).

Inductive fnOutcome (T : Type) :=
  | Resolved (v : T)
  | Rejected (err : requestError).
Arguments Resolved {T} v.
Arguments Rejected {T} err.

(** The environment: what the call of [fn] just made comes to, and
    [Math.round(Math.random() * 250)], as functions of what has happened
    so far. *)
Record retryEnv (T : Type) := {
  fn : list revent -> fnOutcome T;
  random250 : list revent -> Z
}.
Arguments fn {T} r _.
Arguments random250 {T} r _.

(** The options, whole numbers ([Math.pow(factor, attempt)] is then the
    integer power). *)
Record retryOptions := {
  opt_retries : option Z;
  opt_baseDelayMs : option Z;
  opt_factor : option Z
}.

(** The completion: the value of [fn], or [throw lastErr], where
    [lastErr] is [undefined] when [fn] was never called. *)
Inductive completion (T : Type) :=
  | Returns (v : T)
  | Throws (lastErr : option requestError).
Arguments Returns {T} v.
Arguments Throws {T} lastErr.

(** The [while (attempt <= retries)] loop; [fuel] bounds the iterations
    and [Z.to_nat (retries + 1)] is enough of it. *)
Fixpoint retryLoop {T} (E : retryEnv T) (retries base factor : Z) (fuel : nat)
    (attempt : Z) (lastErr : option requestError) (tr : list revent)
    : completion T * list revent :=
  match fuel with
  | O => (Throws lastErr, tr)
  | S fuel' =>
      if (attempt <=? retries)%Z then
        let tr := tr ++ [RCall attempt] in
        match fn E tr with
        | Resolved v => (Returns v, tr)
        | Rejected err =>
            if nonRetryable err then (Throws (Some err), tr)
            else
              let tr :=
                if (attempt <? retries)%Z
                then tr ++ [RSleep (base * factor ^ attempt + random250 E tr)]
                else tr in
              retryLoop E retries base factor fuel' (attempt + 1) (Some err) tr
        end
      else (Throws lastErr, tr)
  end.

Definition withRetries {T} (E : retryEnv T) (opts : option retryOptions)
    : completion T * list revent :=
  let retries := default 3%Z (opts ≫= opt_retries) in
  let base := default 600%Z (opts ≫= opt_baseDelayMs) in
  let factor := default 2%Z (opts ≫= opt_factor) in
  retryLoop E retries base factor (Z.to_nat (retries + 1)) 0 None [].

Definition calls (tr : list revent) : list Z :=
  omap (fun e => match e with RCall a => Some a | RSleep _ => None end) tr.

Definition sleeps (tr : list revent) : list Z :=
  omap (fun e => match e with RSleep ms => Some ms | RCall _ => None end) tr.

(** Calls numbered from [j], with the waits [ds] between them: a call,
    a wait, a call, ..., a call. *)
Fixpoint ladder (ds : list Z) (j : Z) : list revent :=
  match ds with
  | [] => [RCall j]
  | d :: ds' => RCall j :: RSleep d :: ladder ds' (j + 1)
  end.

(** An environment in which every call is rejected with the same HTTP
    status, or with an error that has none, and the jitter is always
    100 ms. *)
Definition rejecting (status : option Z) : retryEnv unit :=
  {| fn := fun _ => Rejected {| re_error := newError (lit "Request failed");
                                re_status := status |};
     random250 := fun _ => 100%Z |}.

End RequestUtils.

(** ** The status, description and prerequisite fields, and the parser
    of the tests (parsers/uocParser.ts) *)

Module DocumentFields.
Import Js Regex IdentifierExtractor DocumentExtractor.

(** The body of the [.each] callback of [extractStatus] on the text of
    one [.mint-pill] element. *)
Definition statusStep (status : option (list N)) (pillText : list N)
    : option (list N) :=
  let text := toLowerCase (trim pillText) in
  if eqs text (lit "current") || eqs text (lit "superseded")
     || eqs text (lit "deleted")
  then Some (toUpperCase (firstn 1 text) ++ skipn 1 text)
  else status.

(** The three values the status is written with. *)
Definition vocabulary (s : list N) : Prop :=
  s = lit "Current" \/ s = lit "Superseded" \/ s = lit "Deleted".

(** /Release\s*(\d+)/i *)
Definition releasePattern : list item :=
  LitI "Release" ++ [Star isSpace; Open 1; Plus isDigit; Close 1].

(** [extractStatus] on the texts of the [.mint-pill] elements, in
    document order, and the text of the parent of [.release-label]. *)
Definition extractStatus (pills : list (list N)) (releaseText : list N)
    : option (list N) * option (list N) :=
  (fold_left statusStep pills None,
   match exec releasePattern releaseText with
   | Some releaseMatch => Some (lit "Release " ++ groupText 1 releaseMatch)
   | None => None
   end).

(** /^\s*Description:\s*(.+)$/i *)
Definition descriptionPattern : list item :=
  [Bol; Star isSpace] ++ LitI "Description:"
  ++ [Star isSpace; Open 1; Plus isDot; Close 1; Eol].

(** The loop over the paragraphs, left at the first one that matches;
    [paragraphs] are the texts of the [p] elements in document order. *)
Fixpoint extractDescription (paragraphs : list (list N)) : option (list N) :=
  match paragraphs with
  | [] => None
  | p :: rest =>
      match exec descriptionPattern (trim p) with
      | Some m => Some (trim (groupText 1 m))
      | None => extractDescription rest
      end
  end.

(** /\b[A-Z]{2,}\w*\d{2,}\b/g *)
Definition prerequisitePattern : list item :=
  [Wb] ++ codeItems isUpper ++ [Wb].

(** [prerequisitesRaw ? [...new Set(prerequisitesRaw.match(re) ?? [])]
    : undefined] *)
Definition extractPrerequisites (prerequisitesRaw : option (list N))
    : option (list (list N)) :=
  match prerequisitesRaw with
  | Some raw =>
      if truthy raw
      then Some (unique (List.map whole (matchAll prerequisitePattern raw)))
      else None
  | None => None
  end.

(** [parseUoc(document)], the parser of the tests: the document as the
    text contents of its first [h1], its first [h2] and its [p]
    elements, [None] where there is no element or no text content. *)
Record document := {
  doc_h1 : option (list N);
  doc_h2 : option (list N);
  doc_ps : list (option (list N))
}.

Record SimpleUoc := {
  s_code : list N;
  s_title : option (list N);
  s_description : option (list N)
}.

Definition isAlnumDash (c : N) : bool :=
  isUpper c || isLower c || isDigit c || (c =? 45).

(** /Unit of Competency:\s*([A-Za-z0-9-]+)/i *)
Definition simpleCodePattern : list item :=
  LitI "Unit of Competency:" ++ [Star isSpace; Open 1; Plus (icase isAlnumDash); Close 1].

(** [el?.textContent?.trim() ?? ""] *)
Definition textOf (t : option (list N)) : list N :=
  match t with Some s => trim s | None => [] end.

Definition parseUoc (d : document) : SimpleUoc :=
  let h1Text := textOf (doc_h1 d) in
  let codeMatch :=
    match exec simpleCodePattern h1Text with
    | Some m => Some m
    | None => exec linkCodePattern h1Text
    end in
  let h2Text := textOf (doc_h2 d) in
  let title :=
    if truthy h2Text then
      match exec titlePattern h2Text with
      | Some titleMatch => Some (trim (groupText 1 titleMatch))
      | None => Some h2Text
      end
    else None in
  {| s_code := match codeMatch with Some m => groupText 1 m | None => [] end;
     s_title := title;
     s_description := extractDescription (List.map (default []) (doc_ps d)) |}.

End DocumentFields.

(** ** Reading a trace and a message *)

Module Reading.
Import Js FetchEngine.

Definition isLaunch (e : event) : bool :=
  match e with ELaunch => true | _ => false end.

Definition isClose (e : event) : bool :=
  match e with ECloseBrowser => true | _ => false end.

(** How often the browser is launched and closed in a trace. *)
Definition launches (tr : list event) : nat :=
  List.length (List.filter isLaunch tr).

Definition closes (tr : list event) : nat :=
  List.length (List.filter isClose tr).

(** The URLs of the page attempts of a trace. *)
Definition attemptUrls (tr : list event) : list (list N) :=
  omap (fun e => match e with EAttempt url _ => Some url | _ => None end) tr.

(** Some non-empty end of [pre] is a beginning of [pat] and shorter
    than it: an occurrence of [pat] could begin in [pre] and end in what
    follows it. *)
Fixpoint overlaps (pre pat : list N) : bool :=
  match pre with
  | [] => false
  | _ :: pre' =>
      (startsWith pre pat && (List.length pre <? List.length pat)%nat)
      || overlaps pre' pat
  end.

End Reading.

(** ** A clock that sleeping advances *)

Module Clock.
Import Js FetchEngine Scenarios.

(** The time a trace takes when a wait takes as long as it was asked to
    and every other event takes one millisecond. *)
Fixpoint elapsed (tr : list event) : Z :=
  match tr with
  | [] => 0
  | ESleep ms :: tr' => Z.max 0 ms + elapsed tr'
  | _ :: tr' => 1 + elapsed tr'
  end.

(** An environment with that clock, started [t0] milliseconds after the
    epoch, in which every page attempt has the same outcome. *)
Definition ticking (t0 : Z) (o : pageOutcome) : env :=
  {| now := fun tr => (t0 + elapsed tr)%Z;
     isoTime := fun _ => stamp;
     render := fun _ => o;
     jitter := fun _ => 0%Z |}.

End Clock.

(** ** Writes of the outcome store that are in flight together
    (ExportService.writeJsonl called by the workers of crawler.ts) *)

Module ConcurrentStore.
Import Js Model OutcomeStore.

(** Where one call of [writeJsonl] stands: at its call, or at one of
    its [await]s with the operation it waits for still to be done.
    [removeUnit] has read the file when it filters the lines, so the
    lines it will write are part of the state. *)
Inductive stage :=
  | Called                                       (* existingCodes.has not yet run *)
  | AwaitRead                                    (* removeUnit: fs.readFile *)
  | AwaitRewrite (updatedLines : list (list N))  (* removeUnit: fs.writeFile *)
  | AwaitAppend                                  (* fs.appendFile *)
  | AwaitUnitFile                                (* fs.writeFile of units/<code>.json *)
  | Finished.

Record call := { c_item : Uoc; c_stage : stage }.

(** The service object, the files and the calls in flight. *)
Record store := {
  st_svc : ExportService;
  st_files : disk;
  st_calls : list call
}.

Definition isFinished (c : call) : bool :=
  match c_stage c with Finished => true | _ => false end.

Section Json.

Variable stringify : Uoc -> list N.
Variable pretty : Uoc -> list N.
Variable parsedCode : list N -> option (option (list N)).

(** One call goes on to its next [await]: the operation it waited for
    is done on the files as they are now, and the code that follows it
    runs up to the next [await]. *)
Definition advance (svc : ExportService) (d : disk) (item : Uoc) (st : stage)
    : ExportService * disk * stage :=
  match st with
  | Called =>
      if bool_decide (code item ∈ existingCodes svc)
      then (svc, d, AwaitRead) else (svc, d, AwaitAppend)
  | AwaitRead =>
      match jsonlFile d with
      | Some content =>
          let keep (line : list N) :=
            match parsedCode line with
            | Some (Some c) => negb (eqs c (code item))
            | Some None => true
            | None => true
            end in
          (svc, d, AwaitRewrite (List.filter keep (linesOf content)))
      | None => (svc, d, AwaitAppend)
      end
  | AwaitRewrite updatedLines =>
      (svc, setJsonl d (joinNl updatedLines ++ [10]), AwaitAppend)
  | AwaitAppend =>
      let line := stringify item ++ [10] in
      ({| existingCodes := {[code item]} ∪ existingCodes svc |},
       setJsonl d (default [] (jsonlFile d) ++ line),
       AwaitUnitFile)
  | AwaitUnitFile =>
      (svc,
       {| jsonlFile := jsonlFile d;
          unitFiles := <[code item := pretty item]> (unitFiles d);
          errorLogFile := errorLogFile d |},
       Finished)
  | Finished => (svc, d, Finished)
  end.

(** The call numbered [i] goes on; the others wait. *)
Definition resume (s : store) (i : nat) : store :=
  match st_calls s !! i with
  | Some c =>
      let '(svc, d, st) := advance (st_svc s) (st_files s) (c_item c) (c_stage c) in
      {| st_svc := svc; st_files := d;
         st_calls := <[i := {| c_item := c_item c; c_stage := st |}]> (st_calls s) |}
  | None => s
  end.

(** A schedule names the call that goes on, step after step. *)
Definition interleave (schedule : list nat) (s : store) : store :=
  fold_left resume schedule s.

(** The calls of [items], all made and none yet gone on. *)
Definition inFlight (svc : ExportService) (d : disk) (items : list Uoc) : store :=
  {| st_svc := svc; st_files := d;
     st_calls := List.map (fun item => {| c_item := item; c_stage := Called |}) items |}.

(** The codes of the lines of the corpus, as [JSON.parse] reads them. *)
Definition corpusCodes (d : disk) : list (list N) :=
  omap (fun line => default None (parsedCode line))
       (linesOf (default [] (jsonlFile d))).

End Json.

End ConcurrentStore.

(* ===================================================================== *)
(** * Part II: properties *)
(* ===================================================================== *)

(** ** Strings and patterns *)

Section StringFacts.
Import Js.

Lemma eqs_eq (a b : list N) : eqs a b = true <-> a = b.
Proof.
  revert b; induction a as [|x a IH]; intros [|y b]; simpl; split;
    try congruence; try reflexivity.
  - intros H. apply andb_true_iff in H as [Hx Hab].
    apply N.eqb_eq in Hx. apply IH in Hab. congruence.
  - intros H. injection H as -> ->. rewrite N.eqb_refl. simpl. now apply IH.
Qed.

Lemma eqs_refl (a : list N) : eqs a a = true.
Proof. now apply eqs_eq. Qed.

Lemma eqs_neq (a b : list N) : eqs a b = false <-> a <> b.
Proof.
  split.
  - intros H Heq. apply eqs_eq in Heq. congruence.
  - intros H. destruct (eqs a b) eqn:Hab; [|reflexivity].
    apply eqs_eq in Hab. contradiction.
Qed.

Lemma arrayIncludes_In (arr : list (list N)) (x : list N) :
  arrayIncludes arr x = true <-> In x arr.
Proof.
  unfold arrayIncludes. rewrite existsb_exists. split.
  - intros [y [Hy Hxy]]. apply eqs_eq in Hxy. now subst.
  - intros H. exists x. split; [assumption | apply eqs_refl].
Qed.

Lemma uniqueFrom_In (seen arr : list (list N)) (x : list N) :
  In x (uniqueFrom seen arr) <-> In x arr /\ ~ In x seen.
Proof.
  revert seen; induction arr as [|y arr IH]; intros seen; simpl.
  - tauto.
  - destruct (arrayIncludes seen y) eqn:Hy.
    + apply arrayIncludes_In in Hy. rewrite IH. split.
      * intros [H1 H2]. tauto.
      * intros [[->|H1] H2]; [contradiction | tauto].
    + assert (Hn : ~ In y seen).
      { intros H. apply arrayIncludes_In in H. congruence. }
      simpl. rewrite IH. simpl. split.
      * intros [->|[H1 H2]]; [tauto|]. split; [tauto|]. tauto.
      * intros [[->|H1] H2]; [tauto|].
        destruct (decide (y = x)) as [->|Hne]; [tauto|].
        right. split; [assumption|]. intros [H|H]; [congruence | contradiction].
Qed.

Lemma unique_In (arr : list (list N)) (x : list N) :
  In x (unique arr) <-> In x arr.
Proof. unfold unique. rewrite uniqueFrom_In. simpl. tauto. Qed.

Lemma uniqueFrom_NoDup (seen arr : list (list N)) :
  List.NoDup (uniqueFrom seen arr).
Proof.
  revert seen; induction arr as [|y arr IH]; intros seen; simpl.
  - constructor.
  - destruct (arrayIncludes seen y) eqn:Hy; [apply IH|].
    constructor; [|apply IH].
    rewrite uniqueFrom_In. simpl. tauto.
Qed.

Lemma unique_NoDup (arr : list (list N)) : List.NoDup (unique arr).
Proof. apply uniqueFrom_NoDup. Qed.

End StringFacts.

Section RegexFacts.
Import Js Regex.

(** What a quantified class has taken when the rest of the pattern
    matched. *)
Lemma rep_inv k p s bef lo hi r :
  rep k p s bef lo hi = Some r ->
  exists pre s',
    s = pre ++ s' /\ forallb p pre = true /\ (lo <= List.length pre)%nat /\
    (forall h, hi = Some h -> (List.length pre <= h)%nat) /\
    k (rev pre ++ bef) s' = Some r.
Proof.
  revert bef lo hi; induction s as [|c s IH]; intros bef lo hi H.
  - simpl in H. destruct lo; [|discriminate].
    exists [], []. simpl. repeat split; auto with arith; intros; lia.
  - simpl in H.
    assert (Hstop : match lo with O => k bef (c :: s) | S _ => None end = Some r ->
      exists pre s', c :: s = pre ++ s' /\ forallb p pre = true /\
        (lo <= List.length pre)%nat /\
        (forall h, hi = Some h -> (List.length pre <= h)%nat) /\
        k (rev pre ++ bef) s' = Some r).
    { intros Hs. destruct lo; [|discriminate].
      exists [], (c :: s). simpl. repeat split; auto with arith; intros; lia. }
    destruct (p c && more hi) eqn:Hpc; [|auto].
    destruct (rep k p s (c :: bef) (pred lo) (less hi)) as [r0|] eqn:Hrec; [|auto].
    injection H as ->.
    apply andb_true_iff in Hpc as [Hp Hmore].
    destruct (IH _ _ _ Hrec) as (pre & s' & -> & Hall & Hlo & Hhi & Hk).
    exists (c :: pre), s'. simpl. rewrite Hp, Hall. repeat split; auto.
    + lia.
    + intros h ->. simpl in *. destruct h; [discriminate|].
      specialize (Hhi _ eq_refl). simpl in Hhi. lia.
    + rewrite <- app_assoc. exact Hk.
Qed.

(** A pattern anchored at the start matches at the start only. *)
Lemma execFrom_Bol_later items c bef s :
  execFrom (Bol :: items) (c :: bef) s = None.
Proof.
  revert c bef; induction s as [|x s IH]; intros c bef; simpl; [reflexivity|].
  apply IH.
Qed.

Lemma test_Bol items s :
  test (Bol :: items) s = true ->
  exists r, go items [] s nocaps = Some r.
Proof.
  unfold test, exec. destruct s as [|c s]; simpl.
  - destruct (go items [] [] nocaps) as [r|]; [eauto | discriminate].
  - destruct (go items [] (c :: s) nocaps) as [r|]; [eauto|].
    rewrite execFrom_Bol_later. discriminate.
Qed.

(** [s.match(/\d/g)] has one match per digit. *)
Lemma scan_oneDigit bef s :
  List.length (scan [Cls isDigit] bef s 0) = List.length (List.filter isDigit s).
Proof.
  revert bef; induction s as [|c s IH]; intros bef; simpl; [reflexivity|].
  destruct (isDigit c); simpl.
  - replace (S (List.length bef) - List.length bef)%nat with 1%nat by lia.
    simpl. now rewrite IH.
  - apply IH.
Qed.

End RegexFacts.

(** ** IdentifierExtractor *)

Section IdentifierFacts.
Import Js Regex IdentifierExtractor.

Ltac chars :=
  unfold icase, canon, isAlnum, isLetter, isUpperOrDigit, isUpper, isLower, isDigit;
  repeat match goal with
  | |- context [(?a <=? ?b)] => destruct (N.leb_spec a b); simpl
  end; intros; simpl in *; try reflexivity; try discriminate; try lia.

Lemma icase_isUpper_letter c : icase isUpper c = true -> isLetter c = true.
Proof. chars. Qed.

Lemma icase_isUpperOrDigit_alnum c : icase isUpperOrDigit c = true -> isAlnum c = true.
Proof. chars. Qed.

Lemma isDigit_alnum c : isDigit c = true -> isAlnum c = true.
Proof. chars. Qed.

Lemma isLetter_alnum c : isLetter c = true -> isAlnum c = true.
Proof. unfold isAlnum. now intros ->. Qed.

Lemma isUpper_not_digit c : isUpper c = true -> isDigit c = false.
Proof. chars. Qed.

Lemma isLetter_not_digit c : isLetter c = true -> isDigit c = false.
Proof. chars. Qed.

Lemma forallb_impl (p q : N -> bool) l :
  (forall c, p c = true -> q c = true) -> forallb p l = true -> forallb q l = true.
Proof.
  intros Hpq. induction l as [|c l IH]; simpl; [reflexivity|].
  intros H. apply andb_true_iff in H as [Hc Hl].
  now rewrite (Hpq _ Hc), IH.
Qed.

Lemma filter_none (p q : N -> bool) l :
  (forall c, p c = true -> q c = false) -> forallb p l = true -> List.filter q l = [].
Proof.
  intros Hpq. induction l as [|c l IH]; simpl; [reflexivity|].
  intros H. apply andb_true_iff in H as [Hc Hl].
  now rewrite (Hpq _ Hc), IH.
Qed.

Lemma excluded_is_included code :
  In code excludeList -> arrayIncludes excludeList (toUpperCase code) = true.
Proof.
  unfold excludeList. simpl.
  intros H. repeat (destruct H as [<-|H]; [vm_compute; reflexivity|]).
  contradiction.
Qed.

(** What [isValidUnitCode] accepts is a token of the grammar and is not
    on the denylist. *)
Lemma isValidUnitCode_sound code :
  isValidUnitCode code = true -> tokenGrammar code /\ ~ In code excludeList.
Proof.
  unfold isValidUnitCode.
  destruct ((List.length code <? 6)%nat || (12 <? List.length code)%nat) eqn:Hlen;
    [discriminate|].
  destruct (test leadingLetters code) eqn:Hlead; [|discriminate]. cbn [negb]. cbv zeta.
  destruct (List.length (matchAll oneDigit code) <? 3)%nat eqn:Hdig; [discriminate|].
  destruct (arrayIncludes excludeList (toUpperCase code)) eqn:Hexcl; [discriminate|].
  intros Hvalid. split.
  2:{ intros Hin. apply excluded_is_included in Hin. congruence. }
  apply orb_false_iff in Hlen as [Hlo Hhi].
  apply Nat.ltb_ge in Hlo, Hhi, Hdig.
  unfold matchAll, oneDigit in Hdig. rewrite scan_oneDigit in Hdig.
  (* the two leading letters *)
  apply test_Bol in Hlead as [r0 Hlead]. simpl in Hlead.
  apply rep_inv in Hlead as (q & s0 & Hq & Hqup & Hqlen & _ & _).
  destruct q as [|a [|b q]]; simpl in Hqlen; try lia.
  simpl in Hqup. apply andb_true_iff in Hqup as [Ha Hqup].
  apply andb_true_iff in Hqup as [Hb _].
  (* the shape the last pattern gives *)
  apply test_Bol in Hvalid as [r Hvalid]. unfold Star, Plus, Opt in Hvalid.
  simpl in Hvalid.
  apply rep_inv in Hvalid as (p1 & s1 & Hp1 & Hp1all & Hp1len & _ & Hvalid).
  apply rep_inv in Hvalid as (p2 & s2 & Hp2 & Hp2all & _ & _ & Hvalid).
  apply rep_inv in Hvalid as (p3 & s3 & Hp3 & Hp3all & Hp3len & _ & Hvalid).
  apply rep_inv in Hvalid as (p4 & s4 & Hp4 & Hp4all & _ & Hp4len & Hvalid).
  destruct s4; [|discriminate]. clear Hvalid.
  specialize (Hp4len _ eq_refl).
  subst s3 s2 s1. rewrite app_nil_r in Hp1.
  destruct p1 as [|a' [|b' p1]]; simpl in Hp1len; try lia.
  rewrite Hp1 in Hq. simpl in Hq. injection Hq as -> -> _.
  simpl in Hp1all. apply andb_true_iff in Hp1all as [_ Hp1all].
  apply andb_true_iff in Hp1all as [_ Hp1all].
  destruct (exists_last (l := p3)) as (p3' & d & Hp3d).
  { intros ->. simpl in Hp3len. lia. }
  assert (Hd : isDigit d = true).
  { rewrite Hp3d, forallb_app in Hp3all. apply andb_true_iff in Hp3all as [_ Hd].
    simpl in Hd. now rewrite andb_true_r in Hd. }
  assert (Hfinal : forallb isLetter p4 = true).
  { eapply forallb_impl; [apply icase_isUpper_letter | exact Hp4all]. }
  exists [a; b], (p1 ++ p2 ++ p3), p4. repeat split.
  - rewrite Hp1. simpl. now rewrite <- !app_assoc.
  - simpl. lia.
  - simpl. lia.
  - simpl. now rewrite Ha, Hb.
  - rewrite !forallb_app.
    apply andb_true_iff. split.
    + eapply forallb_impl; [|exact Hp1all].
      intros c Hc. apply isLetter_alnum. now apply icase_isUpper_letter.
    + apply andb_true_iff. split.
      * eapply forallb_impl; [apply icase_isUpperOrDigit_alnum | exact Hp2all].
      * eapply forallb_impl; [apply isDigit_alnum | exact Hp3all].
  - rewrite Hp1 in Hdig. simpl in Hdig.
    rewrite (isUpper_not_digit _ Ha), (isUpper_not_digit _ Hb) in Hdig.
    rewrite !List.filter_app in Hdig.
    rewrite (filter_none isLetter isDigit p4 isLetter_not_digit Hfinal) in Hdig.
    rewrite !List.filter_app. rewrite !List.length_app in *. simpl in Hdig. lia.
  - exists (p1 ++ p2 ++ p3'), d. split; [|exact Hd].
    rewrite Hp3d. now rewrite <- !app_assoc.
  - destruct p4 as [|c [|c' p4]]; simpl in Hp4len; try lia.
    + now left.
    + right. exists c. split; [reflexivity|].
      simpl in Hfinal. now rewrite andb_true_r in Hfinal.
  - exact Hlo.
  - exact Hhi.
Qed.

Lemma codesOfCell_valid cellValue code :
  In code (codesOfCell cellValue) -> isValidUnitCode code = true.
Proof.
  destruct cellValue as [s| | |]; simpl; try contradiction.
  destruct (truthy s); [|contradiction].
  intros H. now apply filter_In in H as [_ H].
Qed.

Lemma readUnitCodes_valid (wb : workbook) columnName code :
  In code (unique (flat_map (codesOfSheet columnName) wb)) ->
  isValidUnitCode code = true.
Proof.
  rewrite unique_In, in_flat_map. intros (sh & _ & H).
  unfold codesOfSheet in H. rewrite in_flat_map in H. destruct H as (r & _ & H).
  rewrite in_flat_map in H. destruct H as (c & _ & H).
  now apply codesOfCell_valid in H.
Qed.

(** C5. Every identifier the extractor returns from tabular input is a
    token of the grammar (2 to 4 leading upper-case letters, an
    alphanumeric body with at least 3 digits, 6 to 12 code units,
    optionally one closing letter) and is not on the denylist; on the
    sheet of scenario A, with MARA022, SCUBA and HLTAID011, it returns
    MARA022 and HLTAID011 and nothing else. *)
Theorem extractor_returns_grammar_tokens :
  (forall filepath file columnName,
     match readUnitCodesFromExcel filepath file columnName with
     | Return codes =>
         Forall (fun code => tokenGrammar code /\ ~ In code excludeList) codes
     | Throw _ => file = None
     end) /\
  readUnitCodesFromExcel (lit "Units.xlsx") (Some scenarioA) []
    = Return [lit "MARA022"; lit "HLTAID011"].
Proof.
  split.
  - intros filepath [wb|] columnName; unfold readUnitCodesFromExcel; [|reflexivity].
    apply List.Forall_forall. intros code Hin.
    apply isValidUnitCode_sound.
    exact (readUnitCodes_valid wb columnName code Hin).
  - vm_compute. reflexivity.
Qed.

End IdentifierFacts.

(** ** SyncPlanner *)

Section PlannerFacts.
Import Js IdentifierExtractor OutcomeStore AutoSync.

Variable existingUnits : list (cell * cell).
Variable previousErrors : gmap (list N) UnitError.
Variable maxRetries : Z.

Local Abbreviation classOf := (classify existingUnits previousErrors maxRetries).
Local Abbreviation step := (planStep existingUnits previousErrors maxRetries).
Local Abbreviation only := (only existingUnits previousErrors maxRetries).

Lemma planStep_class p code :
  step p code =
    {| unitsToScrape := unitsToScrape p ++ only new [code];
       unitsToRetry := unitsToRetry p ++ only retry [code];
       skipped := skipped p ++ only skip [code] |}.
Proof.
  unfold planStep, AutoSync.only, classify. simpl.
  destruct (mapHas cellEqb existingUnits (CString code)); simpl.
  - now rewrite !app_nil_r.
  - destruct (previousErrors !! code) as [e|]; simpl.
    + destruct (attempts e <? maxRetries)%Z; simpl; now rewrite !app_nil_r.
    + now rewrite !app_nil_r.
Qed.

Lemma plan_fold codes p :
  fold_left step codes p =
    {| unitsToScrape := unitsToScrape p ++ only new codes;
       unitsToRetry := unitsToRetry p ++ only retry codes;
       skipped := skipped p ++ only skip codes |}.
Proof.
  revert p; induction codes as [|c codes IH]; intros p.
  - simpl. destruct p. simpl. now rewrite !app_nil_r.
  - change (fold_left step (c :: codes) p) with (fold_left step codes (step p c)).
    rewrite IH, planStep_class. simpl.
    unfold AutoSync.only. simpl.
    destruct (classOf c); simpl; now rewrite <- ?app_assoc, ?app_nil_r.
Qed.

(** The three lists of the planner are the requested codes of each
    class, in the order they were requested. *)
Lemma planUnits_class requestedCodes :
  planUnits existingUnits previousErrors maxRetries requestedCodes =
    {| unitsToScrape := only new requestedCodes;
       unitsToRetry := only retry requestedCodes;
       skipped := only skip requestedCodes |}.
Proof. unfold planUnits. now rewrite plan_fold. Qed.

Lemma only_In k codes code :
  In code (only k codes) <-> In code codes /\ classOf code = k.
Proof.
  unfold AutoSync.only. rewrite filter_In.
  destruct k, (classOf code); simpl; intuition congruence.
Qed.

End PlannerFacts.

Section PlannerClaims.
Import Js IdentifierExtractor OutcomeStore AutoSync FetchEngine Scenarios.

(** C3. The classification of a requested identifier is a function of
    the requested codes, the persisted state and maxRetries (3 when the
    configuration gives none): present is 'skip', pending with
    attempts < maxRetries is 'retry', pending with attempts >= maxRetries
    is 'skip', anything else is 'new'; and the three lists are pairwise
    disjoint. *)
Theorem planner_classification
    (existingUnits : list (cell * cell)) (previousErrors : gmap (list N) UnitError)
    (configured : option Z) (requestedCodes : list (list N)) (code : list N) :
  let maxRetries := numOr configured 3 in
  let p := planUnits existingUnits previousErrors maxRetries requestedCodes in
  In code requestedCodes ->
  (mapHas cellEqb existingUnits (CString code) = true ->
     In code (skipped p) /\ ~ In code (unitsToRetry p) /\ ~ In code (unitsToScrape p)) /\
  (mapHas cellEqb existingUnits (CString code) = false ->
     forall errInfo, previousErrors !! code = Some errInfo ->
       ((attempts errInfo < maxRetries)%Z ->
          In code (unitsToRetry p) /\ ~ In code (skipped p) /\ ~ In code (unitsToScrape p)) /\
       ((attempts errInfo >= maxRetries)%Z ->
          In code (skipped p) /\ ~ In code (unitsToRetry p) /\ ~ In code (unitsToScrape p))) /\
  (mapHas cellEqb existingUnits (CString code) = false ->
     previousErrors !! code = None ->
     In code (unitsToScrape p) /\ ~ In code (skipped p) /\ ~ In code (unitsToRetry p)) /\
  (forall c, ~ (In c (unitsToRetry p) /\ In c (unitsToScrape p))) /\
  (forall c, ~ (In c (skipped p) /\ In c (unitsToRetry p))) /\
  (forall c, ~ (In c (skipped p) /\ In c (unitsToScrape p))) /\
  numOr None 3 = 3%Z.
Proof.
  intros maxRetries p Hreq. subst p. rewrite planUnits_class.
  cbn [unitsToScrape unitsToRetry skipped].
  assert (Hin : forall k,
            In code (only existingUnits previousErrors maxRetries k requestedCodes)
            <-> classify existingUnits previousErrors maxRetries code = k).
  { intros k. rewrite only_In. tauto. }
  assert (Hdisj : forall k1 k2 c, k1 <> k2 ->
            ~ (In c (only existingUnits previousErrors maxRetries k1 requestedCodes) /\
               In c (only existingUnits previousErrors maxRetries k2 requestedCodes))).
  { intros k1 k2 c Hne. rewrite !only_In. intros [[_ H1] [_ H2]]. congruence. }
  assert (Hsolve : forall k k1 k2,
            classify existingUnits previousErrors maxRetries code = k ->
            k <> k1 -> k <> k2 ->
            In code (only existingUnits previousErrors maxRetries k requestedCodes) /\
            ~ In code (only existingUnits previousErrors maxRetries k1 requestedCodes) /\
            ~ In code (only existingUnits previousErrors maxRetries k2 requestedCodes)).
  { intros k k1 k2 Hk H1 H2. rewrite !Hin. repeat split; congruence. }
  split; [|split; [|split; [|split; [|split; [|split]]]]].
  - intros Hpresent.
    assert (Hc : classify existingUnits previousErrors maxRetries code = skip).
    { unfold classify. now rewrite Hpresent. }
    apply (Hsolve _ _ _ Hc); discriminate.
  - intros Habsent errInfo Hpending. split; intros Hcmp.
    + assert (Hc : classify existingUnits previousErrors maxRetries code = retry).
      { unfold classify. rewrite Habsent, Hpending.
        apply Z.ltb_lt in Hcmp. now rewrite Hcmp. }
      apply (Hsolve _ _ _ Hc); discriminate.
    + assert (Hc : classify existingUnits previousErrors maxRetries code = skip).
      { unfold classify. rewrite Habsent, Hpending.
        apply Z.ge_le, Z.ltb_ge in Hcmp. now rewrite Hcmp. }
      apply (Hsolve _ _ _ Hc); discriminate.
  - intros Habsent Hnone.
    assert (Hc : classify existingUnits previousErrors maxRetries code = new).
    { unfold classify. now rewrite Habsent, Hnone. }
    apply (Hsolve _ _ _ Hc); discriminate.
  - intros c. now apply Hdisj.
  - intros c. now apply Hdisj.
  - intros c. now apply Hdisj.
  - reflexivity.
Qed.

Lemma planner_classification_witness :
  In (lit "TIMEOUT001") someRequested /\
  In (lit "TIMEOUT001")
     (unitsToRetry (planUnits someExisting somePending 3 someRequested)).
Proof.
  assert (Hin : In (lit "TIMEOUT001") someRequested) by (vm_compute; tauto).
  split; [exact Hin|].
  pose proof (planner_classification someExisting somePending None someRequested
                (lit "TIMEOUT001") Hin) as (_ & Hpending & _).
  refine (proj1 (proj1 (Hpending eq_refl (pendingAfter "TIMEOUT001" 1) _) _)).
  - unfold somePending. apply lookup_insert_eq.
  - simpl. lia.
Defined.

(** C4, as the specification states it, fails: the queue is not the
    'retry' list followed by the 'new' list. *)
Lemma retry_first_counterexample :
  ~ (forall existingUnits previousErrors maxRetries requestedCodes,
       let p := planUnits existingUnits previousErrors maxRetries requestedCodes in
       allUnitsToProcess p = unitsToRetry p ++ unitsToScrape p).
Proof.
  intros H. specialize (H someExisting somePending 3%Z someRequested).
  vm_compute in H. discriminate.
Qed.

(** C4, amended. The work queue is the 'new' list followed by the
    'retry' list: every newly discovered identifier precedes every
    retry-eligible identifier in the queue. *)
Theorem queue_is_new_then_retry
    (existingUnits : list (cell * cell)) (previousErrors : gmap (list N) UnitError)
    (maxRetries : Z) (requestedCodes : list (list N)) :
  let p := planUnits existingUnits previousErrors maxRetries requestedCodes in
  allUnitsToProcess p = unitsToScrape p ++ unitsToRetry p /\
  forall (i j : nat) (c c' : list N),
    allUnitsToProcess p !! i = Some c -> In c (unitsToScrape p) ->
    allUnitsToProcess p !! j = Some c' -> In c' (unitsToRetry p) ->
    (i < j)%nat.
Proof.
  intros p. split; [reflexivity|].
  intros i j c c' Hi Hc Hj Hc'.
  assert (Hdisj : forall x, In x (unitsToScrape p) -> In x (unitsToRetry p) -> False).
  { subst p. rewrite planUnits_class. simpl. intros x. rewrite !only_In.
    intros [_ H1] [_ H2]. congruence. }
  unfold allUnitsToProcess in Hi, Hj.
  destruct (Nat.lt_ge_cases i (List.length (unitsToScrape p))) as [Hlt|Hge].
  - destruct (Nat.lt_ge_cases j (List.length (unitsToScrape p))) as [Hlt'|Hge']; [|lia].
    rewrite lookup_app_l in Hj by exact Hlt'.
    apply list_elem_of_lookup_2, list_elem_of_In in Hj.
    destruct (Hdisj _ Hj Hc').
  - rewrite lookup_app_r in Hi by exact Hge.
    apply list_elem_of_lookup_2, list_elem_of_In in Hi.
    destruct (Hdisj _ Hc Hi).
Qed.

Lemma queue_is_new_then_retry_witness :
  let p := planUnits someExisting somePending 3 someRequested in
  (allUnitsToProcess p !! 0%nat = Some (lit "MARA022") /\
   In (lit "MARA022") (unitsToScrape p) /\
   allUnitsToProcess p !! 1%nat = Some (lit "TIMEOUT001") /\
   In (lit "TIMEOUT001") (unitsToRetry p)) /\
  (0 < 1)%nat.
Proof.
  intros p.
  assert (H0 : allUnitsToProcess p !! 0%nat = Some (lit "MARA022")) by (vm_compute; reflexivity).
  assert (H1 : In (lit "MARA022") (unitsToScrape p)) by (vm_compute; tauto).
  assert (H2 : allUnitsToProcess p !! 1%nat = Some (lit "TIMEOUT001")) by (vm_compute; reflexivity).
  assert (H3 : In (lit "TIMEOUT001") (unitsToRetry p)) by (vm_compute; tauto).
  split; [tauto|].
  exact (proj2 (queue_is_new_then_retry someExisting somePending 3 someRequested)
           0%nat 1%nat _ _ H0 H1 H2 H3).
Defined.

(** C1 fails on the code: an identifier recorded as invalid by one run
    is classified 'new' by the next and fetched again.  The first run
    finds that INVALID001 does not exist and writes it to the
    [invalidUnits] of the log; the second run, on the same input and the
    files the first left, puts it in its queue and requests its page. *)
Theorem invalid_identifier_is_fetched_again :
  let E := always (Rendered notFoundPage) in
  let input := oneColumn ["INVALID001"%string] in
  let first := run E input noFiles in
  let second := run E input (filesAfter noFiles first) in
  (log_invalidUnits <$> errorLogFile (filesAfter noFiles first))
    = Some (Some [ {| inv_code := lit "INVALID001";
                      inv_reason := lit "Unit does not exist (404)";
                      inv_permanent := true |} ]) /\
  queueOf second = [lit "INVALID001"] /\
  downloads (unitUrl (lit "INVALID001")) (logOf second) = 1%nat.
Proof. vm_compute. repeat split. Qed.

(** The planner never reads the [invalidUnits] of the log: whatever
    they are, the errors it loads are the same. *)
Lemma invalid_units_are_not_loaded d stamp lg inv :
  errorLogFile d = Some lg ->
  loadPreviousErrors
    (setErrorLog d {| log_timestamp := log_timestamp lg;
                      log_summary := log_summary lg;
                      log_invalidUnits := inv;
                      log_errorUnits := log_errorUnits lg;
                      log_errors := log_errors lg |}) stamp
  = loadPreviousErrors d stamp.
Proof. intros H. unfold loadPreviousErrors. simpl. now rewrite H. Qed.

End PlannerClaims.

(** ** FetchEngine *)

Section FetchFacts.
Import Js FetchEngine.

Variable E : env.
Variable f : Fetcher.
Variable url : list N.


(** The loop from attempt [j + 1] on, with the fuel [get] gives it. *)
Lemma attemptLoop_trace fuel j lastErr tr :
  (fuel + j = Z.to_nat (maxRetries f))%nat ->
  exists m,
    (m <= fuel)%nat /\ (0 < fuel -> 0 < m)%nat /\
    (attemptLoop E f url fuel (Z.of_nat j) lastErr tr).2
      = tr ++ attemptsFrom url (backoffMs f) j m.
Proof.
  revert j lastErr tr; induction fuel as [|fuel IH]; intros j lastErr tr Hn.
  - exists 0%nat. simpl. rewrite app_nil_r. repeat split; lia.
  - cbn [attemptLoop].
    assert (Hlt : (Z.of_nat j <? maxRetries f)%Z = true).
    { apply Z.ltb_lt. lia. }
    rewrite Hlt.
    replace (Z.of_nat j + 1)%Z with (Z.of_nat (S j)) by lia.
    destruct (render E (tr ++ [EAttempt url (Z.of_nat (S j))])) as [html|err|err].
    + exists 1%nat. simpl. repeat split; lia.
    + destruct fuel as [|fuel].
      * exists 1%nat.
        assert (Hge : (Z.of_nat (S j) <? maxRetries f)%Z = false).
        { apply Z.ltb_ge. lia. }
        rewrite Hge. simpl. repeat split; lia.
      * assert (Hlt' : (Z.of_nat (S j) <? maxRetries f)%Z = true).
        { apply Z.ltb_lt. lia. }
        rewrite Hlt'.
        destruct (IH (S j) (Some err)
                    ((tr ++ [EAttempt url (Z.of_nat (S j))])
                       ++ [ESleep (backoffMs f * Z.of_nat (S j))]))
          as (m & Hm & Hpos & Heq); [lia|].
        exists (S m). rewrite Heq.
        destruct m as [|m]; [lia|].
        cbn [attemptsFrom]. rewrite <- !app_assoc. simpl.
        repeat split; lia.
    + exists 1%nat. simpl. repeat split; lia.
Qed.

(** When every attempt fails, the loop makes all the attempts it has
    fuel for and throws the aggregated error of the last failure. *)
Lemma attemptLoop_all_fail fuel j lastErr tr :
  (fuel + j = Z.to_nat (maxRetries f))%nat ->
  (forall t, exists e, render E t = Failed e) ->
  (0 < fuel)%nat ->
  let '(r, _, tr') := attemptLoop E f url fuel (Z.of_nat j) lastErr tr in
  tr' = tr ++ attemptsFrom url (backoffMs f) j fuel /\
  exists e, render E tr' = Failed e /\ r = Throw (fetchFailed (Some e)).
Proof.
  revert j lastErr tr; induction fuel as [|fuel IH]; intros j lastErr tr Hn Hfail Hpos;
    [lia|].
  cbn [attemptLoop].
  assert (Hlt : (Z.of_nat j <? maxRetries f)%Z = true).
  { apply Z.ltb_lt. lia. }
  rewrite Hlt.
  replace (Z.of_nat j + 1)%Z with (Z.of_nat (S j)) by lia.
  destruct (Hfail (tr ++ [EAttempt url (Z.of_nat (S j))])) as [err Herr].
  rewrite Herr.
  destruct fuel as [|fuel].
  - assert (Hge : (Z.of_nat (S j) <? maxRetries f)%Z = false).
    { apply Z.ltb_ge. lia. }
    rewrite Hge. simpl. split; [reflexivity|]. eauto.
  - assert (Hlt' : (Z.of_nat (S j) <? maxRetries f)%Z = true).
    { apply Z.ltb_lt. lia. }
    rewrite Hlt'.
    specialize (IH (S j) (Some err)
                  ((tr ++ [EAttempt url (Z.of_nat (S j))])
                     ++ [ESleep (backoffMs f * Z.of_nat (S j))])).
    destruct (attemptLoop E f url (S fuel) (Z.of_nat (S j)) (Some err) _)
      as [[r f'] tr'].
    destruct IH as (Htr & e & He & Hr); [lia | exact Hfail | lia |].
    split; [|eauto].
    rewrite Htr. cbn [attemptsFrom]. rewrite <- !app_assoc. reflexivity.
Qed.


(** More fuel than [Z.to_nat maxRetries] changes nothing: the bound on
    the iterations is never what ends the loop. *)
Lemma attemptLoop_fuel fuel extra j lastErr tr :
  (fuel + j = Z.to_nat (maxRetries f))%nat ->
  attemptLoop E f url (fuel + extra) (Z.of_nat j) lastErr tr
  = attemptLoop E f url fuel (Z.of_nat j) lastErr tr.
Proof.
  revert j lastErr tr; induction fuel as [|fuel IH]; intros j lastErr tr Hn.
  - simpl. destruct extra as [|extra]; [reflexivity|]. cbn [attemptLoop].
    assert (Hge : (Z.of_nat j <? maxRetries f)%Z = false).
    { apply Z.ltb_ge. lia. }
    now rewrite Hge.
  - cbn [attemptLoop Nat.add].
    destruct (Z.of_nat j <? maxRetries f)%Z; [|reflexivity].
    replace (Z.of_nat j + 1)%Z with (Z.of_nat (S j)) by lia.
    destruct (render E _); try reflexivity.
    apply IH. lia.
Qed.

(** What [get] does before the first attempt: the polite wait and the
    launch of the browser, no attempt. *)
Lemma get_prelude tr :
  exists pre,
    List.filter isAttempt pre = [] /\
    (ensureBrowser f (ensurePoliteDelay E f tr)).2 = tr ++ pre /\
    maxRetries (ensureBrowser f (ensurePoliteDelay E f tr)).1 = maxRetries f /\
    backoffMs (ensureBrowser f (ensurePoliteDelay E f tr)).1 = backoffMs f.
Proof.
  unfold ensureBrowser, ensurePoliteDelay.
  destruct (Z.max 0 (minDelayMs f - (now E tr - lastRequestAt f)) >? 0)%Z;
    destruct (browser f); [| destruct (browserPromise f) | | destruct (browserPromise f)];
    simpl.
  - exists [ESleep (Z.max 0 (minDelayMs f - (now E tr - lastRequestAt f)))]. auto.
  - exists [ESleep (Z.max 0 (minDelayMs f - (now E tr - lastRequestAt f)))]. auto.
  - exists [ESleep (Z.max 0 (minDelayMs f - (now E tr - lastRequestAt f))); ELaunch].
    rewrite <- app_assoc. auto.
  - exists []. rewrite app_nil_r. auto.
  - exists []. rewrite app_nil_r. auto.
  - exists [ELaunch]. auto.
Qed.

End FetchFacts.

Section GetFacts.
Import Js FetchEngine.

Variable E : env.
Variable f : Fetcher.
Variable url : list N.

(** The trace of one [get]: what came before, the prelude, and the
    attempts with their waits. *)
Lemma get_shape tr :
  exists pre m,
    (get E f url tr).2 = tr ++ pre ++ attemptsTrace url (backoffMs f) m /\
    List.filter isAttempt pre = [] /\
    (m <= Z.to_nat (maxRetries f))%nat.
Proof.
  unfold get.
  destruct (get_prelude E f tr) as (pre & Hpre & Htr & Hmax & Hback).
  destruct (ensureBrowser f (ensurePoliteDelay E f tr)) as [f0 tr0].
  simpl in Htr, Hmax, Hback. subst tr0.
  destruct (attemptLoop_trace E f0 url (Z.to_nat (maxRetries f0)) 0 None (tr ++ pre))
    as (m & Hm & _ & Heq); [lia|].
  change (Z.of_nat 0) with 0%Z in Heq.
  exists pre, m. rewrite Heq. unfold attemptsTrace.
  rewrite <- Hback, <- Hmax, <- app_assoc. repeat split; [exact Hpre | lia].
Qed.

(** When every page attempt fails, [get] makes all its attempts and
    throws the aggregated error of the last one. *)
Lemma get_all_fail tr :
  (0 < maxRetries f)%Z ->
  (forall t, exists e, render E t = Failed e) ->
  exists pre e,
    (get E f url tr).2
      = tr ++ pre ++ attemptsTrace url (backoffMs f) (Z.to_nat (maxRetries f)) /\
    List.filter isAttempt pre = [] /\
    render E (get E f url tr).2 = Failed e /\
    (get E f url tr).1.1 = Throw (fetchFailed (Some e)).
Proof.
  intros Hpos Hfail. unfold get.
  destruct (get_prelude E f tr) as (pre & Hpre & Htr & Hmax & Hback).
  destruct (ensureBrowser f (ensurePoliteDelay E f tr)) as [f0 tr0].
  simpl in Htr, Hmax, Hback. subst tr0.
  pose proof (attemptLoop_all_fail E f0 url (Z.to_nat (maxRetries f0)) 0 None
                (tr ++ pre)) as Hall.
  change (Z.of_nat 0) with 0%Z in Hall.
  destruct (attemptLoop E f0 url (Z.to_nat (maxRetries f0)) 0 None (tr ++ pre))
    as [[r f'] tr'].
  destruct Hall as (Heq & e & He & Hr); [lia | exact Hfail | lia |].
  exists pre, e. simpl. unfold attemptsTrace. rewrite <- Hback, <- Hmax.
  repeat split; [|exact Hpre | exact He | exact Hr].
  rewrite Heq. now rewrite <- app_assoc.
Qed.


(** The fields of the engine a [get] leaves as they were. *)
Lemma get_keeps_config tr :
  maxRetries (get E f url tr).1.2 = maxRetries f /\
  backoffMs (get E f url tr).1.2 = backoffMs f.
Proof.
  unfold get.
  destruct (get_prelude E f tr) as (pre & _ & _ & Hmax & Hback).
  destruct (ensureBrowser f (ensurePoliteDelay E f tr)) as [f0 tr0].
  simpl in Hmax, Hback. rewrite <- Hmax, <- Hback.
  generalize (Z.to_nat (maxRetries f0)) 0%Z (@None jsError) tr0.
  intros fuel; induction fuel as [|fuel IH]; intros a le t; simpl; [auto|].
  destruct (a <? maxRetries f0)%Z; [|auto].
  destruct (render E _); simpl; auto.
Qed.

End GetFacts.

Section FetchClaims.
Import Js FetchEngine AutoSync Scenarios.




(** Scenario B at the engine: three attempts, waits of 750 and 1500 ms
    between them, one error. *)
Example get_timeout_three_attempts :
  let url := unitUrl (lit "TIMEOUT001") in
  get (always (Failed timeoutError)) (newFetcher syncFetcherOptions) url []
  = (Throw (newError (lit "FetchFailed:TIMEOUT:Navigation timeout of 30000 ms exceeded")),
     setBrowser (newFetcher syncFetcherOptions) true true,
     [ESleep 1000; ELaunch; EAttempt url 1; ESleep 750; EAttempt url 2;
      ESleep 1500; EAttempt url 3]).
Proof. vm_compute. reflexivity. Qed.

End FetchClaims.

(** ** Failures of one identifier *)

Section MapFacts.
Import Js AutoSync.
Context {V : Type}.

Lemma mapGet_mapSet_eq (m : list (list N * V)) k v :
  mapGet eqs (mapSet eqs m k v) k = Some v.
Proof.
  induction m as [|[k' v'] m IH]; simpl.
  - now rewrite eqs_refl.
  - destruct (eqs k' k) eqn:Hk; simpl; rewrite Hk; [reflexivity | exact IH].
Qed.

Lemma mapGet_mapSet_ne (m : list (list N * V)) k k' v :
  k <> k' -> mapGet eqs (mapSet eqs m k v) k' = mapGet eqs m k'.
Proof.
  intros Hne. induction m as [|[k0 v0] m IH]; simpl.
  - apply eqs_neq in Hne. now rewrite Hne.
  - destruct (eqs k0 k) eqn:Hk; simpl.
    + apply eqs_eq in Hk. subst k0.
      apply eqs_neq in Hne. now rewrite Hne.
    + now rewrite IH.
Qed.

End MapFacts.

Section FailureClaims.
Import Js FetchEngine OutcomeStore AutoSync Scenarios.

Lemma numOr_zero z : numOr (Some z) 0 = z.
Proof. unfold numOr. destruct (z =? 0)%Z eqn:Hz; [|reflexivity]. apply Z.eqb_eq in Hz. lia. Qed.

Lemma categorizeError_pending E previousErrors st code err :
  hasNotFoundMarker (errText err) = false ->
  let st' := categorizeError E previousErrors st code err in
  invalidUnits st' = invalidUnits st /\
  mapGet eqs (errorUnits st') code
    = Some {| ue_code := code; error := errText err;
              attempts := match priorError previousErrors (errorUnits st) code with
                          | Some e => attempts e + 1
                          | None => 1
                          end;
              lastAttempt := isoTime E (trace st) |}.
Proof.
  intros Hmark. unfold categorizeError, hasNotFoundMarker in *. rewrite Hmark.
  cbn [invalidUnits errorUnits].
  split; [reflexivity|]. rewrite mapGet_mapSet_eq. do 2 f_equal.
  unfold priorError.
  destruct (previousErrors !! code) as [e|]; cbn [option_map].
  - now rewrite numOr_zero.
  - destruct (mapGet eqs (errorUnits st) code) as [e|]; cbn [option_map];
      [now rewrite numOr_zero | reflexivity].
Qed.

(** C8. On a failure of one identifier, a message with a not-found
    marker makes the outcome invalid; otherwise the attempts counter of
    the identifier is one more than before (1 when there was none) and
    the outcome is pending with the text of the error and the time.  The
    retry loop of the engine is one try of the scheduler: when every
    page attempt of a first failure fails, the engine makes maxRetries
    attempts (3 in [syncUnits]) and the identifier is recorded with
    attempts = 1. *)
Theorem failure_is_invalid_or_one_more_attempt
    (E : env) (previousErrors : gmap (list N) UnitError) (st : validation)
    (code : list N) (err : jsError) :
  let st' := categorizeError E previousErrors st code err in
  (hasNotFoundMarker (errText err) = true ->
     invalidUnits st' = invalidUnits st ++ [(code, lit "404 - Unit not found")] /\
     errorUnits st' = errorUnits st) /\
  (hasNotFoundMarker (errText err) = false ->
     invalidUnits st' = invalidUnits st /\
     mapGet eqs (errorUnits st') code
       = Some {| ue_code := code; error := errText err;
                 attempts := match priorError previousErrors (errorUnits st) code with
                             | Some e => attempts e + 1
                             | None => 1
                             end;
                 lastAttempt := isoTime E (trace st) |}) /\
  (cache (fetcher st) !! unitUrl code = None ->
   (0 < maxRetries (super (fetcher st)))%Z ->
   (forall t, exists e, render E t = Failed e) ->
   priorError previousErrors (errorUnits st) code = None ->
   let st2 := validateOne E previousErrors st code in
   exists pre e,
     trace st2 = trace st ++ pre
                 ++ attemptsTrace (unitUrl code) (backoffMs (super (fetcher st)))
                      (Z.to_nat (maxRetries (super (fetcher st)))) /\
     List.filter isAttempt pre = [] /\
     render E (trace st2) = Failed e /\
     (hasNotFoundMarker (message (fetchFailed (Some e))) = false ->
        mapGet eqs (errorUnits st2) code
          = Some {| ue_code := code; error := message (fetchFailed (Some e));
                    attempts := 1; lastAttempt := isoTime E (trace st2) |})) /\
  maxRetries (super (newCachedFetcher syncFetcherOptions)) = 3%Z.
Proof.
  intros st'. split; [|split; [|split]].
  - intros Hmark. subst st'. unfold categorizeError, hasNotFoundMarker in *.
    rewrite Hmark. simpl. auto.
  - intros Hmark. now apply categorizeError_pending.
  - intros Hmiss Hpos Hfail Hprior st2. subst st2. unfold validateOne, cachedGet.
    rewrite Hmiss.
    destruct (get_all_fail E (super (fetcher st)) (unitUrl code) (trace st) Hpos Hfail)
      as (pre & e & Htr & Hpre & He & Hr).
    destruct (get E (super (fetcher st)) (unitUrl code) (trace st)) as [[r f'] tr'].
    simpl in Htr, He, Hr. subst r.
    exists pre, e.
    assert (Htrace : forall x,
              trace (categorizeError E previousErrors
                       {| validUnits := validUnits st; invalidUnits := invalidUnits st;
                          errorUnits := errorUnits st; fetcher := x; trace := tr' |}
                       code (fetchFailed (Some e))) = tr').
    { intros x. unfold categorizeError. destruct (_ || _); reflexivity. }
    rewrite Htrace. repeat split; [exact Htr | exact Hpre | exact He |].
    intros Hmark.
    match goal with |- mapGet eqs (errorUnits (categorizeError _ _ ?s _ _)) _ = _ =>
      destruct (categorizeError_pending E previousErrors s code (fetchFailed (Some e)))
        as [_ Hget] end.
    { exact Hmark. }
    rewrite Hget. simpl. now rewrite Hprior.
  - reflexivity.
Qed.

Lemma failure_is_invalid_or_one_more_attempt_witness :
  let E := always (Failed timeoutError) in
  let code := lit "TIMEOUT001" in
  (hasNotFoundMarker (errText notFoundError) = true /\
   hasNotFoundMarker (errText timeoutError) = false /\
   cache (fetcher firstState) !! unitUrl code = None /\
   (0 < maxRetries (super (fetcher firstState)))%Z /\
   (forall t, exists e, render E t = Failed e) /\
   priorError ∅ (errorUnits firstState) code = None) /\
  invalidUnits (categorizeError E ∅ firstState code notFoundError)
    = [(code, lit "404 - Unit not found")] /\
  (attempts <$> mapGet eqs (errorUnits (categorizeError E ∅ firstState code timeoutError)) code)
    = Some 1%Z /\
  exists e,
    render E (trace (validateOne E ∅ firstState code)) = Failed e /\
    (hasNotFoundMarker (message (fetchFailed (Some e))) = false ->
     (attempts <$> mapGet eqs (errorUnits (validateOne E ∅ firstState code)) code)
       = Some 1%Z).
Proof.
  intros E code.
  assert (H1 : hasNotFoundMarker (errText notFoundError) = true) by (vm_compute; reflexivity).
  assert (H2 : hasNotFoundMarker (errText timeoutError) = false) by (vm_compute; reflexivity).
  assert (H3 : cache (fetcher firstState) !! unitUrl code = None) by apply lookup_empty.
  assert (H4 : (0 < maxRetries (super (fetcher firstState)))%Z) by reflexivity.
  assert (H5 : forall t, exists e, render E t = Failed e).
  { intros t. exists timeoutError. reflexivity. }
  assert (H6 : priorError ∅ (errorUnits firstState) code = None).
  { unfold priorError. now rewrite lookup_empty. }
  split; [tauto|].
  destruct (failure_is_invalid_or_one_more_attempt E ∅ firstState code notFoundError)
    as (Ha & _).
  destruct (failure_is_invalid_or_one_more_attempt E ∅ firstState code timeoutError)
    as (_ & Hb & Hc & _).
  split; [exact (proj1 (Ha H1))|].
  split.
  - rewrite (proj2 (Hb H2)), H6. reflexivity.
  - destruct (Hc H3 H4 H5 H6) as (pre & e & _ & _ & He & Hattempts).
    exists e. split; [exact He|].
    intros Hm. now rewrite (Hattempts Hm).
Defined.

(** Scenario B: the first run on TIMEOUT001, every page attempt timing
    out, leaves it pending with attempts = 1 after three attempts of the
    engine. *)
Example timeout_is_pending_after_one_try :
  let r := run (always (Failed timeoutError)) (oneColumn ["TIMEOUT001"%string]) noFiles in
  (log_errorUnits <$> errorLogFile (filesAfter noFiles r))
    = Some (Some [ {| OutcomeStore.err_code := lit "TIMEOUT001";
                      OutcomeStore.err_error :=
                        lit "FetchFailed:TIMEOUT:Navigation timeout of 30000 ms exceeded";
                      OutcomeStore.err_attempts := Some 1%Z;
                      OutcomeStore.err_lastAttempt := Some stamp |} ]) /\
  List.length (List.filter isAttempt (logOf r)) = 3%nat.
Proof. vm_compute. split; reflexivity. Qed.

End FailureClaims.

(** ** The cache of the validate-then-scrape flow *)

Section CacheFacts.
Import Js FetchEngine.

Lemma downloads_app u a b : downloads u (a ++ b) = (downloads u a + downloads u b)%nat.
Proof. unfold downloads. now rewrite List.filter_app, List.length_app. Qed.

Lemma downloads_no_attempt u pre :
  List.filter isAttempt pre = [] -> downloads u pre = 0%nat.
Proof.
  unfold downloads. induction pre as [|e pre IH]; simpl; [reflexivity|].
  destruct e; simpl; try exact IH. discriminate.
Qed.

Lemma downloads_attemptsFrom u url b j m :
  (downloads u (attemptsFrom url b j m)
   <= if eqs url u && (j =? 0)%nat then 1 else 0)%nat.
Proof.
  revert j; induction m as [|m IH]; intros j.
  - simpl. unfold downloads. simpl. lia.
  - assert (Hfirst : downloads u [EAttempt url (Z.of_nat (S j))]
                     = if eqs url u && (j =? 0)%nat then 1%nat else 0%nat).
    { unfold downloads. cbn [List.filter isFirstAttemptOn].
      destruct (eqs url u); cbn [andb]; [|reflexivity].
      destruct (Z.eqb_spec (Z.of_nat (S j)) 1) as [Hj|Hj];
        destruct (Nat.eqb_spec j 0) as [Hj0|Hj0]; try reflexivity; lia. }
    destruct m as [|m].
    + cbn [attemptsFrom]. rewrite Hfirst. lia.
    + change (attemptsFrom url b j (S (S m)))
        with ([EAttempt url (Z.of_nat (S j))] ++ [ESleep (b * Z.of_nat (S j))]
              ++ attemptsFrom url b (S j) (S m)).
      rewrite !downloads_app, Hfirst.
      specialize (IH (S j)). rewrite andb_false_r in IH.
      change (downloads u [ESleep (b * Z.of_nat (S j))]) with 0%nat. lia.
Qed.

(** A [get] through the cache adds at most one first attempt, and only
    on its own URL; it leaves the cache as it was. *)
Lemma cachedGet_downloads E cf url tr u :
  (downloads u (cachedGet E cf url tr).2
   <= downloads u tr + if eqs url u then 1 else 0)%nat.
Proof.
  unfold cachedGet. destruct (cache cf !! url) as [html|]; simpl; [lia|].
  destruct (get_shape E (super cf) url tr) as (pre & m & Heq & Hpre & _).
  destruct (get E (super cf) url tr) as [[r f'] tr']. simpl in *. subst tr'.
  rewrite !downloads_app, (downloads_no_attempt u pre Hpre).
  pose proof (downloads_attemptsFrom u url (backoffMs (super cf)) 0 m) as H.
  unfold attemptsTrace. rewrite andb_true_r in H. lia.
Qed.

Lemma cachedGet_cache E cf url tr :
  cache (cachedGet E cf url tr).1.2 = cache cf.
Proof.
  unfold cachedGet. destruct (cache cf !! url); [reflexivity|].
  destruct (get E (super cf) url tr) as [[r f'] tr']. reflexivity.
Qed.

Lemma cachedGet_hit E cf url tr html :
  cache cf !! url = Some html -> cachedGet E cf url tr = (Return html, cf, tr).
Proof. intros H. unfold cachedGet. now rewrite H. Qed.

Lemma doCall_keeps E st c u h :
  cache st.1 !! u = Some h -> setsCacheOf u c = false ->
  cache (doCall E st c).1 !! u = Some h.
Proof.
  destruct st as [cf tr]. intros Hu Hc. destruct c as [url|url html|]; simpl in *.
  - pose proof (cachedGet_cache E cf url tr) as Hk.
    destruct (cachedGet E cf url tr) as [[r cf'] tr']. simpl in *. now rewrite Hk.
  - apply eqs_neq in Hc. now rewrite lookup_insert_ne.
  - unfold cachedClose. destruct (close (super cf) tr). exact Hu.
Qed.

Lemma doCalls_keeps E cf tr calls u h :
  cache cf !! u = Some h ->
  forallb (fun c => negb (setsCacheOf u c)) calls = true ->
  cache (doCalls E cf tr calls).1 !! u = Some h.
Proof.
  unfold doCalls. change cf with (cf, tr).1 at 1. generalize (cf, tr). clear cf tr.
  induction calls as [|c calls IH]; intros st Hu Hall; simpl; [exact Hu|].
  simpl in Hall. apply andb_true_iff in Hall as [Hc Hall].
  apply negb_true_iff in Hc.
  apply IH; [|exact Hall]. now apply doCall_keeps.
Qed.

End CacheFacts.

Section FlowFacts.
Import Js Model FetchEngine DocumentExtractor OutcomeStore CrawlScheduler AutoSync.

Variable E : env.
Variable previousErrors : gmap (list N) UnitError.

Lemma unitUrl_inj c c' : unitUrl c = unitUrl c' -> c = c'.
Proof.
  unfold unitUrl. intros H. apply app_inv_head in H. now apply app_inv_tail in H.
Qed.

Lemma categorizeError_keeps st code err :
  trace (categorizeError E previousErrors st code err) = trace st /\
  fetcher (categorizeError E previousErrors st code err) = fetcher st /\
  validUnits (categorizeError E previousErrors st code err) = validUnits st.
Proof. unfold categorizeError. destruct (_ || _); auto. Qed.

Lemma validateOne_trace st code :
  trace (validateOne E previousErrors st code)
  = (cachedGet E (fetcher st) (unitUrl code) (trace st)).2.
Proof.
  unfold validateOne.
  destruct (cachedGet E (fetcher st) (unitUrl code) (trace st)) as [[r cf] tr].
  destruct r as [html|err]; simpl.
  - destruct (_ || _); [reflexivity|]. destruct (_ || _); reflexivity.
  - now destruct (categorizeError_keeps
                    {| validUnits := validUnits st; invalidUnits := invalidUnits st;
                       errorUnits := errorUnits st; fetcher := cf; trace := tr |}
                    code err) as (-> & _).
Qed.

(** What is cached stays cached, and a code that becomes valid is
    cached. *)
Lemma validateOne_cache st code :
  (forall u, is_Some (cache (fetcher st) !! u) ->
             is_Some (cache (fetcher (validateOne E previousErrors st code)) !! u)) /\
  (forall v, In v (validUnits (validateOne E previousErrors st code)) ->
             In v (validUnits st) \/
             is_Some (cache (fetcher (validateOne E previousErrors st code)) !! unitUrl v)).
Proof.
  unfold validateOne.
  pose proof (cachedGet_cache E (fetcher st) (unitUrl code) (trace st)) as Hk.
  destruct (cachedGet E (fetcher st) (unitUrl code) (trace st)) as [[r cf] tr].
  simpl in Hk.
  destruct r as [html|err].
  - destruct (_ || _).
    + simpl. split.
      * intros u Hu. rewrite Hk.
        destruct (decide (unitUrl code = u)) as [->|Hne].
        -- rewrite lookup_insert_eq. eauto.
        -- now rewrite lookup_insert_ne.
      * intros v Hv. apply in_app_or in Hv as [Hv|[<-|[]]]; [now left|].
        right. rewrite lookup_insert_eq. eauto.
    + destruct (_ || _); simpl; (split; [intros u Hu; now rewrite Hk | auto]).
  - destruct (categorizeError_keeps
                {| validUnits := validUnits st; invalidUnits := invalidUnits st;
                   errorUnits := errorUnits st; fetcher := cf; trace := tr |}
                code err) as (_ & -> & ->).
    simpl. split; [intros u Hu; now rewrite Hk | auto].
Qed.

(** The invariant of the validation: a page has been requested at most
    once, only pages of the codes done have been requested, and every
    valid code is cached. *)
Lemma validateOne_inv st code done :
  (forall u, (downloads u (trace st) <= 1)%nat) ->
  (forall u, ~ In u (List.map unitUrl done) -> downloads u (trace st) = 0%nat) ->
  (forall v, In v (validUnits st) -> is_Some (cache (fetcher st) !! unitUrl v)) ->
  ~ In code done ->
  let st' := validateOne E previousErrors st code in
  (forall u, (downloads u (trace st') <= 1)%nat) /\
  (forall u, ~ In u (List.map unitUrl (done ++ [code])) -> downloads u (trace st') = 0%nat) /\
  (forall v, In v (validUnits st') -> is_Some (cache (fetcher st') !! unitUrl v)).
Proof.
  intros Hone Hzero Hvalid Hnew st'. subst st'.
  rewrite validateOne_trace.
  destruct (validateOne_cache st code) as [Hkeep Hnewvalid].
  assert (Hfresh : ~ In (unitUrl code) (List.map unitUrl done)).
  { intros H. apply in_map_iff in H as (c & Hc & Hin).
    apply unitUrl_inj in Hc. now subst c. }
  split; [|split].
  - intros u. pose proof (cachedGet_downloads E (fetcher st) (unitUrl code) (trace st) u) as H.
    destruct (eqs (unitUrl code) u) eqn:Hu.
    + apply eqs_eq in Hu. subst u. rewrite (Hzero _ Hfresh) in H. lia.
    + specialize (Hone u). lia.
  - intros u Hu. pose proof (cachedGet_downloads E (fetcher st) (unitUrl code) (trace st) u) as H.
    rewrite List.map_app, in_app_iff in Hu. simpl in Hu.
    destruct (eqs (unitUrl code) u) eqn:Heq.
    + apply eqs_eq in Heq. tauto.
    + rewrite Hzero in H by tauto. lia.
  - intros v Hv. destruct (Hnewvalid v Hv) as [Hold|Hc]; [|exact Hc].
    apply Hkeep. now apply Hvalid.
Qed.

Lemma validateList_inv codes st done :
  List.NoDup codes ->
  (forall c, In c codes -> ~ In c done) ->
  (forall u, (downloads u (trace st) <= 1)%nat) ->
  (forall u, ~ In u (List.map unitUrl done) -> downloads u (trace st) = 0%nat) ->
  (forall v, In v (validUnits st) -> is_Some (cache (fetcher st) !! unitUrl v)) ->
  let st' := fold_left (validateOne E previousErrors) codes st in
  (forall u, (downloads u (trace st') <= 1)%nat) /\
  (forall u, ~ In u (List.map unitUrl (done ++ codes)) -> downloads u (trace st') = 0%nat) /\
  (forall v, In v (validUnits st') -> is_Some (cache (fetcher st') !! unitUrl v)).
Proof.
  revert st done; induction codes as [|c codes IH]; intros st done Hnd Hdisj Hone Hzero Hvalid.
  - simpl. rewrite app_nil_r. auto.
  - inversion Hnd as [|? ? Hc Hnd']; subst.
    destruct (validateOne_inv st c done Hone Hzero Hvalid) as (H1 & H2 & H3).
    { apply Hdisj. now left. }
    cbn [fold_left].
    replace (done ++ c :: codes) with ((done ++ [c]) ++ codes)
      by now rewrite <- app_assoc.
    apply IH; auto.
    intros x Hx Hin. apply in_app_or in Hin as [Hin|[<-|[]]].
    + apply (Hdisj x); [now right | exact Hin].
    + contradiction.
Qed.

Lemma validateBatches_inv fuel codes st done :
  List.NoDup codes ->
  (forall c, In c codes -> ~ In c done) ->
  (forall u, (downloads u (trace st) <= 1)%nat) ->
  (forall u, ~ In u (List.map unitUrl done) -> downloads u (trace st) = 0%nat) ->
  (forall v, In v (validUnits st) -> is_Some (cache (fetcher st) !! unitUrl v)) ->
  let st' := validateBatches E previousErrors fuel codes st in
  (forall u, (downloads u (trace st') <= 1)%nat) /\
  (forall v, In v (validUnits st') -> is_Some (cache (fetcher st') !! unitUrl v)).
Proof.
  revert codes st done; induction fuel as [|fuel IH];
    intros codes st done Hnd Hdisj Hone Hzero Hvalid; [simpl; auto|].
  destruct codes as [|c codes]; [simpl; auto|].
  cbn [validateBatches].
  set (batch := firstn 5 (c :: codes)). set (rest := skipn 5 (c :: codes)).
  assert (Hsplit : c :: codes = batch ++ rest) by (symmetry; apply firstn_skipn).
  rewrite Hsplit in Hnd, Hdisj.
  apply NoDup_ListNoDup, NoDup_app in Hnd as (Hnd1 & Hnd12 & Hnd2).
  apply NoDup_ListNoDup in Hnd1, Hnd2.
  destruct (validateList_inv batch st done Hnd1) as (H1 & H2 & H3); auto.
  { intros x Hx. apply Hdisj. apply in_or_app. now left. }
  set (st1 := fold_left (validateOne E previousErrors) batch st) in *.
  assert (Hsleep : forall u, downloads u (trace (sleepBetweenBatches st1))
                             = downloads u (trace st1)).
  { intros u. simpl. rewrite downloads_app. unfold downloads at 2. simpl. lia. }
  assert (Hrest : forall x, In x rest -> ~ In x (done ++ batch)).
  { intros x Hx Hin. apply in_app_or in Hin as [Hin|Hin].
    - apply (Hdisj x); [apply in_or_app; now right | exact Hin].
    - apply (Hnd12 x); now apply list_elem_of_In. }
  destruct rest as [|r rest'] eqn:Hr.
  - apply (IH [] st1 (done ++ batch)); auto; constructor.
  - apply (IH (r :: rest') (sleepBetweenBatches st1) (done ++ batch)); auto.
    + intros u. rewrite Hsleep. apply H1.
    + intros u Hu. rewrite Hsleep. now apply H2.
Qed.

End FlowFacts.

Section CrawlFacts.
Import Js Model FetchEngine DocumentExtractor OutcomeStore CrawlScheduler AutoSync.

Variable E : env.
Variable load : list N -> page.
Variable stringify pretty : Uoc -> list N.
Variable parsedCode : list N -> option (option (list N)).

Lemma cachedClose_downloads cf tr u :
  downloads u (cachedClose cf tr).2 = downloads u tr.
Proof.
  unfold cachedClose, close. destruct (browser (super cf)); simpl; [|reflexivity].
  rewrite downloads_app. unfold downloads at 2. simpl. lia.
Qed.

(** A turn of the crawler on a cached page requests nothing. *)
Lemma crawlOne_hit st url :
  is_Some (cache (c_fetcher st) !! url) ->
  cache (c_fetcher (crawlOne E load stringify pretty parsedCode st url))
    = cache (c_fetcher st) /\
  forall u, downloads u (c_trace (crawlOne E load stringify pretty parsedCode st url))
            = downloads u (c_trace st).
Proof.
  intros [html Hhit]. unfold crawlOne. rewrite (cachedGet_hit _ _ _ _ _ Hhit).
  destruct (writeJsonl _ _ _ _ _ _) as [svc d]. simpl. split; [reflexivity|].
  intros u. rewrite downloads_app. unfold downloads at 2. simpl. lia.
Qed.

Lemma crawlFold_hits urls st :
  (forall u, In u urls -> is_Some (cache (c_fetcher st) !! u)) ->
  forall u,
    downloads u (c_trace (fold_left (crawlOne E load stringify pretty parsedCode) urls st))
    = downloads u (c_trace st).
Proof.
  revert st; induction urls as [|url urls IH]; intros st Hall u; [reflexivity|].
  cbn [fold_left].
  destruct (crawlOne_hit st url) as [Hcache Hdl]; [apply Hall; now left|].
  rewrite IH; [apply Hdl|].
  intros x Hx. rewrite Hcache. apply Hall. now right.
Qed.

Lemma crawlUocUrls_hits cf svc d tr urls :
  (forall u, In u urls -> is_Some (cache cf !! u)) ->
  forall u,
    downloads u (c_trace (crawlUocUrls E load stringify pretty parsedCode cf svc d tr urls))
    = downloads u tr.
Proof.
  intros Hall u. unfold crawlUocUrls.
  destruct (init parsedCode svc d) as [svc' d'].
  match goal with |- context [fold_left ?f ?q ?s0] =>
    pose proof (crawlFold_hits q s0) as Hfold; set (st := fold_left f q s0) in * end.
  pose proof (cachedClose_downloads (c_fetcher st) (c_trace st) u) as Hclose.
  destruct (cachedClose (c_fetcher st) (c_trace st)) as [cf' tr'].
  cbn [c_trace snd] in *. rewrite Hclose. apply Hfold.
  intros x Hx. cbn [c_fetcher]. apply Hall. apply unique_In. exact Hx.
Qed.

End CrawlFacts.

Section CacheClaims.
Import Js Model FetchEngine DocumentExtractor OutcomeStore CrawlScheduler
       IdentifierExtractor AutoSync Scenarios.

Lemma plan_queue_NoDup existingUnits previousErrors maxRetries requestedCodes :
  List.NoDup requestedCodes ->
  List.NoDup (allUnitsToProcess
                (planUnits existingUnits previousErrors maxRetries requestedCodes)).
Proof.
  intros Hnd. rewrite planUnits_class. unfold allUnitsToProcess. simpl.
  apply List.NoDup_app.
  - now apply List.NoDup_filter.
  - now apply List.NoDup_filter.
  - intros c. rewrite !only_In. intros [_ H1] [_ H2]. congruence.
Qed.

(** C10. After [setCache(u, h)], every later [get(u)] on the same
    instance returns [h] and reaches neither the network nor the polite
    wait: the instance and the trace are as they were.  So in a run of
    [syncUnits], validation then crawl, no page is requested from the
    network more than once. *)
Theorem cache_serves_validated_pages :
  (forall E cf tr u h calls,
     forallb (fun c => negb (setsCacheOf u c)) calls = true ->
     let '(cf', tr') := doCalls E (setCache cf u h) tr calls in
     cachedGet E cf' u tr' = (Return h, cf', tr')) /\
  (forall E load stringify pretty parsedCode config input output d u,
     (downloads u
        (logOf (syncUnits E load stringify pretty parsedCode config input output d))
      <= 1)%nat).
Proof.
  split.
  - intros E cf tr u h calls Hcalls.
    pose proof (doCalls_keeps E (setCache cf u h) tr calls u h) as Hkeep.
    destruct (doCalls E (setCache cf u h) tr calls) as [cf' tr']. simpl in Hkeep.
    apply cachedGet_hit. apply Hkeep; [|exact Hcalls].
    simpl. apply lookup_insert_eq.
  - intros E load stringify pretty parsedCode config input output d u.
    unfold syncUnits.
    destruct (readUnitCodesFromExcel _ _ _) as [requestedCodes|e] eqn:Hread;
      [|simpl; unfold downloads; simpl; lia].
    assert (Hnd : List.NoDup requestedCodes).
    { unfold readUnitCodesFromExcel in Hread. destruct input; [|discriminate].
      injection Hread as <-. apply unique_NoDup. }
    set (prev := loadPreviousErrors d (isoTime E [])).
    set (p := planUnits _ prev _ requestedCodes).
    pose proof (plan_queue_NoDup (getExistingUnits output) prev
                  (numOr (cfg_maxRetries config) 3) requestedCodes Hnd) as Hq.
    fold p in Hq.
    destruct (allUnitsToProcess p) as [|c0 q0] eqn:Hall;
      [simpl; unfold downloads; simpl; lia|].
    destruct (validateBatches_inv E prev (List.length (c0 :: q0)) (c0 :: q0)
                {| validUnits := []; invalidUnits := []; errorUnits := [];
                   fetcher := newCachedFetcher syncFetcherOptions; trace := [] |} [] Hq)
      as (Hone & Hcached).
    { intros c _ []. }
    { intros x. unfold downloads. simpl. lia. }
    { intros x _. reflexivity. }
    { intros v []. }
    fold (validateAll E prev (c0 :: q0) (newCachedFetcher syncFetcherOptions)) in Hone, Hcached.
    set (v := validateAll E prev (c0 :: q0) (newCachedFetcher syncFetcherOptions)) in *.
    destruct (validUnits v) as [|v0 vs] eqn:Hv.
    + pose proof (cachedClose_downloads (fetcher v) (trace v) u) as Hclose.
      destruct (cachedClose (fetcher v) (trace v)) as [cf' tr']. simpl in *.
      rewrite Hclose. apply Hone.
    + cbn [logOf log].
      rewrite crawlUocUrls_hits; [apply Hone|].
      intros x Hx. apply in_map_iff in Hx as (c & <- & Hc). now apply Hcached.
Qed.

Lemma cache_serves_validated_pages_witness :
  let E := always (Rendered notFoundPage) in
  let u := unitUrl (lit "MARA022") in
  let h := lit "<h1>Unit of competency</h1>" in
  let calls := [CallGet (unitUrl (lit "MARB027")); CallGet u; CallClose;
                CallSetCache (unitUrl (lit "MARB027")) notFoundPage] in
  forallb (fun c => negb (setsCacheOf u c)) calls = true /\
  let '(cf', tr') := doCalls E (setCache (newCachedFetcher syncFetcherOptions) u h) [] calls in
  cachedGet E cf' u tr' = (Return h, cf', tr').
Proof.
  intros E u h calls.
  assert (Hcalls : forallb (fun c => negb (setsCacheOf u c)) calls = true)
    by (vm_compute; reflexivity).
  split; [exact Hcalls|].
  exact (proj1 cache_serves_validated_pages E (newCachedFetcher syncFetcherOptions)
           [] u h calls Hcalls).
Defined.

End CacheClaims.

(** ** DocumentExtractor *)

(** The identifier of an extracted record is never empty. *)

Section IdentityFacts.
Import Js Regex Model DocumentExtractor.

Lemma execFrom_inv items bef s m :
  execFrom items bef s = Some m ->
  exists bef' s' r, go items bef' s' nocaps = Some r /\ m = mkFound bef' r.
Proof.
  revert bef; induction s as [|c s IH]; intros bef; simpl.
  - destruct (go items bef [] nocaps) as [r|] eqn:Hgo; [|discriminate].
    intros H. injection H as <-. eauto.
  - destruct (go items bef (c :: s) nocaps) as [r|] eqn:Hgo.
    + intros H. injection H as <-. eauto.
    + apply IH.
Qed.

(** A literal takes as many code units as it has. *)
Lemma go_literal (l : list N) rest bef s caps r :
  go (List.map ChrI l ++ rest) bef s caps = Some r ->
  exists bef' s', go rest bef' s' caps = Some r.
Proof.
  revert bef s; induction l as [|x l IH]; intros bef s; simpl; [eauto|].
  destruct s as [|c s]; [discriminate|].
  destruct (canon c =? canon x); [apply IH | discriminate].
Qed.

(** A group that is closed stays as it is while no item closes it
    again. *)
Lemma go_keeps_group g text items bef s caps r :
  go items bef s caps = Some r ->
  assoc g (closed caps) = Some text ->
  forallb (fun it => match it with Close g' => negb (Nat.eqb g g') | _ => true end)
          items = true ->
  assoc g (closed (r_caps r)) = Some text.
Proof.
  revert bef s caps; induction items as [|it items IH]; intros bef s caps Hgo Hg Hno.
  - simpl in Hgo. injection Hgo as <-. exact Hg.
  - simpl in Hno. apply andb_true_iff in Hno as [Hit Hno].
    destruct it as [p|p lo hi|g'|g'| | |]; simpl in Hgo.
    + destruct s as [|c s]; [discriminate|]. destruct (p c); [|discriminate]. eauto.
    + apply rep_inv in Hgo as (pre & s' & _ & _ & _ & _ & Hgo). eauto.
    + apply (IH _ _ _ Hgo); [exact Hg | exact Hno].
    + apply (IH _ _ _ Hgo); [|exact Hno].
      unfold closeGroup. destruct (assoc g' (opened caps)); [|exact Hg].
      simpl. apply negb_true_iff in Hit. now rewrite Hit.
    + destruct bef; [eauto | discriminate].
    + destruct s; [eauto | discriminate].
    + destruct (xorb _ _); [eauto | discriminate].
Qed.

(** The code of the patterns, in a group opened just before it, is
    captured with its two letters at least. *)
Lemma go_code_group upper rest bef s r :
  go ([Open 1] ++ codeItems upper ++ Close 1 :: rest) bef s nocaps = Some r ->
  forallb (fun it => match it with Close g' => negb (Nat.eqb 1 g') | _ => true end)
          rest = true ->
  exists text, assoc 1 (closed (r_caps r)) = Some text /\ truthy text = true.
Proof.
  intros Hgo Hrest. unfold codeItems, AtLeast, Star in Hgo. simpl in Hgo.
  apply rep_inv in Hgo as (q1 & s1 & -> & _ & Hq1 & _ & Hgo).
  apply rep_inv in Hgo as (q2 & s2 & -> & _ & _ & _ & Hgo).
  apply rep_inv in Hgo as (q3 & s3 & -> & _ & _ & _ & Hgo).
  unfold closeGroup, openGroup in Hgo. cbn [opened closed assoc Nat.eqb] in Hgo.
  match type of Hgo with
  | go rest ?b ?t {| opened := _; closed := (1%nat, ?text) :: _ |} = _ =>
      exists text; split;
      [ apply (go_keeps_group 1 text rest b t _ r Hgo); [simpl; reflexivity | exact Hrest]
      | ]
  end.
  assert (Hlen : (2 <= List.length
                         (rev (firstn (List.length (rev q3 ++ rev q2 ++ rev q1 ++ bef)
                                       - List.length bef)
                                 (rev q3 ++ rev q2 ++ rev q1 ++ bef))))%nat).
  { rewrite List.length_rev, List.length_firstn, !List.length_app, !List.length_rev. lia. }
  destruct (rev (firstn _ _)); [simpl in Hlen; lia | reflexivity].
Qed.

Lemma groupText_truthy m text :
  assoc 1 (groups m) = Some text -> truthy text = true -> truthy (groupText 1 m) = true.
Proof. intros H Ht. unfold groupText, group. now rewrite H. Qed.

(** Whatever the document, the identifier of the record is not empty. *)
Lemma extractCodeAndTitle_code d : truthy (extractCodeAndTitle d).1 = true.
Proof.
  unfold extractCodeAndTitle.
  destruct ((0 <? heroLength d)%nat && truthy (trim (heroStrongText d))
            && truthy (trim (heroText d))) eqn:Hhero.
  - apply andb_true_iff in Hhero as [Hhero _].
    apply andb_true_iff in Hhero as [_ Hstrong]. exact Hstrong.
  - destruct (exec uocPattern (trim (h1Text d))) as [m|] eqn:Huoc.
    + cbn [fst]. apply execFrom_inv in Huoc as (bef & s & r & Hgo & ->).
      unfold uocPattern, LitI in Hgo.
      apply go_literal in Hgo as (bef' & s' & Hgo).
      cbn [app] in Hgo. unfold Star at 1 in Hgo. simpl in Hgo.
      apply rep_inv in Hgo as (sp & s1 & -> & _ & _ & _ & Hgo).
      destruct (go_code_group (icase isUpper) [] _ _ r Hgo eq_refl) as (text & Hg & Ht).
      now apply (groupText_truthy _ text).
    + destruct (exec headingPattern (trim (h1Text d))) as [m|] eqn:Hhead; [|reflexivity].
      cbn [fst]. apply execFrom_inv in Hhead as (bef & s & r & Hgo & ->).
      unfold headingPattern in Hgo. cbn [app] in Hgo.
      change (go (Bol :: ?l) bef s nocaps) with
        (match bef with [] => go l bef s nocaps | _ => None end) in Hgo.
      destruct bef; [|discriminate].
      destruct (go_code_group isUpper _ _ _ r Hgo eq_refl) as (text & Hg & Ht).
      now apply (groupText_truthy _ text).
Qed.

Lemma parseUocHtml_code load stamp html url :
  truthy (code (parseUocHtml load stamp html url)) = true.
Proof.
  unfold parseUocHtml.
  pose proof (extractCodeAndTitle_code (load html)) as H.
  destruct (extractCodeAndTitle (load html)) as [c t].
  destruct (extractSupersession (load html)) as [by_ sup]. exact H.
Qed.

End IdentityFacts.

Section ExtractorClaims.
Import Js Regex Model DocumentExtractor Scenarios.

Lemma supersessionStep_links acc a :
  supersessionStep acc a =
    (match relationLink saysSupersededBy a with Some l => Some l | None => acc.1 end,
     match relationLink saysSupersedes a with Some l => Some l | None => acc.2 end).
Proof.
  destruct acc as [by_ sup]. unfold supersessionStep, relationLink. simpl.
  destruct (saysSupersededBy a), (saysSupersedes a),
    (exec linkCodePattern (trim (a_text a))); reflexivity.
Qed.

Lemma firstLink_app says l1 l2 :
  firstLink says (l1 ++ l2) =
    match firstLink says l1 with Some l => Some l | None => firstLink says l2 end.
Proof.
  induction l1 as [|a l1 IH]; simpl; [reflexivity|].
  destruct (relationLink says a); [reflexivity | exact IH].
Qed.

Lemma lastLink_cons says a links :
  lastLink says (a :: links) =
    match lastLink says links with Some l => Some l | None => relationLink says a end.
Proof.
  unfold lastLink. simpl. rewrite firstLink_app. simpl.
  destruct (firstLink says (rev links)); [reflexivity|].
  now destruct (relationLink says a).
Qed.

Lemma supersession_fold links acc :
  fold_left supersessionStep links acc =
    (match lastLink saysSupersededBy links with Some l => Some l | None => acc.1 end,
     match lastLink saysSupersedes links with Some l => Some l | None => acc.2 end).
Proof.
  revert acc; induction links as [|a links IH]; intros acc.
  - destruct acc. reflexivity.
  - cbn [fold_left]. rewrite IH, supersessionStep_links, !lastLink_cons. simpl.
    destruct (lastLink saysSupersededBy links), (lastLink saysSupersedes links);
      reflexivity.
Qed.

(** C9, as the specification states it, fails: of two links under
    "superseded by" the first does not win. *)
Lemma first_link_counterexample :
  ~ (forall d : page,
       (extractSupersession d).1 = firstLink saysSupersededBy (detailLinks d) /\
       (extractSupersession d).2 = firstLink saysSupersedes (detailLinks d)).
Proof.
  intros H. destruct (H twoSuccessors) as [Hby _].
  vm_compute in Hby. discriminate.
Qed.

(** C9, amended. The record keeps at most one 'superseded by' link and
    at most one 'supersedes' link, and for each relation the last
    matching link in document order wins. *)
Theorem supersession_last_link_wins (d : page) :
  (extractSupersession d).1 = lastLink saysSupersededBy (detailLinks d) /\
  (extractSupersession d).2 = lastLink saysSupersedes (detailLinks d).
Proof.
  unfold extractSupersession. rewrite supersession_fold. simpl.
  destruct (lastLink saysSupersededBy (detailLinks d)),
    (lastLink saysSupersedes (detailLinks d)); auto.
Qed.

Example supersession_of_twoSuccessors :
  extractSupersession twoSuccessors =
    (Some {| link_code := lit "MARB046";
             link_url := lit "https://training.gov.au/training/details/MARB046/unitdetails" |},
     Some {| link_code := lit "MARB012";
             link_url := lit "https://training.gov.au/training/details/MARB012/unitdetails" |}).
Proof. vm_compute. reflexivity. Qed.

Lemma extractCodeAndTitle_unknown d :
  noIdentityStrategy d = true ->
  extractCodeAndTitle d = (lit "Unknown", lit "Unknown").
Proof.
  unfold noIdentityStrategy, heroMatches, extractCodeAndTitle, test.
  intros H. apply andb_true_iff in H as [H Hheading].
  apply andb_true_iff in H as [Hhero Huoc].
  apply negb_true_iff in Hhero. rewrite Hhero.
  destruct (exec uocPattern (trim (h1Text d))); [discriminate|].
  destruct (exec headingPattern (trim (h1Text d))); [discriminate|].
  reflexivity.
Qed.

Lemma extractCodeAndTitle_no_heading d :
  heroLength d = 0%nat -> trim (h1Text d) = [] ->
  extractCodeAndTitle d = (lit "Unknown", lit "Unknown").
Proof.
  intros Hhero Hh1. apply extractCodeAndTitle_unknown.
  unfold noIdentityStrategy, heroMatches. rewrite Hhero, Hh1. reflexivity.
Qed.

(** X27 (extractCodeAndTitle, parseUocHtml): the identity of a record.
    Whatever document [cheerio.load] gives for the input, the identifier
    of the record is never the empty string, and when no identity
    strategy matches (no hero subtitle with both its texts, and a first
    heading that matches neither pattern; in particular no hero subtitle
    and no text in a first heading) the identifier and the title are
    both "Unknown". *)
Theorem identity_defaults_to_unknown
    (load : list N -> page) (stamp html url : list N) :
  let r := parseUocHtml load stamp html url in
  truthy (code r) = true /\
  (noIdentityStrategy (load html) = true ->
     code r = lit "Unknown" /\ title r = lit "Unknown") /\
  (heroLength (load html) = 0%nat -> trim (h1Text (load html)) = [] ->
     code r = lit "Unknown" /\ title r = lit "Unknown").
Proof.
  intros r. subst r.
  pose proof (parseUocHtml_code load stamp html url) as Hcode.
  unfold parseUocHtml in *.
  destruct (extractCodeAndTitle (load html)) as [c t] eqn:Hid.
  destruct (extractSupersession (load html)) as [by_ sup] eqn:Hsup.
  cbn [code title] in *.
  split; [exact Hcode|]. split.
  - intros Hnone. rewrite (extractCodeAndTitle_unknown _ Hnone) in Hid.
    split; congruence.
  - intros Hhero Hh1. rewrite (extractCodeAndTitle_no_heading _ Hhero Hh1) in Hid.
    split; congruence.
Qed.

Lemma identity_defaults_to_unknown_witness :
  let load := fun _ : list N => emptyPage in
  let r := parseUocHtml load stamp [] (lit "http://example.com/MARH013") in
  noIdentityStrategy (load []) = true /\
  code r = lit "Unknown" /\ title r = lit "Unknown".
Proof.
  intros load r. split; [reflexivity|].
  destruct (identity_defaults_to_unknown load stamp []
              (lit "http://example.com/MARH013")) as (_ & H & _).
  exact (H eq_refl).
Defined.

(** A document in which nothing is found gives the record with no
    field but the two of the identity. *)
Example parse_empty_page (stamp' url : list N) :
  parseUocHtml (fun _ => emptyPage) stamp' [] url = unknownRecord stamp' url.
Proof. reflexivity. Qed.

(** The two cases of the test suite of the parser. *)
Example parse_test_suite :
  extractCodeAndTitle (headings "Unit of Competency: MARH013" "Title: Sample UOC Title")
    = (lit "MARH013", lit "Sample UOC Title") /\
  extractCodeAndTitle (headings "Unit of Competency: MARH013" "")
    = (lit "MARH013", []) /\
  extractCodeAndTitle (headings "MARH013 - Manage a small vessel" "")
    = (lit "MARH013", lit "Manage a small vessel").
Proof. vm_compute. repeat split. Qed.

End ExtractorClaims.

(** ** OutcomeStore: the record corpus *)

Section LineFacts.
Import Js OutcomeStore.

Lemma trimStart_spaces nl s :
  forallb isSpace nl = true -> trimStart (nl ++ s) = trimStart s.
Proof.
  induction nl as [|c nl IH]; simpl; [reflexivity|].
  intros H. apply andb_true_iff in H as [Hc Hnl]. rewrite Hc. now apply IH.
Qed.

Lemma trimStart_stop s : startsWithSpace s = false -> trimStart s = s.
Proof. destruct s as [|c s]; simpl; [reflexivity|]. now intros ->. Qed.

Lemma oneLine_parts l :
  oneLine l = true ->
  l <> [] /\ forallb (fun c => negb (c =? 10)) l = true /\
  startsWithSpace l = false /\ startsWithSpace (rev l) = false.
Proof.
  unfold oneLine. intros H.
  apply andb_true_iff in H as [H H4]. apply andb_true_iff in H as [H H3].
  apply andb_true_iff in H as [H1 H2].
  apply negb_true_iff in H3, H4. repeat split; auto.
  intros ->. discriminate.
Qed.

Lemma startsWithSpace_app a b : a <> [] -> startsWithSpace (a ++ b) = startsWithSpace a.
Proof. destruct a; [contradiction | reflexivity]. Qed.

Lemma linesFile_app a b : linesFile (a ++ b) = linesFile a ++ linesFile b.
Proof. unfold linesFile. apply flat_map_app. Qed.

Lemma joinNl_snoc ls l : joinNl (ls ++ [l]) = linesFile ls ++ l.
Proof.
  induction ls as [|x ls IH]; simpl; [reflexivity|].
  rewrite <- !app_assoc. simpl. rewrite <- IH.
  destruct (ls ++ [l]) eqn:Hls; [|reflexivity].
  now destruct ls.
Qed.

Lemma joinNl_linesFile ls : ls <> [] -> joinNl ls ++ [10] = linesFile ls.
Proof.
  intros Hne. destruct (exists_last Hne) as (ls' & l & ->).
  rewrite joinNl_snoc, linesFile_app. simpl. now rewrite <- app_assoc, app_nil_r.
Qed.

Lemma splitNl_line l s :
  forallb (fun c => negb (c =? 10)) l = true ->
  splitNl (l ++ 10 :: s) = l :: splitNl s.
Proof.
  induction l as [|c l IH]; simpl; [reflexivity|].
  intros H. apply andb_true_iff in H as [Hc Hl]. apply negb_true_iff in Hc.
  rewrite Hc, (IH Hl). reflexivity.
Qed.

Lemma splitNl_single l :
  forallb (fun c => negb (c =? 10)) l = true -> splitNl l = [l].
Proof.
  induction l as [|c l IH]; simpl; [reflexivity|].
  intros H. apply andb_true_iff in H as [Hc Hl]. apply negb_true_iff in Hc.
  rewrite Hc, (IH Hl). reflexivity.
Qed.

Lemma splitNl_joinNl ls :
  forallb oneLine ls = true -> ls <> [] -> splitNl (joinNl ls) = ls.
Proof.
  induction ls as [|l ls IH]; [contradiction|].
  intros H _. simpl in H. apply andb_true_iff in H as [Hl Hls].
  apply oneLine_parts in Hl as (_ & Hnl & _ & _).
  destruct ls as [|l2 ls].
  - simpl. now apply splitNl_single.
  - change (joinNl (l :: l2 :: ls)) with (l ++ 10 :: joinNl (l2 :: ls)).
    rewrite (splitNl_line _ _ Hnl), IH; [reflexivity | exact Hls | discriminate].
Qed.

Lemma filter_truthy ls : forallb oneLine ls = true -> List.filter truthy ls = ls.
Proof.
  induction ls as [|l ls IH]; simpl; [reflexivity|].
  intros H. apply andb_true_iff in H as [Hl Hls].
  apply oneLine_parts in Hl as (Hne & _). destruct l; [contradiction|].
  simpl. now rewrite IH.
Qed.

Lemma trim_linesFile nl ls :
  forallb isSpace nl = true -> forallb oneLine ls = true ->
  trim (nl ++ linesFile ls) = joinNl ls.
Proof.
  intros Hnl Hls. unfold trim. rewrite (trimStart_spaces _ _ Hnl).
  destruct ls as [|l0 ls0]; [reflexivity|].
  assert (Hne : l0 :: ls0 <> []) by discriminate.
  rewrite (trimStart_stop (linesFile (l0 :: ls0))).
  2:{ simpl in Hls. apply andb_true_iff in Hls as [Hl _].
      apply oneLine_parts in Hl as (Hl & _ & Hs & _).
      change (linesFile (l0 :: ls0)) with ((l0 ++ [10]) ++ linesFile ls0).
      rewrite <- app_assoc. now rewrite startsWithSpace_app. }
  destruct (exists_last Hne) as (ls' & l & Heq). rewrite Heq in *. clear Heq Hne.
  rewrite forallb_app in Hls. apply andb_true_iff in Hls as [_ Hl].
  simpl in Hl. rewrite andb_true_r in Hl.
  apply oneLine_parts in Hl as (Hl & _ & _ & Hs).
  rewrite linesFile_app. simpl. rewrite app_nil_r, !rev_app_distr. simpl.
  rewrite trimStart_stop.
  - rewrite rev_app_distr, !rev_involutive. symmetry. apply joinNl_snoc.
  - rewrite startsWithSpace_app; [exact Hs|].
    intros H. apply (f_equal (@rev N)) in H. rewrite rev_involutive in H. auto.
Qed.

(** The lines of a file of complete lines are those lines. *)
Lemma linesOf_linesFile nl ls :
  forallb isSpace nl = true -> forallb oneLine ls = true ->
  linesOf (nl ++ linesFile ls) = ls.
Proof.
  intros Hnl Hls. unfold linesOf. rewrite (trim_linesFile _ _ Hnl Hls).
  destruct ls as [|l ls]; [reflexivity|].
  rewrite splitNl_joinNl; [now apply filter_truthy | exact Hls | discriminate].
Qed.

End LineFacts.

Section UpsertFacts.
Import Js Model OutcomeStore.

Lemma entryOf_app c a b :
  entryOf c (a ++ b) = match entryOf c a with Some u => Some u | None => entryOf c b end.
Proof.
  unfold entryOf. induction a as [|x a IH]; simpl; [reflexivity|].
  destruct (eqs (code x) c); [reflexivity | exact IH].
Qed.

Lemma entryOf_upsert c corpus item :
  entryOf c (upsert corpus item) =
    if eqs (code item) c then Some item else entryOf c corpus.
Proof.
  unfold upsert. rewrite entryOf_app.
  destruct (eqs (code item) c) eqn:Hc.
  - apply eqs_eq in Hc. subst c.
    assert (Hnone : entryOf (code item)
              (List.filter (fun u => negb (eqs (code u) (code item))) corpus) = None).
    { unfold entryOf. induction corpus as [|x corpus IH]; simpl; [reflexivity|].
      destruct (eqs (code x) (code item)) eqn:Hx; simpl; [exact IH|].
      now rewrite Hx. }
    rewrite Hnone. unfold entryOf. simpl. now rewrite eqs_refl.
  - assert (Hsame : entryOf c
              (List.filter (fun u => negb (eqs (code u) (code item))) corpus)
              = entryOf c corpus).
    { unfold entryOf. induction corpus as [|x corpus IH]; simpl; [reflexivity|].
      destruct (eqs (code x) (code item)) eqn:Hx; simpl.
      - apply eqs_eq in Hx. rewrite Hx, Hc. exact IH.
      - destruct (eqs (code x) c); [reflexivity | exact IH]. }
    rewrite Hsame. destruct (entryOf c corpus); [reflexivity|].
    unfold entryOf. simpl. now rewrite Hc.
Qed.

(** Latest wins: the entry of an identifier after a series of writes is
    the last record written for it, else the entry there was. *)
Lemma entryOf_fold c items corpus :
  entryOf c (fold_left upsert items corpus) =
    match entryOf c (rev items) with
    | Some u => Some u
    | None => entryOf c corpus
    end.
Proof.
  revert corpus; induction items as [|x items IH]; intros corpus; [reflexivity|].
  cbn [fold_left]. rewrite IH, entryOf_upsert. simpl. rewrite entryOf_app.
  destruct (entryOf c (rev items)); [reflexivity|].
  unfold entryOf at 2. simpl. now destruct (eqs (code x) c).
Qed.

Lemma upsert_NoDup corpus item :
  List.NoDup (List.map code corpus) -> List.NoDup (List.map code (upsert corpus item)).
Proof.
  intros Hnd. unfold upsert. rewrite List.map_app. simpl.
  apply List.NoDup_app.
  - induction corpus as [|x corpus IH]; simpl; [constructor|].
    inversion Hnd as [|? ? Hx Hnd']; subst.
    destruct (eqs (code x) (code item)); simpl; [now apply IH|].
    constructor; [|now apply IH].
    intros Hin. apply Hx. apply in_map_iff in Hin as (y & Hy & Hin).
    apply filter_In in Hin as [Hin _]. apply in_map_iff. eauto.
  - constructor; [intros []|constructor].
  - intros c Hin [<-|[]]. apply in_map_iff in Hin as (y & Hy & Hin).
    apply filter_In in Hin as [_ Hne]. rewrite Hy, eqs_refl in Hne. discriminate.
Qed.

Lemma fold_upsert_NoDup items corpus :
  List.NoDup (List.map code corpus) ->
  List.NoDup (List.map code (fold_left upsert items corpus)).
Proof.
  revert corpus; induction items as [|x items IH]; intros corpus Hnd; [exact Hnd|].
  cbn [fold_left]. apply IH. now apply upsert_NoDup.
Qed.

Lemma upsert_truthy corpus item :
  forallb (fun u => truthy (code u)) corpus = true -> truthy (code item) = true ->
  forallb (fun u => truthy (code u)) (upsert corpus item) = true.
Proof.
  intros Hc Hi. unfold upsert. rewrite forallb_app. simpl. rewrite Hi.
  rewrite andb_true_r. clear Hi.
  induction corpus as [|x corpus IH]; simpl; [reflexivity|].
  simpl in Hc. apply andb_true_iff in Hc as [Hx Hc].
  destruct (negb _); simpl; [rewrite Hx|]; now apply IH.
Qed.

Lemma fold_upsert_truthy items corpus :
  forallb (fun u => truthy (code u)) corpus = true ->
  forallb (fun u => truthy (code u)) items = true ->
  forallb (fun u => truthy (code u)) (fold_left upsert items corpus) = true.
Proof.
  revert corpus; induction items as [|x items IH]; intros corpus Hc Hi; [exact Hc|].
  simpl in Hi. apply andb_true_iff in Hi as [Hx Hi].
  cbn [fold_left]. apply IH; [|exact Hi]. now apply upsert_truthy.
Qed.

End UpsertFacts.

Section CorpusFacts.
Import Js Model OutcomeStore.

Variable stringify pretty : Uoc -> list N.
Variable parsedCode : list N -> option (option (list N)).
Hypothesis stringify_oneLine : forall u, oneLine (stringify u) = true.
Hypothesis parse_stringify : forall u, parsedCode (stringify u) = Some (Some (code u)).

Lemma stringify_lines items : forallb oneLine (List.map stringify items) = true.
Proof.
  induction items as [|u items IH]; simpl; [reflexivity|].
  now rewrite stringify_oneLine, IH.
Qed.

Lemma holds_lines d items :
  holds stringify d items ->
  exists content, jsonlFile d = Some content /\
                  linesOf content = List.map stringify items.
Proof.
  intros (nl & Hnl & Hfile). eexists. split; [exact Hfile|].
  apply linesOf_linesFile; [exact Hnl | apply stringify_lines].
Qed.

Lemma removeUnit_holds d items c :
  holds stringify d items ->
  holds stringify (removeUnit parsedCode c d)
    (List.filter (fun u => negb (eqs (code u) c)) items).
Proof.
  intros Hd. destruct (holds_lines d items Hd) as (content & Hfile & Hlines).
  unfold removeUnit. rewrite Hfile, Hlines.
  assert (Hkeep : List.filter
            (fun line => match parsedCode line with
                         | Some (Some c0) => negb (eqs c0 c)
                         | _ => true
                         end) (List.map stringify items)
          = List.map stringify (List.filter (fun u => negb (eqs (code u) c)) items)).
  { clear -parse_stringify. induction items as [|u items IH]; simpl; [reflexivity|].
    rewrite parse_stringify. destruct (negb (eqs (code u) c)); simpl; now rewrite IH. }
  match goal with |- holds _ (setJsonl _ (joinNl ?l ++ _)) _ =>
    replace l with (List.map stringify
                      (List.filter (fun u => negb (eqs (code u) c)) items)) end.
  destruct (List.map stringify (List.filter (fun u => negb (eqs (code u) c)) items))
    as [|l ls] eqn:Hl.
  - exists [10]. split; [reflexivity|]. rewrite Hl. reflexivity.
  - exists []. split; [reflexivity|]. rewrite Hl. unfold setJsonl. cbn [jsonlFile].
    rewrite joinNl_linesFile by discriminate. reflexivity.
Qed.

Lemma append_holds d items u :
  holds stringify d items ->
  holds stringify (setJsonl d (default [] (jsonlFile d) ++ stringify u ++ [10]))
    (items ++ [u]).
Proof.
  intros (nl & Hnl & Hfile). exists nl. split; [exact Hnl|].
  simpl. rewrite Hfile. simpl. rewrite List.map_app, linesFile_app. simpl.
  now rewrite <- !app_assoc, app_nil_r.
Qed.

Lemma filter_other_codes (items : list Uoc) c :
  (forall u, In u items -> code u <> c) ->
  List.filter (fun u => negb (eqs (code u) c)) items = items.
Proof.
  induction items as [|x items IH]; intros H; simpl; [reflexivity|].
  assert (Hx : eqs (code x) c = false) by (apply eqs_neq, H; now left).
  rewrite Hx. simpl. rewrite IH; [reflexivity|]. intros u Hu. apply H. now right.
Qed.

(** One write: the line of the same code is removed, the new line is
    appended, and the service knows every code of the file. *)
Lemma writeJsonl_holds svc d items item :
  holds stringify d items ->
  (forall u, In u items -> code u ∈ existingCodes svc) ->
  holds stringify (writeJsonl stringify pretty parsedCode svc d item).2
    (upsert items item) /\
  (forall u, In u (upsert items item) ->
             code u ∈ existingCodes (writeJsonl stringify pretty parsedCode svc d item).1).
Proof.
  intros Hd Hknown. unfold writeJsonl.
  set (d1 := if bool_decide (code item ∈ existingCodes svc)
             then removeUnit parsedCode (code item) d else d).
  assert (Hd1 : holds stringify d1
                  (List.filter (fun u => negb (eqs (code u) (code item))) items)).
  { subst d1. destruct (bool_decide_reflect (code item ∈ existingCodes svc)) as [Hin|Hnin].
    - now apply removeUnit_holds.
    - rewrite filter_other_codes; [exact Hd|].
      intros u Hu Heq. apply Hnin. rewrite <- Heq. now apply Hknown. }
  cbn [fst snd]. split.
  - destruct (append_holds d1 _ item Hd1) as (nl & Hnl & Hfile).
    exists nl. split; [exact Hnl|]. simpl in *. exact Hfile.
  - intros u Hu. simpl. unfold upsert in Hu. apply in_app_or in Hu as [Hu|[<-|[]]].
    + apply filter_In in Hu as [Hu _]. apply elem_of_union_r. now apply Hknown.
    + apply elem_of_union_l. now apply elem_of_singleton.
Qed.

Lemma writeAll_holds run svc d items :
  holds stringify d items ->
  (forall u, In u items -> code u ∈ existingCodes svc) ->
  holds stringify (writeAll stringify pretty parsedCode svc d run).2
    (fold_left upsert run items).
Proof.
  unfold writeAll. revert svc d items; induction run as [|item run IH];
    intros svc d items Hd Hknown; [exact Hd|].
  cbn [fold_left fst snd].
  destruct (writeJsonl_holds svc d items item Hd Hknown) as [Hd' Hknown'].
  destruct (writeJsonl stringify pretty parsedCode svc d item) as [svc' d'].
  now apply IH.
Qed.

(** [init] on a file of complete lines learns the code of every record
    with a non-empty code. *)
Lemma init_known svc d items :
  holds stringify d items ->
  forallb (fun u => truthy (code u)) items = true ->
  (init parsedCode svc d).2 = d /\
  forall u, In u items -> code u ∈ existingCodes (init parsedCode svc d).1.
Proof.
  intros Hd Htruthy. destruct (holds_lines d items Hd) as (content & Hfile & Hlines).
  unfold init. rewrite Hfile, Hlines. simpl. split; [reflexivity|].
  generalize (existingCodes svc). revert Htruthy. clear -parse_stringify.
  induction items as [|x items IH]; intros Htruthy codes u Hu; [destruct Hu|].
  simpl in Htruthy. apply andb_true_iff in Htruthy as [Hx Hitems].
  simpl. rewrite parse_stringify, Hx.
  destruct Hu as [<-|Hu].
  - assert (Hmono : forall (ls : list Uoc) (S : gset (list N)) c, c ∈ S ->
              c ∈ fold_left
                    (fun codes line =>
                       match parsedCode line with
                       | Some (Some c0) => if truthy c0 then {[c0]} ∪ codes else codes
                       | _ => codes
                       end) (List.map stringify ls) S).
    { clear -parse_stringify. induction ls as [|y ls IHl]; intros S c Hc; [exact Hc|].
      simpl. apply IHl. rewrite parse_stringify.
      destruct (truthy (code y)); [now apply elem_of_union_r | exact Hc]. }
    apply Hmono. apply elem_of_union_l. now apply elem_of_singleton.
  - now apply IH.
Qed.

(** One run on a corpus file, or on none. *)
Lemma exportRun_holds d items run :
  (jsonlFile d = None /\ items = []) \/ holds stringify d items ->
  forallb (fun u => truthy (code u)) items = true ->
  holds stringify (exportRun stringify pretty parsedCode d run)
    (fold_left upsert run items).
Proof.
  intros Hd Htruthy. unfold exportRun.
  destruct Hd as [[Hnone ->]|Hd].
  - unfold init. rewrite Hnone.
    apply writeAll_holds.
    + exists []. split; reflexivity.
    + intros u [].
  - destruct (init_known newExportService d items Hd Htruthy) as [Hsame Hknown].
    destruct (init parsedCode newExportService d) as [svc d']. simpl in *. subst d'.
    now apply writeAll_holds.
Qed.

Lemma exportRuns_holds runs d items :
  (jsonlFile d = None /\ items = []) \/ holds stringify d items ->
  forallb (fun u => truthy (code u)) items = true ->
  forallb (forallb (fun u => truthy (code u))) runs = true ->
  (jsonlFile (exportRuns stringify pretty parsedCode d runs) = None /\
   fold_left upsert (concat runs) items = []) \/
  holds stringify (exportRuns stringify pretty parsedCode d runs)
    (fold_left upsert (concat runs) items).
Proof.
  unfold exportRuns. revert d items; induction runs as [|run runs IH];
    intros d items Hd Hitems Hruns; [exact Hd|].
  simpl in Hruns. apply andb_true_iff in Hruns as [Hrun Hruns].
  cbn [fold_left concat]. rewrite fold_left_app.
  apply IH; [right; now apply exportRun_holds | | exact Hruns].
  now apply fold_upsert_truthy.
Qed.

End CorpusFacts.

Section CorpusClaims.
Import Js Model OutcomeStore Scenarios.

Lemma shifted_code (c rest : list N) :
  shifted (List.map (fun x => x + 256) c ++ 124 :: rest) = c.
Proof.
  induction c as [|x c IH]; simpl; [reflexivity|].
  destruct (N.leb_spec 256 (x + 256)) as [_|H]; [|lia].
  rewrite IH. f_equal. lia.
Qed.

Lemma codeOfLine_codeLine u : codeOfLine (codeLine u) = Some (Some (code u)).
Proof. unfold codeOfLine, codeLine. now rewrite shifted_code. Qed.

Lemma codeLine_oneLine u : oneLine (codeLine u) = true.
Proof.
  assert (Hshift : forall l, forallb (fun c => negb (c =? 10)) (List.map (fun x => x + 256) l) = true).
  { induction l as [|x l IH]; simpl; [reflexivity|]. rewrite IH, andb_true_r.
    apply negb_true_iff, N.eqb_neq. lia. }
  unfold oneLine, codeLine. simpl truthy. cbn [andb].
  apply andb_true_iff. split; [apply andb_true_iff; split|].
  - simpl. rewrite forallb_app, Hshift. simpl. rewrite forallb_app, Hshift. reflexivity.
  - reflexivity.
  - simpl. rewrite !rev_app_distr. simpl. rewrite !rev_app_distr. reflexivity.
Qed.

(** X28 (ExportService.writeJsonl, removeUnit, with one worker as in
    the [main] of index.ts): writes taken one after the other.  When
    each [writeJsonl] has returned before the next is called, in one
    run or in several, the corpus read back has exactly one line per
    identifier: a write removes the line of the same identifier and
    appends the new one, so the line of an identifier is that of the
    last record written for it. *)
Theorem corpus_one_line_per_identifier
    (stringify pretty : Uoc -> list N)
    (parsedCode : list N -> option (option (list N))) :
  (forall u, oneLine (stringify u) = true) ->
  (forall u, parsedCode (stringify u) = Some (Some (code u))) ->
  (forall svc d items item,
     holds stringify d items ->
     (forall u, In u items -> code u ∈ existingCodes svc) ->
     holds stringify (writeJsonl stringify pretty parsedCode svc d item).2
       (List.filter (fun u => negb (eqs (code u) (code item))) items ++ [item])) /\
  (forall d0 runs,
     jsonlFile d0 = None ->
     forallb (forallb (fun u => truthy (code u))) runs = true ->
     let d := exportRuns stringify pretty parsedCode d0 runs in
     let corpus := fold_left upsert (concat runs) [] in
     linesOf (default [] (jsonlFile d)) = List.map stringify corpus /\
     List.NoDup (List.map code corpus) /\
     (forall c, entryOf c corpus = entryOf c (rev (concat runs)))).
Proof.
  intros Hline Hparse. split.
  - intros svc d items item Hd Hknown.
    exact (proj1 (writeJsonl_holds stringify pretty parsedCode Hline Hparse
                    svc d items item Hd Hknown)).
  - intros d0 runs Hnone Hruns d corpus. split; [|split].
    + destruct (exportRuns_holds stringify pretty parsedCode Hline Hparse runs d0 [])
        as [[Hno Hempty]|Hd]; auto.
      * subst d corpus. rewrite Hno, Hempty. reflexivity.
      * destruct (holds_lines stringify Hline _ _ Hd) as (content & Hfile & Hlines).
        subst d corpus. rewrite Hfile. exact Hlines.
    + apply fold_upsert_NoDup. constructor.
    + intros c. subst corpus. rewrite entryOf_fold.
      now destruct (entryOf c (rev (concat runs))).
Qed.

Lemma corpus_one_line_per_identifier_witness :
  let first := [recordOf "MARB027" "Manage a vessel"; recordOf "MARA022" "Manage loading"] in
  let second := [recordOf "MARB027" "Manage a small vessel"] in
  ((forall u, oneLine (codeLine u) = true) /\
   (forall u, codeOfLine (codeLine u) = Some (Some (code u))) /\
   jsonlFile noFiles = None /\
   forallb (forallb (fun u => truthy (code u))) [first; second] = true) /\
  linesOf (default [] (jsonlFile (exportRuns codeLine codeLine codeOfLine noFiles
                                    [first; second])))
    = [codeLine (recordOf "MARA022" "Manage loading");
       codeLine (recordOf "MARB027" "Manage a small vessel")].
Proof.
  intros first second.
  assert (Hruns : forallb (forallb (fun u => truthy (code u))) [first; second] = true)
    by reflexivity.
  split.
  { split; [apply codeLine_oneLine|]. split; [apply codeOfLine_codeLine|].
    split; [reflexivity | exact Hruns]. }
  destruct (corpus_one_line_per_identifier codeLine codeLine codeOfLine
              codeLine_oneLine codeOfLine_codeLine) as [_ H].
  destruct (H noFiles [first; second] eq_refl Hruns) as [Hlines _].
  rewrite Hlines. vm_compute. reflexivity.
Defined.

(** Scenario D: two runs each write MARB027; the file has one line for
    it, that of the second run (after the empty line the rewrite of an
    emptied file leaves). *)
Example second_run_replaces_the_line :
  let d := exportRuns codeLine codeLine codeOfLine noFiles
             [[recordOf "MARB027" "Manage a vessel"];
              [recordOf "MARB027" "Manage a small vessel"]] in
  jsonlFile d
    = Some (10 :: codeLine (recordOf "MARB027" "Manage a small vessel") ++ [10]) /\
  linesOf (default [] (jsonlFile d))
    = [codeLine (recordOf "MARB027" "Manage a small vessel")].
Proof. vm_compute. split; reflexivity. Qed.

End CorpusClaims.

(** ** Writes in flight together *)

Section RaceFacts.
Import Js Model OutcomeStore ConcurrentStore.

Variable stringify : Uoc -> list N.
Variable pretty : Uoc -> list N.
Variable parsedCode : list N -> option (option (list N)).

(** One step of the first call in flight. *)
Lemma resume_first svc d item st rest :
  resume stringify pretty parsedCode
    {| st_svc := svc; st_files := d;
       st_calls := {| c_item := item; c_stage := st |} :: rest |} 0
  = {| st_svc := (advance stringify pretty parsedCode svc d item st).1.1;
       st_files := (advance stringify pretty parsedCode svc d item st).1.2;
       st_calls :=
         {| c_item := item;
            c_stage := (advance stringify pretty parsedCode svc d item st).2 |}
         :: rest |}.
Proof.
  unfold resume. cbn [st_calls st_svc st_files lookup list_lookup c_item c_stage].
  now destruct (advance stringify pretty parsedCode svc d item st) as [[svc' d'] st'].
Qed.

(** A call that goes through its awaits with no other call in flight
    does what [writeJsonl] of the store does. *)
Lemma alone_is_writeJsonl svc d item :
  let s := interleave stringify pretty parsedCode [0; 0; 0; 0; 0]%nat
             (inFlight svc d [item]) in
  (st_svc s, st_files s) = writeJsonl stringify pretty parsedCode svc d item /\
  forallb isFinished (st_calls s) = true.
Proof.
  unfold interleave, inFlight, writeJsonl, removeUnit.
  cbn [fold_left List.map].
  rewrite resume_first. cbn [advance].
  destruct (bool_decide (code item ∈ existingCodes svc)); cbn [fst snd].
  - rewrite resume_first. cbn [advance].
    destruct (jsonlFile d) as [content|] eqn:Hfile; cbn [fst snd];
      repeat (rewrite resume_first; cbn [advance fst snd]);
      cbn [st_svc st_files st_calls forallb isFinished c_stage jsonlFile setJsonl
           unitFiles errorLogFile default];
      [|rewrite Hfile]; split; reflexivity.
  - repeat (rewrite resume_first; cbn [advance fst snd]).
    cbn [st_svc st_files st_calls forallb isFinished c_stage jsonlFile setJsonl
         unitFiles errorLogFile default].
    split; reflexivity.
Qed.

End RaceFacts.

Section RaceClaims.
Import Js Model OutcomeStore ConcurrentStore Scenarios.

(** C2, at the input on which the code fails.  An earlier run has left
    one line for MARA022 and one for MARB027; a later run crawls both
    again and its workers call [writeJsonl] for the two records
    together.  Both calls find their code known, both read the file
    before either rewrites it, and the rewrite of the second puts back
    the line the first had removed: all calls finished, the corpus has
    two lines for MARA022, the old one first.  The same two calls taken
    one after the other are the writes of the store, and leave one line
    for each identifier. *)
Theorem concurrent_writes_leave_two_lines :
  let earlier := [recordOf "MARA022" "Manage loading";
                  recordOf "MARB027" "Manage a vessel"] in
  let again := [recordOf "MARA022" "Manage loading operations";
                recordOf "MARB027" "Manage a small vessel"] in
  let '(svc, d) := init codeOfLine newExportService
                     (exportRun codeLine codeLine codeOfLine noFiles earlier) in
  let together := interleave codeLine codeLine codeOfLine
                    [0; 1; 0; 1; 0; 1; 0; 1; 0; 1]%nat (inFlight svc d again) in
  let inTurn := interleave codeLine codeLine codeOfLine
                  [0; 0; 0; 0; 0; 1; 1; 1; 1; 1]%nat (inFlight svc d again) in
  forallb isFinished (st_calls together) = true /\
  linesOf (default [] (jsonlFile (st_files together)))
    = [codeLine (recordOf "MARA022" "Manage loading");
       codeLine (recordOf "MARA022" "Manage loading operations");
       codeLine (recordOf "MARB027" "Manage a small vessel")] /\
  corpusCodes codeOfLine (st_files together)
    = [lit "MARA022"; lit "MARA022"; lit "MARB027"] /\
  ~ List.NoDup (corpusCodes codeOfLine (st_files together)) /\
  (st_svc inTurn, st_files inTurn)
    = writeAll codeLine codeLine codeOfLine svc d again /\
  corpusCodes codeOfLine (st_files inTurn) = [lit "MARA022"; lit "MARB027"].
Proof.
  vm_compute.
  split; [reflexivity|]. split; [reflexivity|]. split; [reflexivity|].
  split; [|split; reflexivity].
  intros H. inversion H as [|x l Hin _]. apply Hin. left. reflexivity.
Qed.

End RaceClaims.

(** ** What a match consumes *)

Section MatchFacts.
Import Js Regex.

Lemma firstn_added (x bef : list N) :
  firstn (List.length (x ++ bef) - List.length bef) (x ++ bef) = x.
Proof.
  rewrite List.length_app.
  replace (List.length x + List.length bef - List.length bef)%nat
    with (List.length x + 0)%nat by lia.
  rewrite List.firstn_app_2. simpl. apply List.app_nil_r.
Qed.

(** A match passes over a piece of the input and nothing else. *)
Lemma go_consumes items bef s caps r :
  go items bef s caps = Some r ->
  exists t, s = t ++ r_rest r /\ r_bef r = rev t ++ bef.
Proof.
  revert bef s caps; induction items as [|it items IH]; intros bef s caps Hgo.
  - simpl in Hgo. injection Hgo as <-. exists []. split; reflexivity.
  - destruct it as [p|p lo hi|g|g| | |]; simpl in Hgo.
    + destruct s as [|c s]; [discriminate|]. destruct (p c); [|discriminate].
      apply IH in Hgo as (t & -> & Hb). exists (c :: t). split; [reflexivity|].
      rewrite Hb. simpl. now rewrite <- List.app_assoc.
    + apply rep_inv in Hgo as (pre & s' & -> & _ & _ & _ & Hgo).
      apply IH in Hgo as (t & -> & Hb). exists (pre ++ t).
      split; [now rewrite List.app_assoc|].
      rewrite Hb, List.rev_app_distr. now rewrite <- List.app_assoc.
    + eapply IH, Hgo.
    + eapply IH, Hgo.
    + destruct bef; [eapply IH, Hgo | discriminate].
    + destruct s; [eapply IH, Hgo | discriminate].
    + destruct (xorb _ _); [eapply IH, Hgo | discriminate].
Qed.

Lemma whole_consumed bef r t :
  r_bef r = rev t ++ bef -> whole (mkFound bef r) = t.
Proof.
  intros H. unfold mkFound. cbn [whole]. rewrite H, firstn_added.
  apply List.rev_involutive.
Qed.

(** Every match of a global search is a match of the pattern at some
    position of the input. *)
Lemma scan_inv items s bef skip m :
  In m (scan items bef s skip) ->
  exists bef' s' r,
    go items bef' s' nocaps = Some r /\ m = mkFound bef' r /\
    rev bef' ++ s' = rev bef ++ s.
Proof.
  revert bef skip; induction s as [|c s IH]; intros bef skip Hin.
  - simpl in Hin. destruct skip; [|destruct Hin].
    destruct (go items bef [] nocaps) as [r|] eqn:Hgo; [|destruct Hin].
    destruct Hin as [<-|[]]. exists bef, [], r. auto.
  - simpl in Hin.
    assert (Hnext : forall k, In m (scan items (c :: bef) s k) ->
              exists bef' s' r,
                go items bef' s' nocaps = Some r /\ m = mkFound bef' r /\
                rev bef' ++ s' = rev bef ++ c :: s).
    { intros k Hk. apply IH in Hk as (bef' & s' & r & Hgo & Hm & Hpos).
      exists bef', s', r. repeat split; auto.
      rewrite Hpos. simpl. now rewrite <- List.app_assoc. }
    destruct skip as [|k]; [|eauto].
    destruct (go items bef (c :: s) nocaps) as [r|] eqn:Hgo; [|eauto].
    destruct Hin as [<-|Hin]; [|eauto].
    exists bef, (c :: s), r. auto.
Qed.

(** The text a group takes when it is closed. *)
Lemma closeGroup_text g bef x caps :
  closed (closeGroup g (x ++ bef) (openGroup g bef caps))
  = (g, rev x) :: closed caps.
Proof.
  unfold closeGroup, openGroup. cbn [opened assoc].
  rewrite Nat.eqb_refl. cbn [closed]. now rewrite firstn_added.
Qed.

(** White space around a text: [trim] keeps every code unit that is not
    white space, and what it returns does not end in white space. *)
Lemma trimStart_keeps c s : In c s -> isSpace c = false -> In c (trimStart s).
Proof.
  induction s as [|x s IH]; intros Hin Hc; [destruct Hin|].
  simpl. destruct (isSpace x) eqn:Hx; [|exact Hin].
  destruct Hin as [->|Hin]; [congruence | auto].
Qed.

Lemma trim_keeps c s : In c s -> isSpace c = false -> In c (trim s).
Proof.
  intros Hin Hc. unfold trim. apply List.in_rev. rewrite List.rev_involutive.
  apply trimStart_keeps; [|exact Hc].
  apply List.in_rev. rewrite List.rev_involutive. now apply trimStart_keeps.
Qed.

Lemma trimStart_head c s t : trimStart s = c :: t -> isSpace c = false.
Proof.
  induction s as [|x s IH]; simpl; [discriminate|].
  destruct (isSpace x) eqn:Hx; [exact IH|]. intros H. injection H as <- _. exact Hx.
Qed.

Lemma trim_last s t c : trim s = t ++ [c] -> isSpace c = false.
Proof.
  unfold trim. intros H.
  apply (f_equal (@rev N)) in H. rewrite List.rev_involutive, List.rev_app_distr in H.
  simpl in H. eapply trimStart_head, H.
Qed.

End MatchFacts.

(** ** The identifier extractor: what it returns beyond the grammar *)

Section ExtractorFacts.
Import Js Regex IdentifierExtractor.

(** A match of the token pattern captures upper-case letters and digits
    only. *)
Lemma unitCodePattern_group bef s r :
  go unitCodePattern bef s nocaps = Some r ->
  exists q1 q2,
    closed (r_caps r) = [(1%nat, q1 ++ q2)] /\
    forallb isUpper q1 = true /\ forallb isUpperOrDigit q2 = true.
Proof.
  unfold unitCodePattern. intros Hgo. simpl in Hgo.
  destruct (xorb (hdWord bef) (hdWord s)); [|discriminate].
  apply rep_inv in Hgo as (q1 & s1 & -> & Hq1 & _ & _ & Hgo).
  apply rep_inv in Hgo as (q2 & s2 & -> & Hq2 & _ & _ & Hgo).
  destruct (xorb _ _); [|discriminate]. injection Hgo as <-. cbn [r_caps].
  exists q1, q2. split; [|auto].
  replace (rev q2 ++ rev q1 ++ bef) with (rev (q1 ++ q2) ++ bef)
    by (now rewrite List.rev_app_distr, <- List.app_assoc).
  rewrite closeGroup_text, List.rev_involutive. reflexivity.
Qed.

Lemma isUpper_upperOrDigit c : isUpper c = true -> isUpperOrDigit c = true.
Proof. unfold isUpperOrDigit. now intros ->. Qed.

Lemma codesOfCell_upper cellValue code :
  In code (codesOfCell cellValue) -> forallb isUpperOrDigit code = true.
Proof.
  destruct cellValue as [s| | |]; simpl; try tauto.
  destruct (truthy s); [|simpl; tauto].
  intros Hin. apply List.filter_In in Hin as [Hin _].
  apply list_elem_of_In, list_elem_of_omap in Hin as (m & Hm & Hg).
  apply list_elem_of_In, scan_inv in Hm as (bef & s' & r & Hgo & -> & _).
  apply unitCodePattern_group in Hgo as (q1 & q2 & Hc & H1 & H2).
  unfold group, mkFound in Hg. cbn [groups] in Hg. rewrite Hc in Hg.
  simpl in Hg. injection Hg as <-.
  rewrite List.forallb_app, H2, andb_true_r.
  revert H1. apply forallb_impl, isUpper_upperOrDigit.
Qed.

Lemma codesOfSheets_In (wb : workbook) columnName code :
  In code (flat_map (codesOfSheet columnName) wb) <->
  exists sh r c,
    In sh wb /\ In r (rows sh) /\ In c (columnsOf columnName r) /\
    In code (codesOfCell c).
Proof.
  split.
  - intros Hin. apply List.in_flat_map in Hin as (sh & Hsh & Hin).
    apply List.in_flat_map in Hin as (r & Hr & Hin).
    apply List.in_flat_map in Hin as (c & Hc & Hin). eauto 8.
  - intros (sh & r & c & Hsh & Hr & Hc & Hin).
    apply List.in_flat_map. exists sh. split; [exact Hsh|].
    apply List.in_flat_map. exists r. split; [exact Hr|].
    apply List.in_flat_map. eauto.
Qed.

(** Removing the duplicates of a list that has none changes nothing. *)
Lemma uniqueFrom_fixed seen l :
  List.NoDup l -> (forall x, In x l -> ~ In x seen) -> uniqueFrom seen l = l.
Proof.
  revert seen; induction l as [|x l IH]; intros seen Hnd Hseen; [reflexivity|].
  simpl. inversion Hnd as [|? ? Hx Hl]; subst.
  destruct (arrayIncludes seen x) eqn:Hinc.
  - apply arrayIncludes_In in Hinc. destruct (Hseen x); simpl; auto.
  - f_equal. apply IH; [exact Hl|].
    intros y Hy [<-|Hin]; [contradiction|]. apply (Hseen y); simpl; auto.
Qed.

(** What a list read after another adds: nothing before what the first
    gave, and nothing at all when the first had every element of it. *)
Lemma uniqueFrom_app seen a b :
  exists seen',
    (forall x, In x seen' <-> In x a \/ In x seen) /\
    uniqueFrom seen (a ++ b) = uniqueFrom seen a ++ uniqueFrom seen' b.
Proof.
  revert seen; induction a as [|x a IH]; intros seen; simpl.
  - exists seen. split; [tauto | reflexivity].
  - destruct (arrayIncludes seen x) eqn:Hinc.
    + apply arrayIncludes_In in Hinc.
      destruct (IH seen) as (seen' & Hseen & Heq). exists seen'.
      split; [|exact Heq]. intros y. rewrite Hseen.
      split; [tauto|]. intros [[<-|H]|H]; tauto.
    + destruct (IH (x :: seen)) as (seen' & Hseen & Heq). exists seen'.
      split; [|now rewrite Heq]. intros y. rewrite Hseen. simpl. tauto.
Qed.

Lemma uniqueFrom_seen seen b :
  (forall x, In x b -> In x seen) -> uniqueFrom seen b = [].
Proof.
  induction b as [|x b IH]; intros Hall; simpl; [reflexivity|].
  assert (Hx : arrayIncludes seen x = true).
  { apply arrayIncludes_In, Hall. simpl. auto. }
  rewrite Hx. apply IH. intros y Hy. apply Hall. simpl. auto.
Qed.

(** The text the token pattern captures is a piece of the cell. *)
Lemma unitCodePattern_text bef s r :
  go unitCodePattern bef s nocaps = Some r ->
  exists code rest, closed (r_caps r) = [(1%nat, code)] /\ s = code ++ rest.
Proof.
  unfold unitCodePattern. intros Hgo. simpl in Hgo.
  destruct (xorb (hdWord bef) (hdWord s)); [|discriminate].
  apply rep_inv in Hgo as (q1 & s1 & -> & Hq1 & _ & _ & Hgo).
  apply rep_inv in Hgo as (q2 & s2 & -> & Hq2 & _ & _ & Hgo).
  destruct (xorb _ _); [|discriminate]. injection Hgo as <-. cbn [r_caps].
  exists (q1 ++ q2), s2. split; [|now rewrite List.app_assoc].
  replace (rev q2 ++ rev q1 ++ bef) with (rev (q1 ++ q2) ++ bef)
    by (now rewrite List.rev_app_distr, <- List.app_assoc).
  rewrite closeGroup_text, List.rev_involutive. reflexivity.
Qed.

Lemma codesOfCell_text cellValue code :
  In code (codesOfCell cellValue) ->
  exists s bef aft, cellValue = CString s /\ s = bef ++ code ++ aft.
Proof.
  destruct cellValue as [s| | |]; simpl; try tauto.
  destruct (truthy s); [|simpl; tauto].
  intros Hin. apply List.filter_In in Hin as [Hin _].
  apply list_elem_of_In, list_elem_of_omap in Hin as (m & Hm & Hg).
  apply list_elem_of_In, scan_inv in Hm as (bef & s' & r & Hgo & -> & Hs).
  apply unitCodePattern_text in Hgo as (code' & rest & Hc & ->).
  unfold group, mkFound in Hg. cbn [groups] in Hg. rewrite Hc in Hg.
  simpl in Hg. injection Hg as <-.
  exists s, (rev bef), rest. split; [reflexivity|]. simpl in Hs. now rewrite Hs.
Qed.

Lemma canon_digit c : isDigit (canon c) = isDigit c.
Proof.
  unfold canon, isLower, isDigit.
  destruct (N.leb_spec 97 c); simpl; [|reflexivity].
  destruct (N.leb_spec c 122); simpl; [|reflexivity].
  destruct (N.leb_spec 48 c), (N.leb_spec 48 (c - 32)); simpl;
    destruct (N.leb_spec c 57), (N.leb_spec (c - 32) 57); simpl; try reflexivity; lia.
Qed.

Lemma digits_toUpperCase code :
  List.length (List.filter isDigit (toUpperCase code))
  = List.length (List.filter isDigit code).
Proof.
  induction code as [|c code IH]; [reflexivity|].
  simpl. rewrite canon_digit. destruct (isDigit c); simpl; now rewrite IH.
Qed.

Lemma excluded_no_digit w :
  In w excludeList -> List.length (List.filter isDigit w) = 0%nat.
Proof.
  unfold excludeList. simpl.
  intros H. repeat (destruct H as [<-|H]; [reflexivity|]). destruct H.
Qed.

Lemma denylist_needs_no_digit code :
  arrayIncludes excludeList (toUpperCase code) = true ->
  List.length (matchAll oneDigit code) = 0%nat.
Proof.
  intros H. apply arrayIncludes_In, excluded_no_digit in H.
  unfold matchAll, oneDigit. now rewrite scan_oneDigit, <- digits_toUpperCase.
Qed.

End ExtractorFacts.

Section ExtractorExtras.
Import Js Regex IdentifierExtractor.

(** X1 (readUnitCodesFromExcel): what a call that returns, returns.
    No identifier comes twice (removing duplicates again changes
    nothing); every identifier is a piece of the text of a string cell
    that was read; sheets read after those of the workbook only add
    identifiers behind the ones already returned; and reading the same
    sheets a second time adds none. *)
Theorem extractor_returns_each_code_once filepath file columnName codes :
  readUnitCodesFromExcel filepath file columnName = Return codes ->
  List.NoDup codes /\ unique codes = codes /\
  exists wb,
    file = Some wb /\
    (forall code, In code codes ->
       exists sh r s bef aft,
         In sh wb /\ In r (rows sh) /\
         In (CString s) (columnsOf columnName r) /\ s = bef ++ code ++ aft) /\
    (forall more, exists added,
       readUnitCodesFromExcel filepath (Some (wb ++ more)) columnName
       = Return (codes ++ added)) /\
    readUnitCodesFromExcel filepath (Some (wb ++ wb)) columnName = Return codes.
Proof.
  destruct file as [wb|]; simpl; [|discriminate].
  intros H. injection H as <-.
  split; [apply unique_NoDup|]. split.
  { apply uniqueFrom_fixed; [apply unique_NoDup | intros x _ []]. }
  exists wb. split; [reflexivity|]. split; [|split].
  - intros code Hin.
    apply unique_In, codesOfSheets_In in Hin as (sh & r & c & Hsh & Hr & Hc & Hin).
    apply codesOfCell_text in Hin as (s & bef & aft & -> & Hs).
    exists sh, r, s, bef, aft. auto.
  - intros more. unfold unique. rewrite List.flat_map_app.
    destruct (uniqueFrom_app [] (flat_map (codesOfSheet columnName) wb)
                (flat_map (codesOfSheet columnName) more)) as (seen' & _ & ->).
    eauto.
  - unfold unique. rewrite List.flat_map_app.
    destruct (uniqueFrom_app [] (flat_map (codesOfSheet columnName) wb)
                (flat_map (codesOfSheet columnName) wb)) as (seen' & Hseen & ->).
    rewrite (uniqueFrom_seen seen'), List.app_nil_r; [reflexivity|].
    intros x Hx. apply Hseen. auto.
Qed.

Lemma extractor_returns_each_code_once_witness :
  let codes := [lit "MARA022"; lit "HLTAID011"] in
  List.NoDup codes /\
  readUnitCodesFromExcel (lit "Units.xlsx") (Some (scenarioA ++ scenarioA)) []
  = Return codes.
Proof.
  intros codes.
  destruct (extractor_returns_each_code_once (lit "Units.xlsx") (Some scenarioA)
              [] codes) as (Hnd & _ & wb & Hwb & _ & _ & Htwice).
  - vm_compute. reflexivity.
  - injection Hwb as <-. split; [exact Hnd | exact Htwice].
Defined.

(** X2 (readUnitCodesFromExcel, isValidUnitCode): every identifier
    returned is written in upper-case letters and digits only and passes
    the validation filter; the lower-case letters the last pattern of the
    filter allows never reach the result. *)
Theorem extractor_returns_upper_case_codes filepath file columnName codes :
  readUnitCodesFromExcel filepath file columnName = Return codes ->
  Forall (fun code => forallb isUpperOrDigit code = true /\
                      isValidUnitCode code = true) codes.
Proof.
  destruct file as [wb|]; simpl; [|discriminate].
  intros H. injection H as <-. apply List.Forall_forall. intros code Hin.
  split; [|now apply (readUnitCodes_valid wb columnName)].
  apply unique_In, codesOfSheets_In in Hin as (sh & r & c & _ & _ & _ & Hin).
  now apply (codesOfCell_upper c).
Qed.

Lemma extractor_returns_upper_case_codes_witness :
  Forall (fun code => forallb isUpperOrDigit code = true /\
                      isValidUnitCode code = true)
         [lit "MARA022"; lit "HLTAID011"].
Proof.
  apply (extractor_returns_upper_case_codes (lit "Units.xlsx") (Some scenarioA) []).
  vm_compute. reflexivity.
Defined.

(** X3 (isValidUnitCode): the denylist test never decides.  A code on
    the denylist has no digit and is rejected by the digit count before
    the denylist is looked at, so the filter is the conjunction of its
    four other tests. *)
Theorem denylist_is_redundant code :
  isValidUnitCode code =
    negb ((List.length code <? 6)%nat || (12 <? List.length code)%nat)
    && test leadingLetters code
    && negb (List.length (matchAll oneDigit code) <? 3)%nat
    && test validPattern code.
Proof.
  unfold isValidUnitCode.
  destruct ((List.length code <? 6)%nat || (12 <? List.length code)%nat);
    [reflexivity|].
  destruct (test leadingLetters code); [|reflexivity]. cbn [negb andb].
  destruct (List.length (matchAll oneDigit code) <? 3)%nat eqn:Hd; [reflexivity|].
  destruct (arrayIncludes excludeList (toUpperCase code)) eqn:Hex; [|reflexivity].
  apply denylist_needs_no_digit in Hex. rewrite Hex in Hd. discriminate.
Qed.

End ExtractorExtras.

(** ** The status, release, description and prerequisite fields *)

Section FieldFacts.
Import Js Regex IdentifierExtractor DocumentExtractor DocumentFields.

(** The first match of a search, with its position in the input. *)
Lemma execFrom_at items bef s m :
  execFrom items bef s = Some m ->
  exists bef' s' r,
    go items bef' s' nocaps = Some r /\ m = mkFound bef' r /\
    rev bef' ++ s' = rev bef ++ s.
Proof.
  revert bef; induction s as [|c s IH]; intros bef; simpl.
  - destruct (go items bef [] nocaps) as [r|] eqn:Hgo; [|discriminate].
    intros H. injection H as <-. exists bef, [], r. auto.
  - destruct (go items bef (c :: s) nocaps) as [r|] eqn:Hgo.
    + intros H. injection H as <-. exists bef, (c :: s), r. auto.
    + intros H. apply IH in H as (bef' & s' & r & Hgo' & Hm & Hpos).
      exists bef', s', r. repeat split; auto.
      rewrite Hpos. simpl. now rewrite <- List.app_assoc.
Qed.

(** A literal under the [i] flag takes a word that differs from it in
    the case of its letters at most. *)
Lemma go_literal_word (l : list N) rest bef s caps r :
  go (List.map ChrI l ++ rest) bef s caps = Some r ->
  exists w s',
    s = w ++ s' /\ toUpperCase w = toUpperCase l /\
    go rest (rev w ++ bef) s' caps = Some r.
Proof.
  revert bef s; induction l as [|x l IH]; intros bef s; simpl.
  - intros H. exists [], s. auto.
  - destruct s as [|c s]; [discriminate|].
    destruct (N.eqb_spec (canon c) (canon x)) as [Hc|]; [|discriminate].
    intros H. apply IH in H as (w & s' & -> & Hw & Hgo).
    exists (c :: w), s'. split; [reflexivity|]. split.
    + simpl. now rewrite Hc, Hw.
    + simpl. now rewrite <- List.app_assoc.
Qed.

(** The tail of the title and description patterns, [\s*(.+)$]: the
    group is what is left of the input after the white space. *)
Lemma go_tail_group bef s caps r :
  go [Star isSpace; Open 1; Plus isDot; Close 1; Eol] bef s caps = Some r ->
  exists sp g,
    s = sp ++ g /\ forallb isSpace sp = true /\ g <> [] /\
    forallb isDot g = true /\ closed (r_caps r) = (1%nat, g) :: closed caps.
Proof.
  unfold Star, Plus. intros Hgo. simpl in Hgo.
  apply rep_inv in Hgo as (sp & s1 & -> & Hsp & _ & _ & Hgo).
  apply rep_inv in Hgo as (g & s2 & -> & Hg & Hlen & _ & Hgo).
  destruct s2; [|discriminate]. injection Hgo as <-. cbn [r_caps].
  exists sp, g. rewrite List.app_nil_r. repeat split; auto.
  - intros ->. simpl in Hlen. lia.
  - rewrite closeGroup_text, List.rev_involutive. reflexivity.
Qed.

(** The end of a trimmed text is not white space, so a group that
    reaches it is not blank. *)
Lemma tail_not_blank y a g :
  trim y = a ++ g -> g <> [] -> truthy (trim g) = true.
Proof.
  intros Hy Hg.
  destruct (List.exists_last Hg) as (g' & c & ->).
  assert (Hc : isSpace c = false).
  { apply (trim_last y (a ++ g')). now rewrite Hy, List.app_assoc. }
  assert (Hin : In c (trim (g' ++ [c]))).
  { apply trim_keeps; [|exact Hc]. apply List.in_or_app. right. now left. }
  destruct (trim (g' ++ [c])); [destruct Hin | reflexivity].
Qed.

(** What one pill does to the status. *)
Lemma statusStep_cases st pillText :
  (statusStep None pillText = None /\ statusStep st pillText = st) \/
  (exists s, statusStep None pillText = Some s /\
             statusStep st pillText = Some s /\ vocabulary s).
Proof.
  unfold statusStep, vocabulary.
  destruct (eqs (toLowerCase (trim pillText)) (lit "current")) eqn:H1.
  { apply eqs_eq in H1. rewrite H1. right. eexists. repeat split. now left. }
  destruct (eqs (toLowerCase (trim pillText)) (lit "superseded")) eqn:H2.
  { apply eqs_eq in H2. rewrite H2. right. eexists. repeat split. right. now left. }
  destruct (eqs (toLowerCase (trim pillText)) (lit "deleted")) eqn:H3.
  { apply eqs_eq in H3. rewrite H3. right. eexists. repeat split. right. now right. }
  left. split; reflexivity.
Qed.

End FieldFacts.

Section FieldExtras.
Import Js Regex IdentifierExtractor DocumentExtractor DocumentFields.

(** X4 (extractStatus): the status is absent when no pill names one;
    otherwise it is the one named by the last pill whose text is
    'current', 'superseded' or 'deleted' whatever its case and the white
    space around it, written 'Current', 'Superseded' or 'Deleted'. *)
Theorem status_is_last_pill_of_vocabulary pills releaseText :
  let status := (extractStatus pills releaseText).1 in
  (status = None /\ Forall (fun p => statusStep None p = None) pills) \/
  (exists before p after s,
     pills = before ++ p :: after /\
     Forall (fun q => statusStep None q = None) after /\
     statusStep None p = Some s /\ status = Some s /\ vocabulary s).
Proof.
  unfold extractStatus. cbn [fst]. cbv zeta.
  induction pills as [|p pills IH] using List.rev_ind.
  - left. split; [reflexivity | constructor].
  - rewrite List.fold_left_app. cbn [fold_left].
    destruct (statusStep_cases (fold_left statusStep pills None) p)
      as [[Hn ->]|(s & Hs & -> & Hv)].
    + destruct IH as [[-> Hall]|(before & q & after & s & -> & Hall & Hq & -> & Hv)].
      * left. split; [reflexivity|].
        apply List.Forall_app. split; [exact Hall | now constructor].
      * right. exists before, q, (after ++ [p]), s.
        rewrite <- List.app_assoc. repeat split; auto.
        apply List.Forall_app. split; [exact Hall | now constructor].
    + right. exists pills, p, [], s. repeat split; auto.
Qed.

(** X5 (extractStatus): a release is returned exactly as 'Release '
    followed by the digits that come after the word 'release', in any
    case and after any white space, in the text around the release
    label; the digits are never empty. *)
Theorem release_is_normalised pills releaseText release :
  (extractStatus pills releaseText).2 = Some release ->
  exists a word sp digits b,
    releaseText = a ++ word ++ sp ++ digits ++ b /\
    toUpperCase word = lit "RELEASE" /\
    forallb isSpace sp = true /\
    digits <> [] /\ forallb isDigit digits = true /\
    release = lit "Release " ++ digits.
Proof.
  unfold extractStatus. cbn [snd].
  destruct (exec releasePattern releaseText) as [m|] eqn:Hex; [|discriminate].
  intros H. injection H as <-.
  apply execFrom_at in Hex as (bef & s & r & Hgo & -> & Hpos).
  unfold releasePattern, LitI in Hgo.
  apply go_literal_word in Hgo as (w & s1 & -> & Hw & Hgo).
  unfold Star, Plus in Hgo. simpl in Hgo.
  apply rep_inv in Hgo as (sp & s2 & -> & Hsp & _ & _ & Hgo).
  apply rep_inv in Hgo as (ds & s3 & -> & Hds & Hlen & _ & Hgo).
  injection Hgo as <-.
  exists (rev bef), w, sp, ds, s3. simpl in Hpos. repeat split; auto.
  - intros ->. simpl in Hlen. lia.
  - unfold groupText, group, mkFound. cbn [groups r_caps].
    rewrite closeGroup_text, List.rev_involutive. reflexivity.
Qed.

Lemma release_is_normalised_witness :
  exists a word sp digits b,
    lit "Release  3 (current)" = a ++ word ++ sp ++ digits ++ b /\
    toUpperCase word = lit "RELEASE" /\
    forallb isSpace sp = true /\
    digits <> [] /\ forallb isDigit digits = true /\
    lit "Release 3" = lit "Release " ++ digits.
Proof.
  apply (release_is_normalised [] (lit "Release  3 (current)")).
  vm_compute. reflexivity.
Defined.

End FieldExtras.

Section DescriptionFacts.
Import Js Regex IdentifierExtractor DocumentExtractor DocumentFields.

Lemma go_Rep p lo hi rest bef s caps :
  go (Rep p lo hi :: rest) bef s caps
  = rep (fun b t => go rest b t caps) p s bef lo hi.
Proof. reflexivity. Qed.

(** A match of the description pattern on a trimmed paragraph. *)
Lemma descriptionPattern_match y m :
  exec descriptionPattern (trim y) = Some m ->
  exists sp0 label sp g,
    trim y = sp0 ++ label ++ sp ++ g /\
    toUpperCase label = lit "DESCRIPTION:" /\
    forallb isSpace sp0 = true /\ forallb isSpace sp = true /\
    groupText 1 m = g /\ truthy (trim g) = true.
Proof.
  intros Hex. apply execFrom_at in Hex as (bef & s & r & Hgo & -> & Hpos).
  unfold descriptionPattern, LitI in Hgo. cbn [app] in Hgo.
  change (go (Bol :: ?l) bef s nocaps) with
    (match bef with [] => go l bef s nocaps | _ => None end) in Hgo.
  destruct bef; [|discriminate]. simpl in Hpos. subst s.
  unfold Star at 1 in Hgo. rewrite go_Rep in Hgo.
  apply rep_inv in Hgo as (sp0 & s1 & Hs & Hsp0 & _ & _ & Hgo).
  apply go_literal_word in Hgo as (label & s2 & -> & Hlabel & Hgo).
  apply go_tail_group in Hgo as (sp & g & -> & Hsp & Hg & _ & Hc).
  exists sp0, label, sp, g. repeat split; auto.
  - unfold groupText, group, mkFound. cbn [groups]. now rewrite Hc.
  - apply (tail_not_blank y (sp0 ++ label ++ sp)); [|exact Hg].
    rewrite Hs, <- !List.app_assoc. reflexivity.
Qed.

Lemma extractDescription_inv paragraphs d :
  extractDescription paragraphs = Some d ->
  truthy d = true /\
  exists before p after sp0 label sp g,
    paragraphs = before ++ p :: after /\
    Forall (fun q => test descriptionPattern (trim q) = false) before /\
    trim p = sp0 ++ label ++ sp ++ g /\
    toUpperCase label = lit "DESCRIPTION:" /\
    forallb isSpace sp0 = true /\ forallb isSpace sp = true /\
    d = trim g.
Proof.
  induction paragraphs as [|p rest IH]; simpl; [discriminate|].
  destruct (exec descriptionPattern (trim p)) as [m|] eqn:Hex.
  - intros H. injection H as <-.
    apply descriptionPattern_match in Hex
      as (sp0 & label & sp & g & Hp & Hl & H0 & H1 & -> & Ht).
    split; [exact Ht|]. exists [], p, rest, sp0, label, sp, g.
    repeat split; auto.
  - intros H. apply IH in H
      as (Ht & before & q & after & sp0 & label & sp & g & -> & Hb & Hrest).
    split; [exact Ht|]. exists (p :: before), q, after, sp0, label, sp, g.
    split; [reflexivity|]. split; [|exact Hrest].
    constructor; [|exact Hb]. unfold test. now rewrite Hex.
Qed.

(** A match of the code pattern between word boundaries. *)
Lemma codePattern_whole bef s r :
  go ([Wb] ++ codeItems isUpper ++ [Wb]) bef s nocaps = Some r ->
  exists letters mid digits,
    s = (letters ++ mid ++ digits) ++ r_rest r /\
    r_bef r = rev (letters ++ mid ++ digits) ++ bef /\
    (2 <= List.length letters)%nat /\ forallb isUpper letters = true /\
    forallb isWord mid = true /\
    (2 <= List.length digits)%nat /\ forallb isDigit digits = true.
Proof.
  unfold codeItems, AtLeast, Star. intros Hgo. simpl in Hgo.
  destruct (xorb (hdWord bef) (hdWord s)); [|discriminate].
  apply rep_inv in Hgo as (q1 & s1 & -> & H1 & L1 & _ & Hgo).
  apply rep_inv in Hgo as (q2 & s2 & -> & H2 & _ & _ & Hgo).
  apply rep_inv in Hgo as (q3 & s3 & -> & H3 & L3 & _ & Hgo).
  destruct (xorb _ _); [|discriminate]. injection Hgo as <-.
  exists q1, q2, q3. cbn [r_rest r_bef]. repeat split; auto.
  - now rewrite <- !List.app_assoc.
  - now rewrite !List.rev_app_distr, <- !List.app_assoc.
Qed.

End DescriptionFacts.

Section DescriptionExtras.
Import Js Regex IdentifierExtractor DocumentExtractor DocumentFields.

(** X6 (parseUocHtml, the description loop): the description comes from
    the first paragraph whose trimmed text reads 'Description:', in any
    case, followed by something on the same line up to the end of the
    paragraph; it is that rest, trimmed, and it is never blank. *)
Theorem description_is_first_match_and_not_blank paragraphs d :
  extractDescription paragraphs = Some d ->
  truthy d = true /\
  exists before p after sp0 label sp g,
    paragraphs = before ++ p :: after /\
    Forall (fun q => test descriptionPattern (trim q) = false) before /\
    trim p = sp0 ++ label ++ sp ++ g /\
    toUpperCase label = lit "DESCRIPTION:" /\
    forallb isSpace sp0 = true /\ forallb isSpace sp = true /\
    d = trim g.
Proof. apply extractDescription_inv. Qed.

Lemma description_is_first_match_and_not_blank_witness :
  truthy (lit "Deck duties") = true /\
  exists before p after sp0 label sp g,
    [lit "Intro"; lit " description:  Deck duties "; lit "Description: other"]
      = before ++ p :: after /\
    Forall (fun q => test descriptionPattern (trim q) = false) before /\
    trim p = sp0 ++ label ++ sp ++ g /\
    toUpperCase label = lit "DESCRIPTION:" /\
    forallb isSpace sp0 = true /\ forallb isSpace sp = true /\
    lit "Deck duties" = trim g.
Proof.
  apply (description_is_first_match_and_not_blank
           [lit "Intro"; lit " description:  Deck duties "; lit "Description: other"]).
  vm_compute. reflexivity.
Defined.

(** X7 (parseUocHtml, the prerequisites): when a prerequisite text is
    found, the codes returned are distinct, and each is a piece of the
    text made of two capital letters at least, then word characters,
    then two digits at least. *)
Theorem prerequisites_are_distinct_codes raw codes :
  extractPrerequisites (Some raw) = Some codes ->
  List.NoDup codes /\
  Forall (fun code =>
            exists a b letters mid digits,
              raw = a ++ code ++ b /\ code = letters ++ mid ++ digits /\
              (2 <= List.length letters)%nat /\ forallb isUpper letters = true /\
              forallb isWord mid = true /\
              (2 <= List.length digits)%nat /\ forallb isDigit digits = true)
         codes.
Proof.
  unfold extractPrerequisites. destruct (truthy raw); [|discriminate].
  intros H. injection H as <-. split; [apply unique_NoDup|].
  apply List.Forall_forall. intros code Hin.
  apply unique_In, List.in_map_iff in Hin as (m & <- & Hm).
  apply scan_inv in Hm as (bef & s & r & Hgo & -> & Hpos).
  apply codePattern_whole in Hgo
    as (letters & mid & digits & Hs & Hb & L1 & H1 & H2 & L3 & H3).
  rewrite (whole_consumed bef r _ Hb).
  exists (rev bef), (r_rest r), letters, mid, digits.
  simpl in Hpos. rewrite <- Hpos, Hs, <- !List.app_assoc. repeat split; auto.
Qed.

Lemma prerequisites_are_distinct_codes_witness :
  List.NoDup [lit "MARB027"; lit "HLTAID011"] /\
  Forall (fun code =>
            exists a b letters mid digits,
              lit "MARB027, HLTAID011 or MARB027" = a ++ code ++ b /\
              code = letters ++ mid ++ digits /\
              (2 <= List.length letters)%nat /\ forallb isUpper letters = true /\
              forallb isWord mid = true /\
              (2 <= List.length digits)%nat /\ forallb isDigit digits = true)
         [lit "MARB027"; lit "HLTAID011"].
Proof.
  apply (prerequisites_are_distinct_codes (lit "MARB027, HLTAID011 or MARB027")).
  vm_compute. reflexivity.
Defined.

(** X8 (parseUoc): the title is null exactly when the document has no
    second-level heading text, and a title or a description that is
    returned is never blank. *)
Theorem parseUoc_texts_are_not_blank d :
  (s_title (parseUoc d) = None <-> textOf (doc_h2 d) = []) /\
  (forall t, s_title (parseUoc d) = Some t -> truthy t = true) /\
  (forall x, s_description (parseUoc d) = Some x -> truthy x = true).
Proof.
  unfold parseUoc. cbn [s_title s_description]. split; [|split].
  - destruct (textOf (doc_h2 d)) as [|c t] eqn:Hh2; cbn [truthy].
    + split; reflexivity.
    + destruct (exec titlePattern (c :: t)); split; discriminate.
  - intros t. destruct (truthy (textOf (doc_h2 d))) eqn:Hh2; [|discriminate].
    destruct (exec titlePattern (textOf (doc_h2 d))) as [m|] eqn:Hex.
    + intros H. injection H as <-.
      destruct (doc_h2 d) as [y|]; [|discriminate]. cbn [textOf] in *.
      apply execFrom_at in Hex as (bef & s & r & Hgo & -> & Hpos).
      unfold titlePattern, LitI in Hgo.
      apply go_literal_word in Hgo as (w & s1 & -> & _ & Hgo).
      apply go_tail_group in Hgo as (sp & g & -> & _ & Hg & _ & Hc).
      unfold groupText, group, mkFound. cbn [groups]. rewrite Hc.
      cbn [assoc Nat.eqb default]. simpl in Hpos.
      apply (tail_not_blank y (rev bef ++ w ++ sp)); [|exact Hg].
      rewrite <- Hpos, <- !List.app_assoc. reflexivity.
    + intros H. injection H as <-. exact Hh2.
  - intros x Hx. now apply extractDescription_inv in Hx as [Hx _].
Qed.

End DescriptionExtras.

(** ** The error log between two runs *)

Section ErrorLogFacts.
Import Js OutcomeStore AutoSync.

(** An entry of the log as [loadPreviousErrors] reads it. *)
Local Abbreviation loaded stamp err :=
  {| ue_code := err_code err; error := err_error err;
     attempts := numOr (err_attempts err) 1;
     lastAttempt := strOr (err_lastAttempt err) stamp |}.

Lemma load_fold (stamp : list N) (errs : list errorEntry)
    (m : gmap (list N) UnitError) (code : list N) :
  fold_left (fun errorMap err => <[err_code err := loaded stamp err]> errorMap) errs m
    !! code
  = match List.find (fun e => eqs (err_code e) code) (rev errs) with
    | Some e => Some (loaded stamp e)
    | None => m !! code
    end.
Proof.
  induction errs as [|e errs IH] using List.rev_ind; [reflexivity|].
  rewrite List.fold_left_app, List.rev_app_distr. cbn [fold_left rev app List.find].
  destruct (eqs (err_code e) code) eqn:He.
  - apply eqs_eq in He. subst code. apply lookup_insert_eq.
  - apply eqs_neq in He. rewrite lookup_insert_ne by exact He. exact IH.
Qed.

Lemma find_map {A B} (f : A -> B) (p : B -> bool) (l : list A) :
  List.find p (List.map f l) = f <$> List.find (fun a => p (f a)) l.
Proof.
  induction l as [|a l IH]; [reflexivity|]. simpl.
  destruct (p (f a)); [reflexivity | exact IH].
Qed.

Lemma loaded_after_save d stamp inv (errs : list UnitError) total valid
    (stamp' code : list N) :
  loadPreviousErrors (saveErrorLog d stamp inv errs total valid) stamp' !! code
  = (fun u => {| ue_code := ue_code u; error := error u;
                 attempts := numOr (Some (attempts u)) 1;
                 lastAttempt := strOr (Some (lastAttempt u)) stamp' |})
    <$> List.find (fun u => eqs (ue_code u) code) (rev errs).
Proof.
  unfold loadPreviousErrors, saveErrorLog, setErrorLog.
  cbn [errorLogFile log_errorUnits].
  rewrite load_fold, <- List.map_rev, find_map. cbn [err_code].
  destruct (List.find _ (rev errs)); reflexivity.
Qed.

End ErrorLogFacts.

Section ErrorLogExtras.
Import Js OutcomeStore AutoSync Scenarios.

(** X9 (saveErrorLog, loadPreviousErrors): what a run saves as pending
    the next run loads back.  For every identifier the loaded entry is
    the last one saved for it, with its message, and with its count and
    its time unless the count is 0 or the time is empty, which are
    loaded as 1 and as the time of loading; an identifier that was not
    saved is not loaded, whatever the log held before. *)
Theorem saved_errors_are_loaded_back d stamp invalidUnits errorUnits
    totalChecked validCount stamp' code :
  let previousErrors :=
    loadPreviousErrors
      (saveErrorLog d stamp invalidUnits errorUnits totalChecked validCount) stamp' in
  let saved := List.find (fun u => eqs (ue_code u) code) (rev errorUnits) in
  previousErrors !! code
    = (fun u => {| ue_code := ue_code u; error := error u;
                   attempts := numOr (Some (attempts u)) 1;
                   lastAttempt := strOr (Some (lastAttempt u)) stamp' |}) <$> saved /\
  (forall u, saved = Some u -> attempts u <> 0%Z -> lastAttempt u <> [] ->
             previousErrors !! code = Some u).
Proof.
  cbv zeta. split; [apply loaded_after_save|].
  intros u Hu Ha Hl. rewrite loaded_after_save, Hu. cbn [fmap option_fmap option_map].
  f_equal. destruct u as [c e a l]. cbn in *. f_equal.
  - destruct (Z.eqb_spec a 0); [contradiction | reflexivity].
  - destruct l; [contradiction | reflexivity].
Qed.

Lemma saved_errors_are_loaded_back_witness :
  loadPreviousErrors
    (saveErrorLog noFiles stamp [] [pendingAfter "TIMEOUT001" 2] 1 0) []
    !! lit "TIMEOUT001"
  = Some (pendingAfter "TIMEOUT001" 2).
Proof.
  apply (saved_errors_are_loaded_back noFiles stamp [] [pendingAfter "TIMEOUT001" 2]
           1 0 [] (lit "TIMEOUT001")).
  - reflexivity.
  - discriminate.
  - discriminate.
Defined.

End ErrorLogExtras.

(** ** The validation accounts for every code of the queue *)

Section AccountingFacts.
Import Js FetchEngine OutcomeStore AutoSync.

Variable E : env.
Variable previousErrors : gmap (list N) UnitError.

(** The codes a validation state has an outcome for. *)
Local Abbreviation outcomes st :=
  (validUnits st ++ List.map fst (invalidUnits st) ++ List.map fst (errorUnits st)).

(** Every entry of the map of failures is filed under its own code. *)
Local Abbreviation keyed st :=
  (forall k v, In (k, v) (errorUnits st) -> ue_code v = k).

Lemma mapSet_new {V} (m : list (list N * V)) k v :
  ~ In k (List.map fst m) -> mapSet eqs m k v = m ++ [(k, v)].
Proof.
  induction m as [|[k' v'] m IH]; intros Hk; [reflexivity|].
  simpl. destruct (eqs k' k) eqn:He.
  - apply eqs_eq in He. subst k'. destruct Hk. now left.
  - f_equal. apply IH. intros Hin. apply Hk. now right.
Qed.

Lemma validateOne_accounts st code :
  ~ In code (outcomes st) -> keyed st ->
  outcomes (validateOne E previousErrors st code) ≡ₚ outcomes st ++ [code] /\
  keyed (validateOne E previousErrors st code).
Proof.
  intros Hnew Hkeyed. unfold validateOne.
  destruct (cachedGet E (fetcher st) (unitUrl code) (trace st)) as [[r cf] tr].
  destruct r as [html|err].
  - destruct (includes html (lit "Unit of competency")
              || includes html (lit "Performance Criteria")
              || includes html (lit "Performance evidence")).
    { cbn [validUnits invalidUnits errorUnits]. split; [|exact Hkeyed].
      solve_Permutation. }
    destruct (includes html (lit "404") || includes html (lit "not found"));
      cbn [validUnits invalidUnits errorUnits]; (split; [|exact Hkeyed]);
      rewrite List.map_app; cbn [List.map fst]; solve_Permutation.
  - unfold categorizeError. cbn [validUnits invalidUnits errorUnits AutoSync.trace].
    destruct (includes (errText err) (lit "404")
              || includes (errText err) (lit "not found")).
    { cbn [validUnits invalidUnits errorUnits]. split; [|exact Hkeyed].
      rewrite List.map_app. cbn [List.map fst]. solve_Permutation. }
    cbn [validUnits invalidUnits errorUnits].
    rewrite mapSet_new.
    2:{ intros Hin. apply Hnew. apply List.in_or_app. right.
        apply List.in_or_app. now right. }
    split.
    + rewrite List.map_app. cbn [List.map fst]. solve_Permutation.
    + intros k v Hin. apply List.in_app_or in Hin as [Hin|[Heq|[]]].
      * now apply Hkeyed.
      * injection Heq as <- <-. reflexivity.
Qed.

Lemma validateList_accounts codes st :
  List.NoDup codes -> (forall c, In c codes -> ~ In c (outcomes st)) -> keyed st ->
  outcomes (fold_left (validateOne E previousErrors) codes st) ≡ₚ outcomes st ++ codes /\
  keyed (fold_left (validateOne E previousErrors) codes st).
Proof.
  revert st; induction codes as [|c codes IH]; intros st Hnd Hnew Hkeyed.
  - simpl. rewrite List.app_nil_r. auto.
  - inversion Hnd as [|? ? Hc Hnd']; subst. cbn [fold_left].
    destruct (validateOne_accounts st c) as [Hp Hk]; [apply Hnew; now left | exact Hkeyed |].
    destruct (IH (validateOne E previousErrors st c)) as [Hp' Hk']; [exact Hnd' | | exact Hk |].
    + intros x Hx Hin. apply (Permutation_in _ Hp) in Hin.
      apply List.in_app_or in Hin as [Hin|[<-|[]]].
      * apply (Hnew x); [now right | exact Hin].
      * contradiction.
    + split; [|exact Hk'].
      rewrite Hp', Hp, <- List.app_assoc. reflexivity.
Qed.

Lemma validateBatches_accounts fuel codes st :
  (List.length codes <= fuel)%nat ->
  List.NoDup codes -> (forall c, In c codes -> ~ In c (outcomes st)) -> keyed st ->
  outcomes (validateBatches E previousErrors fuel codes st) ≡ₚ outcomes st ++ codes /\
  keyed (validateBatches E previousErrors fuel codes st).
Proof.
  revert codes st; induction fuel as [|fuel IH]; intros codes st Hfuel Hnd Hnew Hkeyed.
  - destruct codes; [|simpl in Hfuel; lia]. simpl. rewrite List.app_nil_r. auto.
  - destruct codes as [|c0 codes0] eqn:Hcodes.
    { simpl. rewrite List.app_nil_r. auto. }
    rewrite <- Hcodes in *. cbn [validateBatches].
    assert (Hq : match codes with [] => False | _ => True end) by now subst.
    destruct codes as [|c1 codes1] eqn:Hc1; [destruct Hq|]. rewrite <- Hc1 in *.
    clear Hq Hcodes c0 codes0.
    assert (Hsplit : codes = firstn 5 codes ++ skipn 5 codes)
      by (symmetry; apply List.firstn_skipn).
    assert (Hnd' := Hnd). rewrite Hsplit in Hnd'.
    apply NoDup_ListNoDup, NoDup_app in Hnd' as (Hnd1 & Hdisj & Hnd2).
    apply NoDup_ListNoDup in Hnd1, Hnd2.
    destruct (validateList_accounts (firstn 5 codes) st) as [Hp Hk];
      [exact Hnd1 | | exact Hkeyed |].
    { intros x Hx. apply Hnew. rewrite Hsplit. apply List.in_or_app. now left. }
    set (st1 := fold_left (validateOne E previousErrors) (firstn 5 codes) st) in *.
    set (st2 := match skipn 5 codes with [] => st1 | _ => sleepBetweenBatches st1 end).
    assert (Hsame : outcomes st2 = outcomes st1 /\ errorUnits st2 = errorUnits st1).
    { unfold st2. destruct (skipn 5 codes); split; reflexivity. }
    destruct Hsame as [Ho He].
    destruct (IH (skipn 5 codes) st2) as [Hp2 Hk2].
    + rewrite List.length_skipn. subst codes. simpl in *. lia.
    + exact Hnd2.
    + intros x Hx. rewrite Ho. intros Hin. apply (Permutation_in _ Hp) in Hin.
      apply List.in_app_or in Hin as [Hin|Hin].
      * apply (Hnew x); [|exact Hin]. rewrite Hsplit. apply List.in_or_app. now right.
      * apply (Hdisj x); apply list_elem_of_In; assumption.
    + rewrite He. exact Hk.
    + split; [|exact Hk2].
      rewrite Hp2, Ho, Hp, <- List.app_assoc, <- Hsplit. reflexivity.
Qed.

Lemma validateAll_accounts codes cf :
  List.NoDup codes ->
  outcomes (validateAll E previousErrors codes cf) ≡ₚ codes /\
  keyed (validateAll E previousErrors codes cf).
Proof.
  intros Hnd. unfold validateAll.
  destruct (validateBatches_accounts (List.length codes) codes
              {| validUnits := []; invalidUnits := []; errorUnits := [];
                 fetcher := cf; trace := [] |}) as [Hp Hk]; auto.
  - intros k v [].
Qed.

End AccountingFacts.

(** ** What a run reports and what it leaves in the log *)

Section RunFacts.
Import Js Model FetchEngine DocumentExtractor OutcomeStore CrawlScheduler
       IdentifierExtractor AutoSync.

Variable E : env.
Variable load : list N -> page.
Variable stringify pretty : Uoc -> list N.
Variable parsedCode : list N -> option (option (list N)).

(** The crawler adds to the [errors] array of the log and leaves the
    rest of it as it is. *)
Local Abbreviation keepsUnits d d' :=
  (forall lg, errorLogFile d = Some lg ->
     exists lg', errorLogFile d' = Some lg' /\
       log_invalidUnits lg' = log_invalidUnits lg /\
       log_errorUnits lg' = log_errorUnits lg /\
       log_summary lg' = log_summary lg).

Lemma writeJsonl_errorLog svc d item :
  errorLogFile (writeJsonl stringify pretty parsedCode svc d item).2 = errorLogFile d.
Proof.
  unfold writeJsonl, removeUnit.
  destruct (bool_decide _); [|reflexivity].
  destruct (jsonlFile d); reflexivity.
Qed.

Lemma crawlOne_keeps st url :
  keepsUnits (c_disk st) (c_disk (crawlOne E load stringify pretty parsedCode st url)).
Proof.
  intros lg Hlg. unfold crawlOne.
  destruct (cachedGet E (c_fetcher st) url (c_trace st)) as [[r cf] tr].
  destruct r as [html|err].
  - pose proof (writeJsonl_errorLog (c_exporter st) (c_disk st)
                  (parseUocHtml load (isoTime E tr) html url)) as Hw.
    destruct (writeJsonl _ _ _ _ _ _) as [svc d']. cbn [c_disk snd] in *.
    exists lg. rewrite Hw. auto.
  - cbn [c_disk]. unfold logError. rewrite Hlg. cbn [errorLogFile setErrorLog].
    eexists. split; [reflexivity|]. auto.
Qed.

Lemma crawlFold_keeps urls st :
  keepsUnits (c_disk st)
    (c_disk (fold_left (crawlOne E load stringify pretty parsedCode) urls st)).
Proof.
  revert st; induction urls as [|u urls IH]; intros st lg Hlg; [eauto|].
  cbn [fold_left].
  destruct (crawlOne_keeps st u lg Hlg) as (lg1 & H1 & Hi & He & Hs).
  destruct (IH _ lg1 H1) as (lg2 & H2 & Hi2 & He2 & Hs2).
  exists lg2. repeat split; congruence.
Qed.

Lemma crawlUocUrls_keeps cf svc d tr urls :
  keepsUnits d (c_disk (crawlUocUrls E load stringify pretty parsedCode cf svc d tr urls)).
Proof.
  intros lg Hlg. unfold crawlUocUrls.
  assert (Hinit : errorLogFile (init parsedCode svc d).2 = Some lg).
  { unfold init. destruct (jsonlFile d); exact Hlg. }
  destruct (init parsedCode svc d) as [svc' d']. cbn [snd] in Hinit.
  match goal with |- context [fold_left ?f ?q ?s0] =>
    pose proof (crawlFold_keeps q s0 lg Hinit) as Hfold;
    destruct (cachedClose (c_fetcher (fold_left f q s0)) (c_trace (fold_left f q s0)))
  end.
  exact Hfold.
Qed.

(** A run with work to do: its validation, its counts and its log. *)
Lemma syncUnits_run config input output d o :
  syncUnits E load stringify pretty parsedCode config input output d = Return o ->
  queue o <> [] ->
  List.NoDup (queue o) /\
  let v := validateAll E (loadPreviousErrors d (isoTime E [])) (queue o)
             (newCachedFetcher syncFetcherOptions) in
  validCount (result o) = Z.of_nat (List.length (validUnits v)) /\
  invalidCount (result o) = Z.of_nat (List.length (invalidUnits v)) /\
  errorCount (result o) = Z.of_nat (List.length (errorUnits v)) /\
  success (result o) = (List.length (errorUnits v) =? 0)%nat /\
  exists lg,
    errorLogFile (files o) = Some lg /\
    log_invalidUnits lg
      = Some (List.map (fun u => {| inv_code := u.1; inv_reason := u.2;
                                    inv_permanent := true |}) (invalidUnits v)) /\
    log_errorUnits lg
      = Some (List.map (fun u => {| err_code := ue_code u; err_error := error u;
                                    err_attempts := Some (attempts u);
                                    err_lastAttempt := Some (lastAttempt u) |})
                       (mapValues (errorUnits v))) /\
    log_summary lg
      = Some {| totalChecked := Z.of_nat (List.length (queue o));
                s_valid := Z.of_nat (List.length (validUnits v));
                s_invalid := Z.of_nat (List.length (invalidUnits v));
                s_errors := Z.of_nat (List.length (mapValues (errorUnits v))) |}.
Proof.
  unfold syncUnits.
  destruct (readUnitCodesFromExcel (inputExcel config) input (inputColumn config))
    as [requestedCodes|e] eqn:Hread; [|discriminate].
  assert (Hnd : List.NoDup requestedCodes).
  { destruct input; simpl in Hread; [|discriminate].
    injection Hread as <-. apply unique_NoDup. }
  apply (plan_queue_NoDup (getExistingUnits output)
           (loadPreviousErrors d (isoTime E [])) (numOr (cfg_maxRetries config) 3)) in Hnd.
  cbv zeta.
  destruct (allUnitsToProcess _) as [|c0 all0] eqn:Hall.
  { intros H. injection H as <-. cbn [queue]. congruence. }
  rewrite <- Hall in *. clear Hall c0 all0.
  set (all := allUnitsToProcess _) in *.
  set (v := validateAll E _ all _).
  destruct (validUnits v) as [|v0 vs] eqn:Hvalid.
  - destruct (cachedClose (fetcher v) (trace v)) as [cf' tr'].
    intros H _. injection H as <-. cbn [queue result files]. fold v.
    rewrite Hvalid. cbn [validCount invalidCount errorCount success].
    split; [exact Hnd|]. repeat split; try reflexivity.
    eexists. unfold saveErrorLog, setErrorLog. cbn [errorLogFile].
    split; [reflexivity|]. cbn [log_invalidUnits log_errorUnits log_summary].
    repeat split; reflexivity.
  - rewrite <- Hvalid. intros H _. injection H as <-.
    cbn [queue result files]. fold v.
    cbn [validCount invalidCount errorCount success].
    split; [exact Hnd|]. repeat split; try reflexivity.
    match goal with |- context [crawlUocUrls _ _ _ _ _ ?cf ?svc ?d0 ?tr ?urls] =>
      destruct (crawlUocUrls_keeps cf svc d0 tr urls _ eq_refl) as (lg' & Hlg & Hi & He & Hs)
    end.
    exists lg'. split; [exact Hlg|]. rewrite Hi, He, Hs. repeat split; reflexivity.
Qed.

End RunFacts.

Section RunExtras.
Import Js Model FetchEngine DocumentExtractor OutcomeStore CrawlScheduler
       IdentifierExtractor AutoSync Scenarios.

Lemma find_nowhere {A} (f : A -> bool) (l : list A) :
  (forall x, In x l -> f x = false) -> List.find f l = None.
Proof.
  induction l as [|a l IH]; intros H; [reflexivity|]. simpl.
  rewrite (H a) by now left. apply IH. intros x Hx. apply H. now right.
Qed.

(** X10 (syncUnits, the validation batches): the validation gives every
    code of a queue without duplicates exactly one outcome.  The valid
    codes, the invalid codes and the codes of the failures are together
    a rearrangement of the queue, so the three counts add up to its
    length: no failure stops the validation and no code is counted
    twice. *)
Theorem validation_accounts_for_every_code
    (E : env) (previousErrors : gmap (list N) UnitError)
    (codes : list (list N)) (cf : CachedFetcher) :
  List.NoDup codes ->
  let v := validateAll E previousErrors codes cf in
  validUnits v ++ List.map fst (invalidUnits v) ++ List.map fst (errorUnits v)
    ≡ₚ codes /\
  (List.length (validUnits v) + List.length (invalidUnits v)
   + List.length (errorUnits v) = List.length codes)%nat.
Proof.
  intros Hnd v.
  destruct (validateAll_accounts E previousErrors codes cf Hnd) as [Hp _].
  fold v in Hp. split; [exact Hp|].
  apply Permutation_length in Hp.
  rewrite !List.length_app, !List.length_map in Hp. lia.
Qed.

Lemma validation_accounts_for_every_code_witness :
  let v := validateAll (always (Failed timeoutError)) ∅
             [lit "MARA022"; lit "HLTAID011"]
             (newCachedFetcher syncFetcherOptions) in
  (List.length (validUnits v) + List.length (invalidUnits v)
   + List.length (errorUnits v) = 2)%nat.
Proof.
  apply (validation_accounts_for_every_code (always (Failed timeoutError)) ∅
           [lit "MARA022"; lit "HLTAID011"] (newCachedFetcher syncFetcherOptions)).
  constructor; [intros [H|[]]; vm_compute in H; discriminate|].
  constructor; [intros [] | constructor].
Defined.

End RunExtras.

Section RunReport.
Import Js Model FetchEngine DocumentExtractor OutcomeStore CrawlScheduler
       IdentifierExtractor AutoSync Scenarios.

Lemma validation_counts (E : env) (previousErrors : gmap (list N) UnitError)
    (codes : list (list N)) (cf : CachedFetcher) :
  List.NoDup codes ->
  (List.length (validUnits (validateAll E previousErrors codes cf))
   + List.length (invalidUnits (validateAll E previousErrors codes cf))
   + List.length (errorUnits (validateAll E previousErrors codes cf))
   = List.length codes)%nat.
Proof.
  intros Hnd.
  destruct (validateAll_accounts E previousErrors codes cf Hnd) as [Hp _].
  apply Permutation_length in Hp.
  rewrite !List.length_app, !List.length_map in Hp. lia.
Qed.

(** X11 (syncUnits): the report of a run that had work to do adds up.
    The valid, invalid and error counts of the result sum to the length
    of the queue, the run succeeds exactly when the error count is 0
    (invalid identifiers do not make it fail), and the summary written
    to the log carries the same counts. *)
Theorem run_report_adds_up E load stringify pretty parsedCode
    config input output d o :
  syncUnits E load stringify pretty parsedCode config input output d = Return o ->
  queue o <> [] ->
  (validCount (result o) + invalidCount (result o) + errorCount (result o)
   = Z.of_nat (List.length (queue o)))%Z /\
  (success (result o) = true <-> errorCount (result o) = 0%Z) /\
  exists lg s,
    errorLogFile (files o) = Some lg /\ log_summary lg = Some s /\
    totalChecked s = Z.of_nat (List.length (queue o)) /\
    s_valid s = validCount (result o) /\
    s_invalid s = invalidCount (result o) /\
    s_errors s = errorCount (result o).
Proof.
  intros Hrun Hq.
  destruct (syncUnits_run E load stringify pretty parsedCode config input output d o
              Hrun Hq) as (Hnd & Hv & Hi & He & Hs & lg & Hlg & _ & _ & Hsum).
  pose proof (validation_counts E (loadPreviousErrors d (isoTime E [])) (queue o)
                (newCachedFetcher syncFetcherOptions) Hnd) as Hcount.
  rewrite Hv, Hi, He, Hs. split; [lia|]. split.
  - rewrite Nat.eqb_eq. lia.
  - eexists lg, _. split; [exact Hlg|]. split; [exact Hsum|].
    cbn [totalChecked s_valid s_invalid s_errors].
    unfold mapValues. rewrite List.length_map. auto.
Qed.

Lemma run_report_adds_up_witness :
  let r := run (always (Failed timeoutError)) (oneColumn ["TIMEOUT001"%string]) noFiles in
  match r with
  | Return o =>
      (validCount (result o) + invalidCount (result o) + errorCount (result o)
       = Z.of_nat (List.length (queue o)))%Z
  | Throw _ => False
  end.
Proof.
  cbv zeta.
  destruct (run (always (Failed timeoutError)) (oneColumn ["TIMEOUT001"%string]) noFiles)
    as [o|e] eqn:Hr.
  - apply (run_report_adds_up _ _ _ _ _ _ _ _ _ o Hr).
    vm_compute in Hr. injection Hr as <-. discriminate.
  - vm_compute in Hr. discriminate.
Defined.

(** X12 (syncUnits, saveErrorLog, loadPreviousErrors): a run that had
    work to do rewrites the log from its own failures only.  An
    identifier that was not in its queue, such as one skipped because
    its attempts were exhausted, has no pending entry afterwards, so the
    next planner takes it as new unless its record is present. *)
Theorem unprocessed_codes_are_forgotten E load stringify pretty parsedCode
    config input output d o (code stamp' : list N) :
  syncUnits E load stringify pretty parsedCode config input output d = Return o ->
  queue o <> [] ->
  ~ In code (queue o) ->
  loadPreviousErrors (files o) stamp' !! code = None /\
  forall existingUnits maxRetries,
    mapHas cellEqb existingUnits (CString code) = false ->
    classify existingUnits (loadPreviousErrors (files o) stamp') maxRetries code = new.
Proof.
  intros Hrun Hq Hout.
  destruct (syncUnits_run E load stringify pretty parsedCode config input output d o
              Hrun Hq) as (Hnd & _ & _ & _ & _ & lg & Hlg & _ & Herrs & _).
  destruct (validateAll_accounts E (loadPreviousErrors d (isoTime E [])) (queue o)
              (newCachedFetcher syncFetcherOptions) Hnd) as [Hp Hk].
  assert (Hnone : loadPreviousErrors (files o) stamp' !! code = None).
  { unfold loadPreviousErrors. rewrite Hlg, Herrs, load_fold.
    rewrite find_nowhere; [apply lookup_empty|].
    intros e He. apply List.in_rev, List.in_map_iff in He as (u & <- & Hu).
    cbn [err_code]. apply eqs_neq. intros Heq.
    apply List.in_map_iff in Hu as ([k u'] & Hsnd & Hin). cbn [snd] in Hsnd. subst u'.
    apply Hout, (Permutation_in _ Hp).
    apply List.in_or_app. right. apply List.in_or_app. right.
    apply List.in_map_iff. exists (k, u). split; [|exact Hin].
    cbn [fst]. rewrite <- (Hk k u Hin). exact Heq. }
  split; [exact Hnone|].
  intros existingUnits maxRetries Hex. unfold classify. now rewrite Hex, Hnone.
Qed.

Lemma unprocessed_codes_are_forgotten_witness :
  let d0 := saveErrorLog noFiles stamp [] [pendingAfter "TIMEOUT002" 3] 1 0 in
  let r := run (always (Failed timeoutError))
             (oneColumn ["TIMEOUT002"; "MARA022"]%string) d0 in
  (attempts <$> loadPreviousErrors d0 [] !! lit "TIMEOUT002") = Some 3%Z /\
  queueOf r = [lit "MARA022"] /\
  loadPreviousErrors (filesAfter d0 r) [] !! lit "TIMEOUT002" = None.
Proof.
  cbv zeta. split; [vm_compute; reflexivity|]. split; [vm_compute; reflexivity|].
  destruct (run (always (Failed timeoutError))
              (oneColumn ["TIMEOUT002"; "MARA022"]%string)
              (saveErrorLog noFiles stamp [] [pendingAfter "TIMEOUT002" 3] 1 0))
    as [o|e] eqn:Hr.
  - cbn [filesAfter].
    apply (unprocessed_codes_are_forgotten _ _ _ _ _ _ _ _ _ o _ _ Hr).
    + vm_compute in Hr. injection Hr as <-. discriminate.
    + vm_compute in Hr. injection Hr as <-. cbn [queue].
      intros [H|[]]. discriminate H.
  - vm_compute in Hr. discriminate.
Defined.

End RunReport.

(** ** The type of an aggregated failure *)

Section ClassifyFacts.
Import Js FetchEngine Reading.

Lemma startsWith_app_inv pat s x :
  startsWith pat (s ++ x) = true ->
  startsWith pat s = true \/
  (startsWith s pat = true /\ (List.length s < List.length pat)%nat).
Proof.
  revert s; induction pat as [|p pat IH]; intros s H; [now left|].
  destruct s as [|c s]; [right; simpl; split; [reflexivity | lia]|].
  simpl in H. apply andb_true_iff in H as [Hpc H].
  apply N.eqb_eq in Hpc. subst c.
  destruct (IH s H) as [Hl|[Hr Hlen]].
  - left. simpl. now rewrite N.eqb_refl.
  - right. simpl. rewrite N.eqb_refl. split; [exact Hr | lia].
Qed.

Lemma startsWith_app_l pat s x :
  startsWith pat s = true -> startsWith pat (s ++ x) = true.
Proof.
  revert s; induction pat as [|p pat IH]; intros s H; [reflexivity|].
  destruct s as [|c s]; [discriminate|]. simpl in *.
  apply andb_true_iff in H as [-> H]. now apply IH.
Qed.

(** An occurrence of [pat] in [pre ++ x] lies in [pre] or in [x] when
    it cannot lie across the two. *)
Lemma includes_app_no_overlap pre x pat :
  overlaps pre pat = false -> pat <> [] ->
  includes (pre ++ x) pat = includes pre pat || includes x pat.
Proof.
  intros Hov Hpat. induction pre as [|c pre IH].
  - simpl. destruct pat; [contradiction|]. destruct x; reflexivity.
  - cbn [overlaps] in Hov. apply orb_false_iff in Hov as [Hhere Hov].
    change (includes ((c :: pre) ++ x) pat)
      with (startsWith pat (c :: pre ++ x) || includes (pre ++ x) pat).
    change (includes (c :: pre) pat)
      with (startsWith pat (c :: pre) || includes pre pat).
    rewrite (IH Hov), orb_assoc. f_equal. f_equal.
    destruct (startsWith pat (c :: pre)) eqn:H1.
    + apply (startsWith_app_l pat (c :: pre) x H1).
    + destruct (startsWith pat (c :: pre ++ x)) eqn:H2; [|reflexivity].
      apply (startsWith_app_inv pat (c :: pre) x) in H2 as [H2|[H2 Hlen]].
      * congruence.
      * rewrite H2 in Hhere. apply Nat.ltb_lt in Hlen.
        cbn [andb] in Hhere. congruence.
Qed.

Lemma toLowerCase_app a b : toLowerCase (a ++ b) = toLowerCase a ++ toLowerCase b.
Proof. apply List.flat_map_app. Qed.

End ClassifyFacts.

Section ClassifyChain.
Import Js FetchEngine Reading.

(** The chain of tests of [classifyError] on a lower-case message. *)
Local Abbreviation chain m :=
  (if includes m (lit "timed out") || includes m (lit "timeout") then TIMEOUT
   else if includes m (lit "net::err") || includes m (lit "econn")
           || includes m (lit "socket") || includes m (lit "epipe") then NETWORK
   else if includes m (lit "parse") || includes m (lit "json") then PARSE
   else UNKNOWN).

Ltac known :=
  repeat match goal with
  | |- context [includes (toLowerCase ?a) (lit ?p)] =>
      let b := eval vm_compute in (includes (toLowerCase a) (lit p)) in
      change (includes (toLowerCase a) (lit p)) with b
  end.

(** The words 'FetchFailed:TYPE:' before a message do not change the
    type the chain gives it. *)
Lemma chain_stable (T : ErrorType) (m : list N) :
  chain m = T ->
  chain (toLowerCase (lit "FetchFailed:" ++ errorTypeName T ++ lit ":") ++ m) = T.
Proof.
  intros H.
  destruct T; cbn [errorTypeName];
    rewrite !(includes_app_no_overlap (toLowerCase _) m)
      by (vm_compute; first [reflexivity | discriminate]);
    known; cbn [orb];
    destruct (includes m (lit "timed out")), (includes m (lit "timeout")),
             (includes m (lit "net::err")), (includes m (lit "econn")),
             (includes m (lit "socket")), (includes m (lit "epipe")),
             (includes m (lit "parse")), (includes m (lit "json"));
    cbn [orb] in *; congruence.
Qed.

Lemma errText_newError msg : truthy msg = true -> errText (newError msg) = msg.
Proof. unfold errText, newError. cbn [message]. now intros ->. Qed.

Lemma lastErrMsg_errText e :
  (errText e = [] /\ lastErrMsg (Some e) = lit "Unknown error") \/
  (errText e <> [] /\ lastErrMsg (Some e) = errText e).
Proof.
  unfold lastErrMsg, errText.
  destruct (truthy (message e)) eqn:Hm.
  - right. split; [|reflexivity]. intros H. rewrite H in Hm. discriminate.
  - destruct (errToString e) as [|c s] eqn:Hs; cbn [truthy].
    + left. split; reflexivity.
    + right. split; [discriminate | reflexivity].
Qed.

Lemma classify_aggregated lastErr :
  classifyError (Some (fetchFailed lastErr)) = classifyError lastErr.
Proof.
  destruct lastErr as [e|]; [|vm_compute; reflexivity].
  unfold fetchFailed.
  set (T := classifyError (Some e)).
  unfold classifyError at 1. rewrite errText_newError by reflexivity.
  destruct (lastErrMsg_errText e) as [[He ->]|[He ->]].
  - assert (HT : T = UNKNOWN).
    { unfold T, classifyError. rewrite He. reflexivity. }
    rewrite HT. vm_compute. reflexivity.
  - rewrite !List.app_assoc, toLowerCase_app, <- !List.app_assoc.
    apply (chain_stable T (toLowerCase (errText e))). reflexivity.
Qed.

End ClassifyChain.

Section ClassifyExtras.
Import Js FetchEngine.

(** The words of the classification are looked for in the lower-case
    form of the message: a KELVIN SIGN reads as k and makes "socket",
    the capital I with a dot reads as i followed by a combining dot and
    does not make "timeout". *)
Example kelvin_sign_reads_as_k :
  toLowerCase [83; 79; 67; 8490; 69; 84] = lit "socket" /\
  classifyError (Some (newError [83; 79; 67; 8490; 69; 84])) = NETWORK /\
  toLowerCase [84; 304; 77; 69] = [116; 105; 775; 109; 101] /\
  classifyError (Some (newError ([84; 304; 77; 69] ++ lit "OUT"))) = UNKNOWN.
Proof. vm_compute. repeat split. Qed.

(** X13 (classifyError, Fetcher.get): aggregation keeps the type of a
    failure.  Whatever the last failure and the code units of its
    message, the error [get] throws after its last attempt is classified
    by [classifyError] as the failure it wraps, so the type written into
    its message is the type the crawler logs for it. *)
Theorem aggregated_failure_keeps_its_type (lastErr : option jsError) :
  classifyError (Some (fetchFailed lastErr)) = classifyError lastErr /\
  message (fetchFailed lastErr)
    = lit "FetchFailed:"
      ++ errorTypeName (classifyError (Some (fetchFailed lastErr)))
      ++ lit ":" ++ lastErrMsg lastErr.
Proof.
  split; [apply classify_aggregated|].
  rewrite classify_aggregated. reflexivity.
Qed.

End ClassifyExtras.

(** ** What one [get] returns and what it does to the browser *)

Section GetResult.
Import Js FetchEngine Reading.

Variable E : env.
Variable f : Fetcher.
Variable url : list N.

(** A page is returned from the attempt that rendered it, and only
    then is the time of the last request set. *)
Lemma attemptLoop_result fuel attempt lastErr tr :
  match attemptLoop E f url fuel attempt lastErr tr with
  | (Return html, f', tr') =>
      render E tr' = Rendered html /\ f' = setLastRequestAt f (now E tr')
  | (Throw _, f', _) => f' = f
  end.
Proof.
  revert attempt lastErr tr; induction fuel as [|fuel IH]; intros attempt lastErr tr.
  - reflexivity.
  - cbn [attemptLoop]. destruct (attempt <? maxRetries f)%Z; [|reflexivity].
    destruct (render E (tr ++ [EAttempt url (attempt + 1)])) as [html|err|err] eqn:Hr.
    + auto.
    + apply IH.
    + reflexivity.
Qed.

Lemma launches_app a b : launches (a ++ b) = (launches a + launches b)%nat.
Proof. unfold launches. now rewrite List.filter_app, List.length_app. Qed.

Lemma closes_app a b : closes (a ++ b) = (closes a + closes b)%nat.
Proof. unfold closes. now rewrite List.filter_app, List.length_app. Qed.

Lemma attemptsFrom_quiet b j m :
  launches (attemptsFrom url b j m) = 0%nat /\ closes (attemptsFrom url b j m) = 0%nat.
Proof.
  revert j; induction m as [|m IH]; intros j; [split; reflexivity|].
  cbn [attemptsFrom]. destruct m as [|m]; [split; reflexivity|].
  destruct (IH (S j)) as [Hl Hc]. split.
  - change (launches (attemptsFrom url b (S j) (S m)) = 0%nat). exact Hl.
  - change (closes (attemptsFrom url b (S j) (S m)) = 0%nat). exact Hc.
Qed.

End GetResult.

Section BrowserFacts.
Import Js FetchEngine Reading.

Variable E : env.

Lemma get_browser f url tr :
  launches (get E f url tr).2
    = (launches tr + if browser f || browserPromise f then 0 else 1)%nat /\
  closes (get E f url tr).2 = closes tr /\
  browser (get E f url tr).1.2 = browser f || negb (browserPromise f) /\
  browserPromise (get E f url tr).1.2 = browserPromise f || negb (browser f).
Proof.
  unfold get.
  set (tr0 := ensurePoliteDelay E f tr).
  assert (H0 : launches tr0 = launches tr /\ closes tr0 = closes tr).
  { unfold tr0, ensurePoliteDelay. destruct (_ >? 0)%Z; [|auto].
    rewrite launches_app, closes_app. cbn. lia. }
  destruct H0 as [Hl0 Hc0].
  destruct (ensureBrowser f tr0) as [f1 tr1] eqn:Heb.
  assert (H1 : launches tr1
               = (launches tr0 + if browser f || browserPromise f then 0 else 1)%nat /\
               closes tr1 = closes tr0 /\
               browser f1 = browser f || negb (browserPromise f) /\
               browserPromise f1 = browserPromise f || negb (browser f)).
  { unfold ensureBrowser in Heb.
    destruct (browser f) eqn:Hb.
    { injection Heb as <- <-. rewrite Hb. cbn. repeat split; try lia.
      now rewrite orb_false_r. }
    destruct (browserPromise f) eqn:Hp.
    { injection Heb as <- <-. rewrite Hb, Hp. cbn. repeat split; lia. }
    injection Heb as <- <-. rewrite launches_app, closes_app. cbn.
    repeat split; lia. }
  destruct H1 as (Hl1 & Hc1 & Hb1 & Hp1).
  destruct (attemptLoop_trace E f1 url (Z.to_nat (maxRetries f1)) 0 None tr1
              (Nat.add_0_r _)) as (m & _ & _ & Htr).
  pose proof (attemptLoop_result E f1 url (Z.to_nat (maxRetries f1)) 0%Z None tr1) as Hres.
  change (Z.of_nat 0) with 0%Z in Htr.
  destruct (attemptLoop E f1 url (Z.to_nat (maxRetries f1)) 0 None tr1) as [[r f'] tr'].
  cbn [fst snd] in *. subst tr'.
  destruct (attemptsFrom_quiet url (backoffMs f1) 0 m) as [Hla Hca].
  rewrite launches_app, closes_app, Hla, Hca, Hl1, Hc1, Hl0, Hc0, !Nat.add_0_r.
  assert (Hf : browser f' = browser f1 /\ browserPromise f' = browserPromise f1).
  { destruct r; [destruct Hres as [_ ->] | subst f']; split; reflexivity. }
  destruct Hf as [-> ->]. auto.
Qed.

(** The life of the browser of one fetcher: not launched yet, open, or
    closed for good. *)
Local Abbreviation fresh f tr :=
  (browser f = false /\ browserPromise f = false /\
   launches tr = 0%nat /\ closes tr = 0%nat).
Local Abbreviation open f tr :=
  (browser f = true /\ browserPromise f = true /\
   launches tr = 1%nat /\ closes tr = 0%nat).
Local Abbreviation closed f tr :=
  (browser f = false /\ browserPromise f = true /\
   launches tr = 1%nat /\ closes tr = 1%nat).

Lemma get_fresh_or_open f url tr :
  fresh f tr \/ open f tr -> open (get E f url tr).1.2 (get E f url tr).2.
Proof.
  destruct (get_browser f url tr) as (Hl & Hc & Hb & Hp).
  rewrite Hl, Hc, Hb, Hp.
  intros [(-> & -> & -> & ->)|(-> & -> & -> & ->)]; cbn; auto.
Qed.

Lemma get_closed f url tr :
  closed f tr -> closed (get E f url tr).1.2 (get E f url tr).2.
Proof.
  destruct (get_browser f url tr) as (Hl & Hc & Hb & Hp).
  rewrite Hl, Hc, Hb, Hp. intros (-> & -> & -> & ->). cbn. auto.
Qed.

Lemma cachedGet_super cf url tr :
  (exists html, cache cf !! url = Some html /\
     super (cachedGet E cf url tr).1.2 = super cf /\ (cachedGet E cf url tr).2 = tr) \/
  (cache cf !! url = None /\
     super (cachedGet E cf url tr).1.2 = (get E (super cf) url tr).1.2 /\
     (cachedGet E cf url tr).2 = (get E (super cf) url tr).2).
Proof.
  unfold cachedGet. destruct (cache cf !! url) as [html|].
  - left. exists html. auto.
  - right. destruct (get E (super cf) url tr) as [[r f'] tr']. auto.
Qed.

Lemma cachedGet_open cf url tr :
  open (super cf) tr ->
  open (super (cachedGet E cf url tr).1.2) (cachedGet E cf url tr).2.
Proof.
  intros Ho.
  destruct (cachedGet_super cf url tr) as [(html & _ & -> & ->)|(_ & -> & ->)];
    [exact Ho|]. apply get_fresh_or_open. now right.
Qed.

Lemma cachedGet_closed cf url tr :
  closed (super cf) tr ->
  closed (super (cachedGet E cf url tr).1.2) (cachedGet E cf url tr).2.
Proof.
  intros Ho.
  destruct (cachedGet_super cf url tr) as [(html & _ & -> & ->)|(_ & -> & ->)];
    [exact Ho|]. now apply get_closed.
Qed.

Lemma cachedGet_fresh cf url tr :
  fresh (super cf) tr ->
  fresh (super (cachedGet E cf url tr).1.2) (cachedGet E cf url tr).2 \/
  open (super (cachedGet E cf url tr).1.2) (cachedGet E cf url tr).2.
Proof.
  intros Ho.
  destruct (cachedGet_super cf url tr) as [(html & _ & -> & ->)|(_ & -> & ->)];
    [now left|]. right. apply get_fresh_or_open. now left.
Qed.

Lemma cachedClose_life cf tr :
  (fresh (super cf) tr ->
     fresh (super (cachedClose cf tr).1) (cachedClose cf tr).2) /\
  (open (super cf) tr ->
     closed (super (cachedClose cf tr).1) (cachedClose cf tr).2 /\
     (cachedClose cf tr).2 = tr ++ [ECloseBrowser]) /\
  (closed (super cf) tr ->
     closed (super (cachedClose cf tr).1) (cachedClose cf tr).2).
Proof.
  unfold cachedClose, close.
  split; [|split]; intros (Hb & Hp & Hl & Hc); rewrite Hb; cbn [fst snd super].
  - auto.
  - cbn [browser browserPromise setBrowser].
    rewrite launches_app, closes_app, Hl, Hc. cbn. auto.
  - auto.
Qed.

End BrowserFacts.

Section BrowserExtras.
Import Js FetchEngine Reading.

(** A page that [get] returns is the rendering of the last attempt it
    made, and the time of the last request is the time of that
    rendering. *)
Lemma get_result (E : env) (f : Fetcher) (url : list N) (tr : list event) :
  match get E f url tr with
  | (Return html, f', tr') =>
      render E tr' = Rendered html /\ lastRequestAt f' = now E tr'
  | (Throw _, _, _) => True
  end.
Proof.
  unfold get.
  destruct (ensureBrowser f (ensurePoliteDelay E f tr)) as [f1 tr1].
  pose proof (attemptLoop_result E f1 url (Z.to_nat (maxRetries f1)) 0%Z None tr1) as H.
  destruct (attemptLoop E f1 url (Z.to_nat (maxRetries f1)) 0 None tr1) as [[r f'] tr'].
  destruct r as [html|e]; [|exact I].
  destruct H as [Hr ->]. split; [exact Hr | reflexivity].
Qed.

Lemma doCalls_life E calls cf tr :
  let life f t :=
    (browser f = false /\ browserPromise f = false /\
       launches t = 0%nat /\ closes t = 0%nat) \/
    (browser f = true /\ browserPromise f = true /\
       launches t = 1%nat /\ closes t = 0%nat) \/
    (browser f = false /\ browserPromise f = true /\
       launches t = 1%nat /\ closes t = 1%nat) in
  life (super cf) tr ->
  life (super (doCalls E cf tr calls).1) (doCalls E cf tr calls).2.
Proof.
  cbv zeta. unfold doCalls.
  revert cf tr; induction calls as [|c calls IH]; intros cf tr Hlife; [exact Hlife|].
  cbn [fold_left].
  destruct (doCall E (cf, tr) c) as [cf' tr'] eqn:Hc. apply IH.
  destruct c as [url|url html|]; cbn [doCall fst snd] in Hc.
  - pose proof (cachedGet_fresh E cf url tr) as Hf.
    pose proof (cachedGet_open E cf url tr) as Ho.
    pose proof (cachedGet_closed E cf url tr) as Hcl.
    destruct (cachedGet E cf url tr) as [[r cf1] tr1]. injection Hc as <- <-.
    cbn [fst snd] in *. destruct Hlife as [H|[H|H]]; auto.
    destruct (Hf H); auto.
  - injection Hc as <- <-. exact Hlife.
  - destruct (cachedClose_life cf tr) as (Hf & Ho & Hcl).
    rewrite Hc in Hf, Ho, Hcl. cbn [fst snd] in *.
    destruct Hlife as [H|[H|H]]; auto. right. right. now apply Ho.
Qed.

(** X14 (Fetcher.ensureBrowser, Fetcher.close): whatever is called on
    one fetcher, its browser is launched at most once and closed at most
    once, and only after it was launched; the fetcher holds a browser
    exactly between the two.  In particular a [get] after [close] does
    not launch a browser again. *)
Theorem browser_is_launched_at_most_once (E : env) (opts : FetcherOptions)
    (calls : list call) :
  let st := doCalls E (newCachedFetcher opts) [] calls in
  (launches st.2 <= 1)%nat /\ (closes st.2 <= launches st.2)%nat /\
  (browser (super st.1) = true <-> launches st.2 = 1%nat /\ closes st.2 = 0%nat).
Proof.
  cbv zeta.
  destruct (doCalls_life E calls (newCachedFetcher opts) [])
    as [(Hb & _ & Hl & Hc)|[(Hb & _ & Hl & Hc)|(Hb & _ & Hl & Hc)]].
  { left. repeat split; reflexivity. }
  all: rewrite Hb, Hl, Hc; repeat split; try lia; try discriminate; intros [? ?]; lia.
Qed.

End BrowserExtras.

(** ** The distance between two requests *)

Section PolitenessFacts.
Import Js FetchEngine Reading Clock.

Lemma elapsed_app a b : elapsed (a ++ b) = (elapsed a + elapsed b)%Z.
Proof.
  induction a as [|e a IH]; [reflexivity|].
  destruct e; cbn [app elapsed]; rewrite IH; lia.
Qed.

Lemma elapsed_event e : (0 <= elapsed [e])%Z.
Proof. destruct e; cbn; lia. Qed.

(** The first attempt of a [get], and what comes before it. *)
Lemma get_first_attempt E f url tr :
  (0 < maxRetries f)%Z ->
  exists rest,
    (get E f url tr).2
    = (ensureBrowser f (ensurePoliteDelay E f tr)).2 ++ EAttempt url 1 :: rest.
Proof.
  intros Hmax. unfold get.
  destruct (get_prelude E f tr) as (pre & _ & _ & Hm & _).
  destruct (ensureBrowser f (ensurePoliteDelay E f tr)) as [f1 tr1]. cbn [fst snd] in *.
  destruct (attemptLoop_trace E f1 url (Z.to_nat (maxRetries f1)) 0 None tr1
              (Nat.add_0_r _)) as (m & _ & Hpos & Htr).
  change (Z.of_nat 0) with 0%Z in Htr. rewrite Htr.
  destruct m as [|m]; [lia|]. cbn [attemptsFrom]. eauto.
Qed.

End PolitenessFacts.

Section PolitenessExtras.
Import Js FetchEngine Reading Clock AutoSync Scenarios.

(** X15 (Fetcher.ensurePoliteDelay, Fetcher.get): requests keep their
    distance.  When the clock never goes back and a wait takes at least
    as long as it was asked to, the first page attempt of a [get] starts
    no earlier than [minDelayMs] after the time of the last request, and
    a [get] that returns a page sets that time to the time of its
    rendering. *)
Theorem requests_keep_their_distance (E : env) (f : Fetcher) (url : list N)
    (tr : list event) :
  (forall t e, (now E t <= now E (t ++ [e]))%Z) ->
  (forall t ms, (now E t + ms <= now E (t ++ [ESleep ms]))%Z) ->
  (0 < maxRetries f)%Z ->
  exists pre rest,
    (get E f url tr).2 = tr ++ pre ++ EAttempt url 1 :: rest /\
    List.filter isAttempt pre = [] /\
    (lastRequestAt f + minDelayMs f <= now E (tr ++ pre))%Z /\
    match get E f url tr with
    | (Return _, f', tr') => lastRequestAt f' = now E tr'
    | (Throw _, _, _) => True
    end.
Proof.
  intros Hmono Hsleep Hmax.
  destruct (get_first_attempt E f url tr Hmax) as (rest & Hget).
  destruct (get_prelude E f tr) as (pre & Hpre & Htr & _ & _).
  exists pre, rest. rewrite Hget, Htr, <- List.app_assoc.
  split; [reflexivity|]. split; [exact Hpre|]. split.
  - rewrite <- Htr. unfold ensureBrowser, ensurePoliteDelay.
    assert (H0 : (lastRequestAt f + minDelayMs f
                  <= now E (if (Z.max 0 (minDelayMs f - (now E tr - lastRequestAt f)) >? 0)%Z
                            then tr ++ [ESleep (Z.max 0 (minDelayMs f
                                                  - (now E tr - lastRequestAt f)))]
                            else tr))%Z).
    { destruct (Z.gtb_spec (Z.max 0 (minDelayMs f - (now E tr - lastRequestAt f))) 0).
      - pose proof (Hsleep tr (Z.max 0 (minDelayMs f - (now E tr - lastRequestAt f)))).
        lia.
      - lia. }
    destruct (browser f); [exact H0|]. destruct (browserPromise f); [exact H0|].
    cbn [snd]. etransitivity; [exact H0 | apply Hmono].
  - pose proof (get_result E f url tr) as Hres.
    destruct (get E f url tr) as [[r f'] tr']. destruct r; [apply Hres | exact I].
Qed.

Lemma requests_keep_their_distance_witness :
  let E := ticking 1762511400000 (Rendered notFoundPage) in
  let f := setLastRequestAt (newFetcher syncFetcherOptions) 1762511400000 in
  exists pre rest,
    (get E f (unitUrl (lit "MARA022")) []).2
      = [] ++ pre ++ EAttempt (unitUrl (lit "MARA022")) 1 :: rest /\
    List.filter isAttempt pre = [] /\
    (lastRequestAt f + minDelayMs f <= now E ([] ++ pre))%Z /\
    match get E f (unitUrl (lit "MARA022")) [] with
    | (Return _, f', tr') => lastRequestAt f' = now E tr'
    | (Throw _, _, _) => True
    end.
Proof.
  apply (requests_keep_their_distance (ticking 1762511400000 (Rendered notFoundPage))
           (setLastRequestAt (newFetcher syncFetcherOptions) 1762511400000)
           (unitUrl (lit "MARA022")) []).
  - intros t e. cbn [now ticking]. rewrite elapsed_app.
    pose proof (elapsed_event e). lia.
  - intros t ms. cbn [now ticking]. rewrite elapsed_app. cbn [elapsed]. lia.
  - reflexivity.
Defined.

End PolitenessExtras.

(** ** The browser of a run *)

Section RunBrowserFacts.
Import Js Model FetchEngine DocumentExtractor OutcomeStore CrawlScheduler
       IdentifierExtractor AutoSync Reading.

Variable E : env.
Variable load : list N -> page.
Variable stringify pretty : Uoc -> list N.
Variable parsedCode : list N -> option (option (list N)).
Variable previousErrors : gmap (list N) UnitError.

Local Abbreviation open cf tr :=
  (browser (super cf) = true /\ browserPromise (super cf) = true /\
   launches tr = 1%nat /\ closes tr = 0%nat).

Lemma validateOne_fetch st code :
  super (fetcher (validateOne E previousErrors st code))
    = super (cachedGet E (fetcher st) (unitUrl code) (trace st)).1.2 /\
  trace (validateOne E previousErrors st code)
    = (cachedGet E (fetcher st) (unitUrl code) (trace st)).2.
Proof.
  unfold validateOne.
  destruct (cachedGet E (fetcher st) (unitUrl code) (trace st)) as [[r cf] tr].
  destruct r as [html|err]; cbn [fst snd].
  - destruct (_ || _ || _); [split; reflexivity|].
    destruct (_ || _); split; reflexivity.
  - unfold categorizeError. destruct (_ || _); split; reflexivity.
Qed.

Lemma validateOne_open st code :
  open (fetcher st) (trace st) ->
  open (fetcher (validateOne E previousErrors st code))
       (trace (validateOne E previousErrors st code)).
Proof.
  intros Ho. destruct (validateOne_fetch st code) as [-> ->].
  now apply cachedGet_open.
Qed.

Lemma validateOne_first st code :
  browser (super (fetcher st)) = false ->
  browserPromise (super (fetcher st)) = false ->
  trace st = [] -> cache (fetcher st) !! unitUrl code = None ->
  open (fetcher (validateOne E previousErrors st code))
       (trace (validateOne E previousErrors st code)).
Proof.
  intros Hb Hp Htr Hmiss. destruct (validateOne_fetch st code) as [-> ->].
  destruct (cachedGet_super E (fetcher st) (unitUrl code) (trace st))
    as [(html & Hhit & _)|(_ & -> & ->)]; [congruence|].
  apply get_fresh_or_open. left. rewrite Htr. auto.
Qed.

Lemma validateList_open codes st :
  open (fetcher st) (trace st) ->
  open (fetcher (fold_left (validateOne E previousErrors) codes st))
       (trace (fold_left (validateOne E previousErrors) codes st)).
Proof.
  revert st; induction codes as [|c codes IH]; intros st Ho; [exact Ho|].
  cbn [fold_left]. apply IH. now apply validateOne_open.
Qed.

Lemma sleepBetweenBatches_open st :
  open (fetcher st) (trace st) ->
  open (fetcher (sleepBetweenBatches st)) (trace (sleepBetweenBatches st)).
Proof.
  intros (Hb & Hp & Hl & Hc). unfold sleepBetweenBatches. cbn [fetcher trace].
  rewrite launches_app, closes_app, Hl, Hc. auto.
Qed.

Lemma validateBatches_open fuel codes st :
  open (fetcher st) (trace st) ->
  open (fetcher (validateBatches E previousErrors fuel codes st))
       (trace (validateBatches E previousErrors fuel codes st)).
Proof.
  revert codes st; induction fuel as [|fuel IH]; intros codes st Ho; [exact Ho|].
  cbn [validateBatches]. destruct codes as [|c codes]; [exact Ho|].
  apply IH.
  pose proof (validateList_open (firstn 5 (c :: codes)) st Ho) as H1.
  destruct (skipn 5 (c :: codes)); [exact H1 | now apply sleepBetweenBatches_open].
Qed.

Lemma validateAll_open codes cf :
  codes <> [] -> cache cf = ∅ ->
  browser (super cf) = false -> browserPromise (super cf) = false ->
  open (fetcher (validateAll E previousErrors codes cf))
       (trace (validateAll E previousErrors codes cf)).
Proof.
  intros Hcodes Hcache Hb Hp. unfold validateAll.
  destruct codes as [|c codes]; [contradiction|].
  cbn [List.length validateBatches]. apply validateBatches_open.
  assert (H1 : open
            (fetcher (fold_left (validateOne E previousErrors) (firstn 5 (c :: codes))
                        {| validUnits := []; invalidUnits := []; errorUnits := [];
                           fetcher := cf; trace := [] |}))
            (trace (fold_left (validateOne E previousErrors) (firstn 5 (c :: codes))
                      {| validUnits := []; invalidUnits := []; errorUnits := [];
                         fetcher := cf; trace := [] |}))).
  { cbn [firstn fold_left]. apply validateList_open.
    apply validateOne_first; cbn [fetcher trace]; auto.
    rewrite Hcache. apply lookup_empty. }
  destruct (skipn 5 (c :: codes)); [exact H1 | now apply sleepBetweenBatches_open].
Qed.

Lemma crawlOne_open st url :
  open (c_fetcher st) (c_trace st) ->
  open (c_fetcher (crawlOne E load stringify pretty parsedCode st url))
       (c_trace (crawlOne E load stringify pretty parsedCode st url)).
Proof.
  intros Ho. unfold crawlOne.
  pose proof (cachedGet_open E (c_fetcher st) url (c_trace st) Ho) as H.
  destruct (cachedGet E (c_fetcher st) url (c_trace st)) as [[r cf] tr].
  cbn [fst snd] in H. destruct r as [html|err].
  - destruct (writeJsonl _ _ _ _ _ _) as [svc d]. cbn [c_fetcher c_trace].
    destruct H as (Hb & Hp & Hl & Hc).
    rewrite launches_app, closes_app, Hl, Hc. auto.
  - exact H.
Qed.

Lemma crawlFold_open urls st :
  open (c_fetcher st) (c_trace st) ->
  open (c_fetcher (fold_left (crawlOne E load stringify pretty parsedCode) urls st))
       (c_trace (fold_left (crawlOne E load stringify pretty parsedCode) urls st)).
Proof.
  revert st; induction urls as [|u urls IH]; intros st Ho; [exact Ho|].
  cbn [fold_left]. apply IH. now apply crawlOne_open.
Qed.

Lemma crawlUocUrls_closes cf svc d tr urls :
  open cf tr ->
  let c := crawlUocUrls E load stringify pretty parsedCode cf svc d tr urls in
  launches (c_trace c) = 1%nat /\ closes (c_trace c) = 1%nat /\
  exists tr', c_trace c = tr' ++ [ECloseBrowser].
Proof.
  intros Ho. unfold crawlUocUrls.
  destruct (init parsedCode svc d) as [svc' d'].
  match goal with |- context [fold_left ?f ?q ?s0] =>
    pose proof (crawlFold_open q s0 Ho) as Hfold;
    destruct (cachedClose_life (c_fetcher (fold_left f q s0))
                (c_trace (fold_left f q s0))) as (_ & Hclose & _);
    destruct (Hclose Hfold) as [(_ & _ & Hl & Hc) Htr];
    destruct (cachedClose (c_fetcher (fold_left f q s0)) (c_trace (fold_left f q s0)))
  end.
  cbn [c_trace snd] in *. eauto.
Qed.

End RunBrowserFacts.

Section RunBrowserExtras.
Import Js Model FetchEngine DocumentExtractor OutcomeStore CrawlScheduler
       IdentifierExtractor AutoSync Reading Scenarios.

(** With the browser launched by the first [get], a run that has codes
    to process launches one browser and closes it once, after every
    other event of the engine. *)
Lemma syncUnits_browser E load stringify pretty parsedCode
    config input output d o :
  syncUnits E load stringify pretty parsedCode config input output d = Return o ->
  (queue o = [] -> log o = []) /\
  (queue o <> [] ->
     launches (log o) = 1%nat /\ closes (log o) = 1%nat /\
     exists tr, log o = tr ++ [ECloseBrowser]).
Proof.
  unfold syncUnits.
  destruct (readUnitCodesFromExcel (inputExcel config) input (inputColumn config))
    as [requestedCodes|e]; [|discriminate].
  cbv zeta.
  destruct (allUnitsToProcess _) as [|c0 all0] eqn:Hall.
  { intros H. injection H as <-. cbn [queue log]. split; [reflexivity | congruence]. }
  assert (Hne : allUnitsToProcess
                  (planUnits (getExistingUnits output)
                     (loadPreviousErrors d (isoTime E []))
                     (numOr (cfg_maxRetries config) 3) requestedCodes) <> [])
    by (rewrite Hall; discriminate).
  rewrite <- Hall. clear Hall c0 all0.
  set (all := allUnitsToProcess _) in *.
  set (v := validateAll E _ all _).
  intros Hrun.
  assert (Hopen : browser (super (fetcher v)) = true /\
                  browserPromise (super (fetcher v)) = true /\
                  launches (trace v) = 1%nat /\ closes (trace v) = 0%nat).
  { apply validateAll_open; auto. }
  destruct (validUnits v) as [|v0 vs].
  - destruct (cachedClose_life (fetcher v) (trace v)) as (_ & Hclose & _).
    destruct (Hclose Hopen) as [(_ & _ & Hl & Hc) Htr].
    destruct (cachedClose (fetcher v) (trace v)) as [cf' tr'].
    injection Hrun as <-. cbn [queue log snd] in *.
    split; [contradiction|]. intros _. eauto.
  - injection Hrun as <-. cbn [queue log].
    split; [contradiction|]. intros _.
    now apply (crawlUocUrls_closes E load stringify pretty parsedCode).
Qed.

(** X16 (syncUnits, crawlUocUrls, Fetcher.close): a run that returns
    and in which a page was attempted, so that the browser was there,
    has launched exactly one browser and closed it exactly once, and the
    close is the last event of the fetch engine in the run: no wait, no
    launch and no page attempt comes after it, whether or not any page
    was valid and whichever page attempts failed.  A run with nothing to
    process causes no event of the engine.  The export to the
    spreadsheet that follows the crawl uses no browser and is not in the
    trace. *)
Theorem run_opens_and_closes_one_browser E load stringify pretty parsedCode
    config input output d o :
  syncUnits E load stringify pretty parsedCode config input output d = Return o ->
  (queue o = [] -> log o = []) /\
  ((exists url attempt, In (EAttempt url attempt) (log o)) ->
     launches (log o) = 1%nat /\ closes (log o) = 1%nat /\
     exists tr, log o = tr ++ [ECloseBrowser]).
Proof.
  intros Hrun.
  destruct (syncUnits_browser _ _ _ _ _ _ _ _ _ _ Hrun) as [Hnone Hsome].
  split; [exact Hnone|].
  intros (url & attempt & Hin). apply Hsome.
  intros Hq. rewrite (Hnone Hq) in Hin. destruct Hin.
Qed.

Lemma run_opens_and_closes_one_browser_witness :
  let r := run (always (Failed timeoutError)) (oneColumn ["TIMEOUT001"%string]) noFiles in
  In (EAttempt (unitUrl (lit "TIMEOUT001")) 1) (logOf r) /\
  launches (logOf r) = 1%nat /\ closes (logOf r) = 1%nat /\
  exists tr, logOf r = tr ++ [ECloseBrowser].
Proof.
  cbv zeta.
  destruct (run (always (Failed timeoutError)) (oneColumn ["TIMEOUT001"%string]) noFiles)
    as [o|e] eqn:Hr; [|vm_compute in Hr; discriminate].
  cbn [logOf].
  assert (Hin : In (EAttempt (unitUrl (lit "TIMEOUT001")) 1) (log o)).
  { vm_compute in Hr. injection Hr as <-. vm_compute. do 2 right. left. reflexivity. }
  split; [exact Hin|].
  apply (run_opens_and_closes_one_browser _ _ _ _ _ _ _ _ _ o Hr).
  exists (unitUrl (lit "TIMEOUT001")), 1%Z. exact Hin.
Defined.

End RunBrowserExtras.

(** ** The files of the outcome store *)

Section StoreFacts.
Import Js Model OutcomeStore.

Lemma forallb_filter {A} (p q : A -> bool) l :
  forallb p l = true -> forallb p (List.filter q l) = true.
Proof.
  induction l as [|a l IH]; [reflexivity|]. simpl.
  intros H. apply andb_true_iff in H as [Ha Hl].
  destruct (q a); simpl; [rewrite Ha|]; auto.
Qed.

(** The lines of a file that [removeUnit] has rewritten. *)
Lemma linesOf_rewritten ls :
  forallb oneLine ls = true -> linesOf (joinNl ls ++ [10]) = ls.
Proof.
  intros Hls. destruct ls as [|l ls]; [reflexivity|].
  rewrite joinNl_linesFile by discriminate.
  apply (linesOf_linesFile [] (l :: ls)); [reflexivity | exact Hls].
Qed.

End StoreFacts.

Section StoreExtras.
Import Js Model OutcomeStore Scenarios.

(** X17 (ExportService.removeUnit): on a corpus file of complete lines,
    [removeUnit] takes out the lines that parse to a record of the given
    code and nothing else: the lines of other records, the lines that do
    not parse and the lines without a code stay, in their order, and no
    other file changes.  Without a corpus file it does nothing. *)
Theorem removeUnit_keeps_the_other_lines
    (parsedCode : list N -> option (option (list N))) (code : list N)
    (d : disk) (nl : list N) (ls : list (list N)) :
  forallb isSpace nl = true -> forallb oneLine ls = true ->
  jsonlFile d = Some (nl ++ linesFile ls) ->
  exists content,
    jsonlFile (removeUnit parsedCode code d) = Some content /\
    linesOf content
      = List.filter (fun line => match parsedCode line with
                                 | Some (Some c) => negb (eqs c code)
                                 | _ => true
                                 end) ls /\
    unitFiles (removeUnit parsedCode code d) = unitFiles d /\
    errorLogFile (removeUnit parsedCode code d) = errorLogFile d /\
    forall d', jsonlFile d' = None -> removeUnit parsedCode code d' = d'.
Proof.
  intros Hnl Hls Hfile.
  assert (Hnone : forall d', jsonlFile d' = None -> removeUnit parsedCode code d' = d').
  { intros d' H. unfold removeUnit. now rewrite H. }
  unfold removeUnit. rewrite Hfile.
  rewrite (linesOf_linesFile nl ls Hnl Hls).
  eexists. split; [reflexivity|]. split; [|auto].
  rewrite linesOf_rewritten.
  - apply List.filter_ext. intros line. destruct (parsedCode line) as [[c|]|]; reflexivity.
  - now apply forallb_filter.
Qed.

Lemma removeUnit_keeps_the_other_lines_witness :
  let junk := lit "not json" in
  let old := codeLine (recordOf "MARB027" "Old title") in
  let other := codeLine (recordOf "MARA022" "Another unit") in
  exists content,
    jsonlFile (removeUnit codeOfLine (lit "MARB027")
                 (setJsonl noFiles (linesFile [old; junk; other]))) = Some content /\
    linesOf content = [junk; other].
Proof.
  cbv zeta.
  destruct (removeUnit_keeps_the_other_lines codeOfLine (lit "MARB027")
              (setJsonl noFiles
                 (linesFile [codeLine (recordOf "MARB027" "Old title"); lit "not json";
                             codeLine (recordOf "MARA022" "Another unit")]))
              [] [codeLine (recordOf "MARB027" "Old title"); lit "not json";
                  codeLine (recordOf "MARA022" "Another unit")])
    as (content & Hc & Hl & _); [reflexivity | vm_compute; reflexivity | reflexivity |].
  exists content. split; [exact Hc|]. rewrite Hl. vm_compute. reflexivity.
Defined.

(** X18 (ExportService.logError): the log keeps at most 500 crawl
    errors.  After [logError] the [errors] array ends with the new entry
    and is the end of the old array with the entry added, cut to its last
    500 entries; the other fields of an existing log and the other files
    are as they were. *)
Theorem logError_keeps_the_last_500 (d : disk) (stamp : list N) (entry : crawlError) :
  let old := default [] (errorLogFile d ≫= log_errors) in
  exists lg errs dropped,
    errorLogFile (logError d stamp entry) = Some lg /\
    log_errors lg = Some errs /\
    old ++ [entry] = dropped ++ errs /\
    List.length errs = Nat.min 500 (List.length old + 1) /\
    List.last errs entry = entry /\ errs <> [] /\
    (forall lg0, errorLogFile d = Some lg0 ->
       log_timestamp lg = log_timestamp lg0 /\ log_summary lg = log_summary lg0 /\
       log_invalidUnits lg = log_invalidUnits lg0 /\
       log_errorUnits lg = log_errorUnits lg0) /\
    jsonlFile (logError d stamp entry) = jsonlFile d /\
    unitFiles (logError d stamp entry) = unitFiles d.
Proof.
  cbv zeta. unfold logError. cbn [errorLogFile setErrorLog jsonlFile unitFiles log_errors].
  set (payload := match errorLogFile d with Some lg => lg | None => _ end).
  assert (Hold : default [] (errorLogFile d ≫= log_errors) = default [] (log_errors payload)).
  { unfold payload. destruct (errorLogFile d); reflexivity. }
  rewrite Hold. set (all := default [] (log_errors payload) ++ [entry]).
  assert (Hlen : List.length all = (List.length (default [] (log_errors payload)) + 1)%nat).
  { unfold all. rewrite List.length_app. reflexivity. }
  assert (Hfields : forall lg0, errorLogFile d = Some lg0 -> payload = lg0).
  { intros lg0 H. unfold payload. now rewrite H. }
  destruct (500 <? List.length all)%nat eqn:Hcap.
  - apply Nat.ltb_lt in Hcap.
    eexists _, _, (firstn (List.length all - 500) all).
    split; [reflexivity|]. cbn [log_errors log_timestamp log_summary log_invalidUnits
                                log_errorUnits].
    split; [reflexivity|]. split; [symmetry; apply List.firstn_skipn|].
    split; [rewrite List.length_skipn; lia|].
    assert (Hne : skipn (List.length all - 500) all <> []).
    { intros H. apply (f_equal (@List.length _)) in H.
      rewrite List.length_skipn in H. simpl in H. lia. }
    split; [|split; [exact Hne|]].
    + pose proof (List.firstn_skipn (List.length all - 500) all) as Hsplit.
      destruct (List.exists_last Hne) as (pre & x & Hx). rewrite Hx in *.
      assert (H2 : (firstn (List.length all - 500) all ++ pre) ++ [x]
                   = default [] (log_errors payload) ++ [entry])
        by (rewrite <- List.app_assoc; exact Hsplit).
      apply List.app_inj_tail in H2 as [_ ->]. apply List.last_last.
    + split; [|auto]. intros lg0 H. rewrite (Hfields lg0 H). auto.
  - apply Nat.ltb_ge in Hcap.
    eexists _, _, []. split; [reflexivity|].
    cbn [log_errors log_timestamp log_summary log_invalidUnits log_errorUnits].
    split; [reflexivity|]. split; [reflexivity|]. split; [lia|].
    split; [apply List.last_last|]. split.
    { unfold all. intros H. apply List.app_eq_nil in H as [_ H]. discriminate. }
    split; [|auto]. intros lg0 H. rewrite (Hfields lg0 H). auto.
Qed.

End StoreExtras.

(** ** The crawl accounts for every URL *)

Section CrawlAccounting.
Import Js Model FetchEngine DocumentExtractor OutcomeStore CrawlScheduler.

Variable E : env.
Variable load : list N -> page.
Variable stringify pretty : Uoc -> list N.
Variable parsedCode : list N -> option (option (list N)).

Lemma crawlOne_accounts st url :
  let st' := crawlOne E load stringify pretty parsedCode st url in
  (successes st' = (successes st + 1)%Z /\ failures st' = failures st) \/
  (successes st' = successes st /\ exists msg, failures st' = failures st ++ [(url, msg)]).
Proof.
  cbv zeta. unfold crawlOne.
  destruct (cachedGet E (c_fetcher st) url (c_trace st)) as [[r cf] tr].
  destruct r as [html|err].
  - destruct (writeJsonl _ _ _ _ _ _) as [svc d]. left. split; reflexivity.
  - right. split; [reflexivity|]. eexists. reflexivity.
Qed.

Lemma crawlFold_accounts q st :
  let st' := fold_left (crawlOne E load stringify pretty parsedCode) q st in
  (successes st' + Z.of_nat (List.length (failures st'))
   = successes st + Z.of_nat (List.length (failures st)) + Z.of_nat (List.length q))%Z /\
  exists F, failures st' = failures st ++ F /\ List.map fst F `sublist_of` q.
Proof.
  cbv zeta. revert st; induction q as [|u q IH]; intros st.
  - cbn [fold_left List.length]. split; [lia|]. exists []. rewrite List.app_nil_r.
    split; [reflexivity | constructor].
  - cbn [fold_left]. destruct (IH (crawlOne E load stringify pretty parsedCode st u))
      as (Hcount & F & HF & Hsub).
    destruct (crawlOne_accounts st u) as [[Hs Hf]|[Hs (msg & Hf)]].
    + rewrite Hs, Hf in *. cbn [List.length]. split; [lia|].
      exists F. split; [exact HF | now apply sublist_cons].
    + rewrite Hs, Hf in *. rewrite List.length_app in Hcount. cbn [List.length] in *.
      split; [lia|]. exists ((u, msg) :: F).
      split; [now rewrite HF, <- List.app_assoc|].
      cbn [List.map fst]. now apply sublist_skip.
Qed.

End CrawlAccounting.

Section CrawlExtras.
Import Js Model FetchEngine DocumentExtractor OutcomeStore CrawlScheduler.

(** X19 (Crawler.crawlUocUrls): the crawl accounts for every URL once.
    Each distinct URL it is given ends as a success or as a failure, so
    the two counts add up to the number of distinct URLs, and no URL is
    listed twice among the failures: a failure does not stop the
    crawl. *)
Theorem crawl_accounts_for_every_url E load stringify pretty parsedCode
    (cf : CachedFetcher) (svc : ExportService) (d : disk) (tr : list event)
    (urls : list (list N)) :
  let c := crawlUocUrls E load stringify pretty parsedCode cf svc d tr urls in
  (successes c + Z.of_nat (List.length (failures c))
   = Z.of_nat (List.length (unique urls)))%Z /\
  List.NoDup (List.map fst (failures c)) /\
  (forall u, In u (List.map fst (failures c)) -> In u urls).
Proof.
  cbv zeta. unfold crawlUocUrls.
  destruct (init parsedCode svc d) as [svc' d'].
  match goal with |- context [fold_left ?f ?q ?s0] =>
    destruct (crawlFold_accounts E load stringify pretty parsedCode q s0)
      as (Hcount & F & HF & Hsub);
    destruct (cachedClose (c_fetcher (fold_left f q s0)) (c_trace (fold_left f q s0)))
  end.
  cbn [successes failures] in *. rewrite HF in *. cbn [app List.length] in *.
  split; [lia|]. split.
  - apply NoDup_ListNoDup. eapply sublist_NoDup; [|exact Hsub].
    apply NoDup_ListNoDup, unique_NoDup.
  - intros u Hu. apply unique_In. apply list_elem_of_In.
    apply (sublist_subseteq _ _ Hsub). now apply list_elem_of_In.
Qed.

End CrawlExtras.

(** ** The records that are present *)

Section ExistingFacts.
Import Js IdentifierExtractor AutoSync.

Lemma cellEqb_eq a b : cellEqb a b = true <-> a = b.
Proof.
  destruct a as [x|x|x|], b as [y|y|y|]; simpl; try (split; [discriminate|congruence]).
  - rewrite eqs_eq. split; congruence.
  - rewrite Z.eqb_eq. split; congruence.
  - rewrite Bool.eqb_true_iff. split; congruence.
  - split; reflexivity.
Qed.

Lemma mapHas_mapSet_cell {V} (m : list (cell * V)) k v k' :
  mapHas cellEqb (mapSet cellEqb m k v) k' = true <->
  k = k' \/ mapHas cellEqb m k' = true.
Proof.
  unfold mapHas. induction m as [|[k0 v0] m IH]; simpl.
  - destruct (cellEqb k k') eqn:He.
    + apply cellEqb_eq in He. split; auto.
    + split; [discriminate|]. intros [H|H]; [|discriminate].
      apply cellEqb_eq in H. congruence.
  - destruct (cellEqb k0 k) eqn:H0; simpl.
    + apply cellEqb_eq in H0. subst k0.
      destruct (cellEqb k k') eqn:He; [split; auto|].
      split; [auto|]. intros [H|H]; [|exact H].
      apply cellEqb_eq in H. congruence.
    + destruct (cellEqb k0 k') eqn:He; [split; auto|]. exact IH.
Qed.

Lemma existing_fold (rs : list row) (m : list (cell * cell)) key :
  mapHas cellEqb
    (fold_left
       (fun existingUnits r =>
          let codeCell := getProp r (lit "Unit Code") in
          let releaseCell :=
            let c := getProp r (lit "Release") in
            if cellTruthy c then c else CString [] in
          if cellTruthy codeCell then mapSet cellEqb existingUnits codeCell releaseCell
          else existingUnits) rs m) key = true <->
  mapHas cellEqb m key = true \/
  (cellTruthy key = true /\ exists r, In r rs /\ getProp r (lit "Unit Code") = key).
Proof.
  revert m; induction rs as [|r rs IH]; intros m.
  - simpl. split; [auto|]. intros [H|(_ & r & Hin & _)]; [exact H | destruct Hin].
  - cbn [fold_left]. rewrite IH. cbv zeta.
    destruct (cellTruthy (getProp r (lit "Unit Code"))) eqn:Ht.
    + rewrite mapHas_mapSet_cell. split.
      * intros [[H|H]|(Hk & r' & Hin & Hr)]; auto.
        -- right. rewrite <- H. split; [exact Ht|]. exists r. split; [now left | reflexivity].
        -- right. split; [exact Hk|]. exists r'. split; [now right | exact Hr].
      * intros [H|(Hk & r' & [<-|Hin] & Hr)]; auto.
        right. split; [exact Hk|]. eauto.
    + split.
      * intros [H|(Hk & r' & Hin & Hr)]; auto.
        right. split; [exact Hk|]. exists r'. split; [now right | exact Hr].
      * intros [H|(Hk & r' & [<-|Hin] & Hr)]; auto.
        -- rewrite Hr in Ht. congruence.
        -- right. split; [exact Hk|]. eauto.
Qed.

End ExistingFacts.

Section ExistingExtras.
Import Js IdentifierExtractor AutoSync Scenarios.

(** X20 (getExistingUnits, the planner of syncUnits): a record is
    present exactly when a row of the first sheet of the output workbook
    has its code, as a text, in the 'Unit Code' cell; the other sheets
    and the 'Release' cell do not matter, and without a workbook nothing
    is present.  A requested code that is present is skipped whatever the
    error log says. *)
Theorem present_units_are_rows_of_the_first_sheet
    (sh : sheet) (others : list sheet) (code : list N) :
  code <> [] ->
  (mapHas cellEqb (getExistingUnits (Some (sh :: others))) (CString code) = true <->
   exists r, In r (rows sh) /\ getProp r (lit "Unit Code") = CString code) /\
  ((exists r, In r (rows sh) /\ getProp r (lit "Unit Code") = CString code) ->
   forall previousErrors maxRetries,
     classify (getExistingUnits (Some (sh :: others))) previousErrors maxRetries code
     = skip) /\
  getExistingUnits None = [] /\ getExistingUnits (Some []) = [].
Proof.
  intros Hcode.
  assert (Hiff : mapHas cellEqb (getExistingUnits (Some (sh :: others))) (CString code)
                 = true <->
                 exists r, In r (rows sh) /\ getProp r (lit "Unit Code") = CString code).
  { unfold getExistingUnits. rewrite existing_fold. split.
    - intros [H|(_ & H)]; [discriminate | exact H].
    - intros H. right. split; [|exact H]. destruct code; [contradiction | reflexivity]. }
  split; [exact Hiff|]. split; [|split; reflexivity].
  intros Hrow previousErrors maxRetries. unfold classify.
  now rewrite (proj2 Hiff Hrow).
Qed.

Lemma present_units_are_rows_of_the_first_sheet_witness :
  let sh := {| sheetName := lit "Units";
               rows := [ [(lit "Unit Code", CString (lit "MARB027"));
                          (lit "Release", CNumber 1)] ] |} in
  lit "MARB027" <> [] /\
  classify (getExistingUnits (Some [sh])) somePending 3 (lit "MARB027") = skip.
Proof.
  cbv zeta. split; [discriminate|].
  apply (present_units_are_rows_of_the_first_sheet
           {| sheetName := lit "Units";
              rows := [ [(lit "Unit Code", CString (lit "MARB027"));
                         (lit "Release", CNumber 1)] ] |} [] (lit "MARB027")).
  - discriminate.
  - eexists. split; [now left | reflexivity].
Defined.

End ExistingExtras.

(** ** Retrying a request *)

Section RetryFacts.
Import Js RequestUtils.

Context {T : Type}.
Variable E : retryEnv T.
Variable retries base factor : Z.

Lemma calls_app a b : calls (a ++ b) = calls a ++ calls b.
Proof. apply omap_app. Qed.

Lemma sleeps_app a b : sleeps (a ++ b) = sleeps a ++ sleeps b.
Proof. apply omap_app. Qed.

Lemma calls_call a l : calls (RCall a :: l) = a :: calls l.
Proof. reflexivity. Qed.

Lemma calls_sleep ms l : calls (RSleep ms :: l) = calls l.
Proof. reflexivity. Qed.

Lemma sleeps_call a l : sleeps (RCall a :: l) = sleeps l.
Proof. reflexivity. Qed.

Lemma sleeps_sleep ms l : sleeps (RSleep ms :: l) = ms :: sleeps l.
Proof. reflexivity. Qed.

(** The loop from the iteration numbered [j] leaves a ladder of calls
    and waits: every call but the last was rejected with an error that
    may be retried, and the last call decides the completion. *)
Lemma retryLoop_ladder fuel j lastErr tr :
  (0 < fuel)%nat -> (fuel + j = Z.to_nat (retries + 1))%nat ->
  exists ds,
    (retryLoop E retries base factor fuel (Z.of_nat j) lastErr tr).2
      = tr ++ ladder ds (Z.of_nat j) /\
    (List.length ds < fuel)%nat /\
    (forall k d, ds !! k = Some d ->
       exists t, d = (base * factor ^ Z.of_nat (j + k) + random250 E t)%Z) /\
    (forall k, (k < List.length ds)%nat ->
       exists err, fn E (tr ++ ladder (firstn k ds) (Z.of_nat j)) = Rejected err /\
                   nonRetryable err = false) /\
    match (retryLoop E retries base factor fuel (Z.of_nat j) lastErr tr).1 with
    | Returns v => fn E (tr ++ ladder ds (Z.of_nat j)) = Resolved v
    | Throws (Some err) =>
        fn E (tr ++ ladder ds (Z.of_nat j)) = Rejected err /\
        (nonRetryable err = true \/
         (List.length ds + 1 + j = Z.to_nat (retries + 1))%nat)
    | Throws None => False
    end.
Proof.
  revert j lastErr tr; induction fuel as [|fuel IH]; intros j lastErr tr Hpos Hfuel;
    [lia|].
  cbn [retryLoop].
  assert (Hle : (Z.of_nat j <=? retries)%Z = true) by (apply Z.leb_le; lia).
  rewrite Hle.
  destruct (fn E (tr ++ [RCall (Z.of_nat j)])) as [v|err] eqn:Hfn.
  { exists []. cbn [fst snd ladder List.length]. split; [reflexivity|]. split; [lia|].
    split; [intros k d Hk; destruct k; discriminate|].
    split; [intros k Hk; lia | exact Hfn]. }
  destruct (nonRetryable err) eqn:Hnr.
  { exists []. cbn [fst snd ladder List.length]. split; [reflexivity|]. split; [lia|].
    split; [intros k d Hk; destruct k; discriminate|].
    split; [intros k Hk; lia | auto]. }
  destruct (Z.of_nat j <? retries)%Z eqn:Hlt.
  - apply Z.ltb_lt in Hlt.
    set (d := (base * factor ^ Z.of_nat j
               + random250 E (tr ++ [RCall (Z.of_nat j)]))%Z).
    replace (Z.of_nat j + 1)%Z with (Z.of_nat (S j)) by lia.
    destruct (IH (S j) (Some err) ((tr ++ [RCall (Z.of_nat j)]) ++ [RSleep d]))
      as (ds & Htr & Hlen & Hd & Hretried & Hres); [lia | lia |].
    assert (Hshape : forall l,
              tr ++ ladder (d :: l) (Z.of_nat j)
              = ((tr ++ [RCall (Z.of_nat j)]) ++ [RSleep d]) ++ ladder l (Z.of_nat (S j))).
    { intros l. cbn [ladder]. replace (Z.of_nat j + 1)%Z with (Z.of_nat (S j)) by lia.
      now rewrite <- !List.app_assoc. }
    exists (d :: ds). rewrite Hshape. split; [exact Htr|].
    split; [cbn [List.length]; lia|]. split; [|split].
    + intros k x. destruct k as [|k]; cbn [lookup list_lookup].
      * intros H. injection H as <-. exists (tr ++ [RCall (Z.of_nat j)]).
        now rewrite Nat.add_0_r.
      * intros H. apply Hd in H as (t & ->). exists t.
        now replace (j + S k)%nat with (S j + k)%nat by lia.
    + intros k Hk. destruct k as [|k].
      * exists err. cbn [firstn ladder]. auto.
      * cbn [firstn]. rewrite Hshape. apply Hretried. cbn [List.length] in Hk. lia.
    + destruct (retryLoop E retries base factor fuel (Z.of_nat (S j)) (Some err) _).1
        as [v|[e'|]]; [exact Hres | | exact Hres].
      destruct Hres as [Hf Hwhy]. split; [exact Hf|].
      destruct Hwhy as [Hw|Hw]; [now left | right; cbn [List.length]; lia].
  - apply Z.ltb_ge in Hlt.
    assert (Hf0 : fuel = 0%nat) by lia. subst fuel. cbn [retryLoop fst snd].
    exists []. cbn [ladder List.length]. split; [reflexivity|]. split; [lia|].
    split; [intros k d Hk; destruct k; discriminate|].
    split; [intros k Hk; lia|]. split; [exact Hfn | right; lia].
Qed.

End RetryFacts.

Section RetryShape.
Import Js RequestUtils.

Lemma sleeps_ladder ds j : sleeps (ladder ds j) = ds.
Proof.
  revert j; induction ds as [|d ds IH]; intros j; [reflexivity|].
  cbn [ladder]. now rewrite sleeps_call, sleeps_sleep, IH.
Qed.

Lemma calls_ladder ds j : List.length (calls (ladder ds j)) = S (List.length ds).
Proof.
  revert j; induction ds as [|d ds IH]; intros j; [reflexivity|].
  cbn [ladder]. rewrite calls_call, calls_sleep. cbn [List.length]. now rewrite IH.
Qed.

(** [withRetries] with at least one call to make. *)
Lemma withRetries_ladder {T} (E : retryEnv T) (opts : option retryOptions) :
  let retries := default 3%Z (opts ≫= opt_retries) in
  let base := default 600%Z (opts ≫= opt_baseDelayMs) in
  let factor := default 2%Z (opts ≫= opt_factor) in
  (0 <= retries)%Z ->
  exists ds,
    (withRetries E opts).2 = ladder ds 0 /\
    (Z.of_nat (List.length ds) <= retries)%Z /\
    (forall k d, ds !! k = Some d ->
       exists t, d = (base * factor ^ Z.of_nat k + random250 E t)%Z) /\
    (forall k, (k < List.length ds)%nat ->
       exists err, fn E (ladder (firstn k ds) 0) = Rejected err /\
                   nonRetryable err = false) /\
    match (withRetries E opts).1 with
    | Returns v => fn E (ladder ds 0) = Resolved v
    | Throws (Some err) =>
        fn E (ladder ds 0) = Rejected err /\
        (nonRetryable err = true \/ Z.of_nat (List.length ds) = retries)
    | Throws None => False
    end.
Proof.
  cbv zeta. intros Hret. unfold withRetries.
  destruct (retryLoop_ladder E (default 3%Z (opts ≫= opt_retries))
              (default 600%Z (opts ≫= opt_baseDelayMs))
              (default 2%Z (opts ≫= opt_factor))
              (Z.to_nat (default 3%Z (opts ≫= opt_retries) + 1)) 0 None [])
    as (ds & Htr & Hlen & Hd & Hretried & Hres); [lia | lia |].
  change (Z.of_nat 0) with 0%Z in *. cbn [app] in *.
  exists ds. split; [exact Htr|]. split; [lia|]. split; [exact Hd|].
  split; [exact Hretried|].
  destruct (retryLoop _ _ _ _ _ _ _ _).1 as [v|[err|]]; [exact Hres | | exact Hres].
  destruct Hres as [Hf Hwhy]. split; [exact Hf|].
  destruct Hwhy as [Hw|Hw]; [now left | right; lia].
Qed.

End RetryShape.

Section RetryExtras.
Import Js RequestUtils.

(** X21 (withRetries): the waits grow exponentially.  With a jitter
    between 0 and 250 ms, what [withRetries] does is a call, a wait, a
    call, ..., a call, with [retries + 1] calls and [retries] waits at
    most, and the wait after the call numbered [k] (from 0) is between
    [base * factor ^ k] and [base * factor ^ k + 250] ms. *)
Theorem withRetries_backs_off_exponentially {T} (E : retryEnv T)
    (opts : option retryOptions) :
  let retries := default 3%Z (opts ≫= opt_retries) in
  let base := default 600%Z (opts ≫= opt_baseDelayMs) in
  let factor := default 2%Z (opts ≫= opt_factor) in
  let tr := (withRetries E opts).2 in
  (0 <= retries)%Z ->
  (forall t, (0 <= random250 E t <= 250)%Z) ->
  tr = ladder (sleeps tr) 0 /\
  (Z.of_nat (List.length (sleeps tr)) <= retries)%Z /\
  (Z.of_nat (List.length (calls tr)) <= retries + 1)%Z /\
  forall k d, sleeps tr !! k = Some d ->
    (base * factor ^ Z.of_nat k <= d <= base * factor ^ Z.of_nat k + 250)%Z.
Proof.
  cbv zeta. intros Hret Hjitter.
  destruct (withRetries_ladder E opts Hret) as (ds & Htr & Hlen & Hd & _).
  rewrite Htr, sleeps_ladder, calls_ladder.
  split; [reflexivity|]. split; [exact Hlen|]. split; [lia|].
  intros k d Hk. apply Hd in Hk as (t & ->). pose proof (Hjitter t). lia.
Qed.

Lemma withRetries_backs_off_exponentially_witness :
  (withRetries (rejecting None) None).2
    = ladder [700; 1300; 2500]%Z 0 /\
  forall k d, [700; 1300; 2500]%Z !! k = Some d ->
    (600 * 2 ^ Z.of_nat k <= d <= 600 * 2 ^ Z.of_nat k + 250)%Z.
Proof.
  split; [reflexivity|].
  apply (withRetries_backs_off_exponentially (rejecting None) None).
  - cbn. lia.
  - intros t. cbn. lia.
Defined.

(** X22 (withRetries): what [withRetries] returns or throws is the
    outcome of its last call, the error unchanged.  Every call before
    the last was rejected with an error that may be retried, and it
    gives up only on a status from 400 to 499 other than 429 or after
    [retries + 1] calls; with a negative [retries] it makes no call and
    throws [undefined]. *)
Theorem withRetries_rethrows_the_last_error {T} (E : retryEnv T)
    (opts : option retryOptions) :
  let retries := default 3%Z (opts ≫= opt_retries) in
  let result := withRetries E opts in
  ((retries < 0)%Z -> result = (Throws None, [])) /\
  ((0 <= retries)%Z ->
   (forall k, (k < List.length (sleeps result.2))%nat ->
      exists err,
        fn E (ladder (firstn k (sleeps result.2)) 0) = Rejected err /\
        nonRetryable err = false) /\
   match result.1 with
   | Returns v => fn E result.2 = Resolved v
   | Throws (Some err) =>
       fn E result.2 = Rejected err /\
       (nonRetryable err = true \/
        Z.of_nat (List.length (calls result.2)) = (retries + 1)%Z)
   | Throws None => False
   end).
Proof.
  cbv zeta. split.
  - intros Hneg. unfold withRetries.
    replace (Z.to_nat (default 3%Z (opts ≫= opt_retries) + 1)) with 0%nat by lia.
    reflexivity.
  - intros Hret.
    destruct (withRetries_ladder E opts Hret) as (ds & Htr & Hlen & _ & Hretried & Hres).
    rewrite Htr, sleeps_ladder, calls_ladder. split; [exact Hretried|].
    destruct (withRetries E opts).1 as [v|[err|]]; [exact Hres | | exact Hres].
    destruct Hres as [Hf Hwhy]. split; [exact Hf|].
    destruct Hwhy as [Hw|Hw]; [now left | right; lia].
Qed.

Lemma withRetries_rethrows_the_last_error_witness :
  let notFound := {| re_error := newError (lit "Request failed");
                     re_status := Some 404%Z |} in
  withRetries (rejecting (Some 404%Z)) None = (Throws (Some notFound), [RCall 0]) /\
  fn (rejecting (Some 404%Z)) [RCall 0] = Rejected notFound /\
  (nonRetryable notFound = true \/
   Z.of_nat (List.length (calls [RCall 0])) = (3 + 1)%Z).
Proof.
  cbv zeta. split; [reflexivity|].
  apply (withRetries_rethrows_the_last_error (rejecting (Some 404%Z)) None).
  cbn. lia.
Defined.

End RetryExtras.

(** ** The pages a run asks for *)

Section RequestedPages.
Import Js Model FetchEngine DocumentExtractor OutcomeStore CrawlScheduler
       IdentifierExtractor AutoSync Reading.

Variable E : env.
Variable load : list N -> page.
Variable stringify pretty : Uoc -> list N.
Variable parsedCode : list N -> option (option (list N)).
Variable previousErrors : gmap (list N) UnitError.

Lemma attemptUrls_app a b : attemptUrls (a ++ b) = attemptUrls a ++ attemptUrls b.
Proof. apply omap_app. Qed.

Lemma attemptUrls_quiet pre : List.filter isAttempt pre = [] -> attemptUrls pre = [].
Proof.
  induction pre as [|e pre IH]; [reflexivity|].
  destruct e; cbn [List.filter isAttempt]; try discriminate; exact IH.
Qed.

Lemma attemptsFrom_urls url b j m u :
  In u (attemptUrls (attemptsFrom url b j m)) -> u = url.
Proof.
  revert j; induction m as [|m IH]; intros j; [intros []|].
  cbn [attemptsFrom]. destruct m as [|m].
  - intros [<-|[]]. reflexivity.
  - intros [<-|H]; [reflexivity|]. apply (IH (S j)). exact H.
Qed.

Lemma get_urls f url tr u :
  In u (attemptUrls (get E f url tr).2) -> In u (attemptUrls tr) \/ u = url.
Proof.
  destruct (get_shape E f url tr) as (pre & m & -> & Hpre & _).
  rewrite !attemptUrls_app, (attemptUrls_quiet pre Hpre). cbn [app].
  intros H. apply List.in_app_or in H as [H|H]; [now left | right].
  eapply attemptsFrom_urls, H.
Qed.

Lemma cachedGet_urls cf url tr u :
  In u (attemptUrls (cachedGet E cf url tr).2) -> In u (attemptUrls tr) \/ u = url.
Proof.
  destruct (cachedGet_super E cf url tr) as [(html & _ & _ & ->)|(_ & _ & ->)];
    [now left | apply get_urls].
Qed.

Lemma validateList_urls codes st u :
  In u (attemptUrls (trace (fold_left (validateOne E previousErrors) codes st))) ->
  In u (attemptUrls (trace st)) \/ In u (List.map unitUrl codes).
Proof.
  revert st; induction codes as [|c codes IH]; intros st; [now left|].
  cbn [fold_left]. intros H. apply IH in H as [H|H].
  - rewrite validateOne_trace in H. apply cachedGet_urls in H as [H| ->]; [now left|].
    right. now left.
  - right. now right.
Qed.

Lemma validateBatches_urls fuel codes st u :
  In u (attemptUrls (trace (validateBatches E previousErrors fuel codes st))) ->
  In u (attemptUrls (trace st)) \/ In u (List.map unitUrl codes).
Proof.
  revert codes st; induction fuel as [|fuel IH]; intros codes st; [now left|].
  cbn [validateBatches]. destruct codes as [|c codes]; [now left|].
  intros H. apply IH in H.
  assert (Hin : forall x, In x (List.map unitUrl (firstn 5 (c :: codes)))
                          \/ In x (List.map unitUrl (skipn 5 (c :: codes)))
                          -> In x (List.map unitUrl (c :: codes))).
  { intros x Hx. rewrite <- (List.firstn_skipn 5 (c :: codes)), List.map_app.
    apply List.in_or_app. exact Hx. }
  destruct H as [H|H]; [|right; apply Hin; now right].
  assert (H' : In u (attemptUrls
                       (trace (fold_left (validateOne E previousErrors)
                                 (firstn 5 (c :: codes)) st)))).
  { destruct (skipn 5 (c :: codes)); [exact H|].
    unfold sleepBetweenBatches in H. cbn [trace] in H.
    rewrite attemptUrls_app in H. cbn in H. now rewrite List.app_nil_r in H. }
  apply validateList_urls in H' as [H'|H']; [now left | right; apply Hin; now left].
Qed.

Lemma crawlFold_urls urls st u :
  In u (attemptUrls (c_trace (fold_left (crawlOne E load stringify pretty parsedCode)
                                urls st))) ->
  In u (attemptUrls (c_trace st)) \/ In u urls.
Proof.
  revert st; induction urls as [|x urls IH]; intros st; [now left|].
  cbn [fold_left]. intros H. apply IH in H as [H|H]; [|right; now right].
  assert (H' : In u (attemptUrls (cachedGet E (c_fetcher st) x (c_trace st)).2)).
  { unfold crawlOne in H.
    destruct (cachedGet E (c_fetcher st) x (c_trace st)) as [[r cf] tr].
    destruct r as [html|err]; [|exact H].
    destruct (writeJsonl _ _ _ _ _ _) as [svc d]. cbn [c_trace snd] in *.
    rewrite attemptUrls_app in H. cbn in H. now rewrite List.app_nil_r in H. }
  apply cachedGet_urls in H' as [H'| ->]; [now left | right; now left].
Qed.

Lemma crawlUocUrls_urls cf svc d tr urls u :
  In u (attemptUrls
          (c_trace (crawlUocUrls E load stringify pretty parsedCode cf svc d tr urls))) ->
  In u (attemptUrls tr) \/ In u urls.
Proof.
  unfold crawlUocUrls. destruct (init parsedCode svc d) as [svc' d'].
  match goal with |- context [fold_left ?f ?q ?s0] =>
    pose proof (crawlFold_urls q s0 u) as Hfold;
    assert (Hclose : attemptUrls
                       (cachedClose (c_fetcher (fold_left f q s0))
                          (c_trace (fold_left f q s0))).2
                     = attemptUrls (c_trace (fold_left f q s0)));
    [|destruct (cachedClose (c_fetcher (fold_left f q s0)) (c_trace (fold_left f q s0)))]
  end.
  { unfold cachedClose, close. destruct (browser _); [|reflexivity].
    cbn [snd]. rewrite attemptUrls_app. cbn. apply List.app_nil_r. }
  cbn [c_trace snd] in *. rewrite Hclose. intros H. apply Hfold in H as [H|H]; [now left|].
  right. now apply unique_In.
Qed.

End RequestedPages.

Section RequestedPagesFacts.
Import Js Model FetchEngine DocumentExtractor OutcomeStore CrawlScheduler
       IdentifierExtractor AutoSync Reading.

Lemma attempt_url u a tr : In (EAttempt u a) tr -> In u (attemptUrls tr).
Proof.
  intros H. apply list_elem_of_In, list_elem_of_omap.
  exists (EAttempt u a). split; [now apply list_elem_of_In | reflexivity].
Qed.

(** A code of the queue was requested, is not present and has attempts
    left. *)
Lemma queued_code existingUnits previousErrors maxRetries requestedCodes code :
  In code (allUnitsToProcess
             (planUnits existingUnits previousErrors maxRetries requestedCodes)) ->
  In code requestedCodes /\
  mapHas cellEqb existingUnits (CString code) = false /\
  forall e, previousErrors !! code = Some e -> (attempts e < maxRetries)%Z.
Proof.
  rewrite planUnits_class. unfold allUnitsToProcess. cbn [unitsToScrape unitsToRetry].
  intros H. apply List.in_app_or in H.
  assert (Hc : In code requestedCodes /\
               (classify existingUnits previousErrors maxRetries code = new \/
                classify existingUnits previousErrors maxRetries code = retry)).
  { destruct H as [H|H]; apply only_In in H as [Hin Hc]; auto. }
  destruct Hc as [Hin Hc]. split; [exact Hin|]. unfold classify in Hc.
  destruct (mapHas cellEqb existingUnits (CString code));
    [destruct Hc; discriminate|].
  split; [reflexivity|]. intros e He. rewrite He in Hc.
  destruct (Z.ltb_spec (attempts e) maxRetries); [assumption|].
  destruct Hc; discriminate.
Qed.

Lemma syncUnits_urls E load stringify pretty parsedCode config input output d o u :
  syncUnits E load stringify pretty parsedCode config input output d = Return o ->
  In u (attemptUrls (log o)) -> In u (List.map unitUrl (queue o)).
Proof.
  unfold syncUnits.
  destruct (readUnitCodesFromExcel (inputExcel config) input (inputColumn config))
    as [requestedCodes|e] eqn:Hread; [|discriminate].
  assert (Hnd : List.NoDup requestedCodes).
  { destruct input; simpl in Hread; [|discriminate].
    injection Hread as <-. apply unique_NoDup. }
  apply (plan_queue_NoDup (getExistingUnits output)
           (loadPreviousErrors d (isoTime E [])) (numOr (cfg_maxRetries config) 3)) in Hnd.
  cbv zeta.
  destruct (allUnitsToProcess _) as [|c0 all0] eqn:Hall.
  { intros H. injection H as <-. intros []. }
  rewrite <- Hall in *. clear Hall c0 all0.
  set (all := allUnitsToProcess _) in *.
  set (v := validateAll E _ all _).
  assert (Hv : forall x, In x (attemptUrls (trace v)) -> In x (List.map unitUrl all)).
  { intros x Hx. unfold v, validateAll in Hx.
    apply validateBatches_urls in Hx as [[]|Hx]. exact Hx. }
  assert (Hvalid : forall c, In c (validUnits v) -> In c all).
  { intros c Hc.
    destruct (validateAll_accounts E (loadPreviousErrors d (isoTime E [])) all
                (newCachedFetcher syncFetcherOptions) Hnd) as [Hp _].
    apply (Permutation_in _ Hp). apply List.in_or_app. now left. }
  destruct (validUnits v) as [|v0 vs] eqn:Hvs.
  - assert (Hclose : attemptUrls (cachedClose (fetcher v) (trace v)).2
                     = attemptUrls (trace v)).
    { unfold cachedClose, close. destruct (browser _); [|reflexivity].
      cbn [snd]. rewrite attemptUrls_app. cbn. apply List.app_nil_r. }
    destruct (cachedClose (fetcher v) (trace v)) as [cf' tr'].
    intros H. injection H as <-. cbn [log queue snd] in *. rewrite Hclose. apply Hv.
  - rewrite <- Hvs in *. intros H. injection H as <-. cbn [log queue].
    intros Hu. apply crawlUocUrls_urls in Hu as [Hu|Hu]; [now apply Hv|].
    apply List.in_map_iff in Hu as (c & <- & Hc). apply List.in_map. now apply Hvalid.
Qed.

End RequestedPagesFacts.

Section RequestedPagesExtras.
Import Js Model FetchEngine DocumentExtractor OutcomeStore CrawlScheduler
       IdentifierExtractor AutoSync Reading Scenarios.

(** X23 (syncUnits, Crawler.crawlUocUrls, Fetcher.get): a run asks only
    for what its planner queued.  Every page attempt of a run, in the
    validation and in the crawl, is on the unit-details page of a code
    of the queue: a code that was requested, whose record is not present
    and whose earlier failures, if any, have attempts left.  Nothing is
    fetched for a code that is skipped, and no other address is
    requested. *)
Theorem run_fetches_only_queued_codes E load stringify pretty parsedCode
    config input output d o (u : list N) (a : Z) :
  syncUnits E load stringify pretty parsedCode config input output d = Return o ->
  In (EAttempt u a) (log o) ->
  exists code requestedCodes,
    u = unitUrl code /\ In code (queue o) /\
    readUnitCodesFromExcel (inputExcel config) input (inputColumn config)
      = Return requestedCodes /\
    In code requestedCodes /\
    mapHas cellEqb (getExistingUnits output) (CString code) = false /\
    forall e, loadPreviousErrors d (isoTime E []) !! code = Some e ->
              (attempts e < numOr (cfg_maxRetries config) 3)%Z.
Proof.
  intros Hrun Hin.
  pose proof (syncUnits_urls _ _ _ _ _ _ _ _ _ _ u Hrun (attempt_url u a _ Hin)) as Hu.
  apply List.in_map_iff in Hu as (code & <- & Hq).
  unfold syncUnits in Hrun.
  destruct (readUnitCodesFromExcel (inputExcel config) input (inputColumn config))
    as [requestedCodes|e] eqn:Hread; [|discriminate].
  exists code, requestedCodes. split; [reflexivity|]. split; [exact Hq|].
  split; [reflexivity|].
  assert (Hqueue : queue o
                   = allUnitsToProcess
                       (planUnits (getExistingUnits output)
                          (loadPreviousErrors d (isoTime E []))
                          (numOr (cfg_maxRetries config) 3) requestedCodes)).
  { cbv zeta in Hrun.
    destruct (allUnitsToProcess _) as [|c0 all0] eqn:Hall.
    - injection Hrun as <-. reflexivity.
    - rewrite <- Hall in *.
      destruct (validUnits _); [destruct (cachedClose _ _)|];
        injection Hrun as <-; reflexivity. }
  rewrite Hqueue in Hq. now apply queued_code in Hq.
Qed.

Lemma run_fetches_only_queued_codes_witness :
  let d0 := saveErrorLog noFiles stamp [] [pendingAfter "TIMEOUT002" 3] 1 0 in
  let r := run (always (Failed timeoutError))
             (oneColumn ["TIMEOUT002"; "MARA022"]%string) d0 in
  In (EAttempt (unitUrl (lit "MARA022")) 1) (logOf r) /\
  exists code requestedCodes,
    unitUrl (lit "MARA022") = unitUrl code /\ In code (queueOf r) /\
    readUnitCodesFromExcel (inputExcel config)
      (Some (oneColumn ["TIMEOUT002"; "MARA022"]%string)) (inputColumn config)
      = Return requestedCodes /\
    In code requestedCodes.
Proof.
  cbv zeta.
  assert (Hin : In (EAttempt (unitUrl (lit "MARA022")) 1)
                  (logOf (run (always (Failed timeoutError))
                            (oneColumn ["TIMEOUT002"; "MARA022"]%string)
                            (saveErrorLog noFiles stamp []
                               [pendingAfter "TIMEOUT002" 3] 1 0)))).
  { vm_compute. right. right. left. reflexivity. }
  split; [exact Hin|].
  destruct (run (always (Failed timeoutError))
              (oneColumn ["TIMEOUT002"; "MARA022"]%string)
              (saveErrorLog noFiles stamp [] [pendingAfter "TIMEOUT002" 3] 1 0))
    as [o|e] eqn:Hr; [|destruct Hin].
  cbn [logOf queueOf] in *.
  destruct (run_fetches_only_queued_codes _ _ _ _ _ _ _ _ _ o _ _ Hr Hin)
    as (code & requestedCodes & Hu & Hq & Hread & Hreq & _).
  exists code, requestedCodes. auto.
Defined.

End RequestedPagesExtras.

(** ** What the cache of a validation holds *)

Section CachedPages.
Import Js FetchEngine OutcomeStore AutoSync.

Variable E : env.
Variable previousErrors : gmap (list N) UnitError.

(** Every cached page is the page of a valid code and has one of the
    three marks of a unit page. *)
Local Abbreviation onlyValid st :=
  (forall u h, cache (fetcher st) !! u = Some h ->
     (exists c, In c (validUnits st) /\ u = unitUrl c) /\
     includes h (lit "Unit of competency")
     || includes h (lit "Performance Criteria")
     || includes h (lit "Performance evidence") = true).

Lemma validateOne_onlyValid st code :
  onlyValid st -> onlyValid (validateOne E previousErrors st code).
Proof.
  intros Hinv. unfold validateOne.
  pose proof (cachedGet_cache E (fetcher st) (unitUrl code) (trace st)) as Hcache.
  destruct (cachedGet E (fetcher st) (unitUrl code) (trace st)) as [[r cf] tr].
  cbn [fst snd] in Hcache.
  destruct r as [html|err].
  - destruct (includes html (lit "Unit of competency")
              || includes html (lit "Performance Criteria")
              || includes html (lit "Performance evidence")) eqn:Hvalid.
    + cbn [fetcher validUnits]. unfold setCache. cbn [cache]. intros u h Hu.
      destruct (decide (unitUrl code = u)) as [<-|Hne].
      * rewrite lookup_insert_eq in Hu. injection Hu as <-.
        split; [|exact Hvalid]. exists code. split; [|reflexivity].
        apply List.in_or_app. right. now left.
      * rewrite lookup_insert_ne, Hcache in Hu by exact Hne.
        destruct (Hinv u h Hu) as [(c & Hc & ->) Hm]. split; [|exact Hm].
        exists c. split; [|reflexivity]. apply List.in_or_app. now left.
    + destruct (includes html (lit "404") || includes html (lit "not found"));
        cbn [fetcher validUnits]; rewrite Hcache; exact Hinv.
  - unfold categorizeError. cbn [validUnits fetcher].
    destruct (_ || _); cbn [fetcher validUnits]; rewrite Hcache; exact Hinv.
Qed.

Lemma validateList_onlyValid codes st :
  onlyValid st -> onlyValid (fold_left (validateOne E previousErrors) codes st).
Proof.
  revert st; induction codes as [|c codes IH]; intros st Hinv; [exact Hinv|].
  cbn [fold_left]. apply IH. now apply validateOne_onlyValid.
Qed.

Lemma validateBatches_onlyValid fuel codes st :
  onlyValid st -> onlyValid (validateBatches E previousErrors fuel codes st).
Proof.
  revert codes st; induction fuel as [|fuel IH]; intros codes st Hinv; [exact Hinv|].
  cbn [validateBatches]. destruct codes as [|c codes]; [exact Hinv|].
  apply IH.
  pose proof (validateList_onlyValid (firstn 5 (c :: codes)) st Hinv) as H1.
  destruct (skipn 5 (c :: codes)); exact H1.
Qed.

End CachedPages.

Section CachedPagesExtras.
Import Js FetchEngine OutcomeStore AutoSync Scenarios.

(** X24 (CachedFetcher, syncUnits): the cache of a validation holds the
    pages of the valid codes and nothing else.  Starting from an empty
    cache, a page is cached only for a code found valid, and it has one
    of the three marks of a unit page: a page that is invalid, or a
    failure, is never cached. *)
Theorem cache_holds_only_valid_pages (E : env)
    (previousErrors : gmap (list N) UnitError) (codes : list (list N))
    (cf : CachedFetcher) (u h : list N) :
  cache cf = ∅ ->
  let v := validateAll E previousErrors codes cf in
  cache (fetcher v) !! u = Some h ->
  (exists c, In c (validUnits v) /\ u = unitUrl c) /\
  includes h (lit "Unit of competency")
  || includes h (lit "Performance Criteria")
  || includes h (lit "Performance evidence") = true.
Proof.
  intros Hempty v. unfold v, validateAll.
  apply validateBatches_onlyValid. cbn [fetcher validUnits].
  intros u' h' Hu. rewrite Hempty in Hu. discriminate.
Qed.

Lemma cache_holds_only_valid_pages_witness :
  let v := validateAll (always (Rendered notFoundPage)) ∅ [lit "INVALID001"]
             (newCachedFetcher syncFetcherOptions) in
  cache (fetcher v) !! unitUrl (lit "INVALID001") = None.
Proof.
  cbv zeta.
  destruct (cache (fetcher (validateAll (always (Rendered notFoundPage)) ∅
                              [lit "INVALID001"]
                              (newCachedFetcher syncFetcherOptions)))
              !! unitUrl (lit "INVALID001")) as [h|] eqn:Hc; [|reflexivity].
  destruct (cache_holds_only_valid_pages (always (Rendered notFoundPage)) ∅
              [lit "INVALID001"] (newCachedFetcher syncFetcherOptions)
              (unitUrl (lit "INVALID001")) h eq_refl Hc) as [(c & Hin & _) _].
  vm_compute in Hin. destruct Hin.
Defined.

End CachedPagesExtras.

(** ** The codes the export service knows *)

Section KnownCodes.
Import Js Model OutcomeStore.

Variable parsedCode : list N -> option (option (list N)).

Lemma init_fold (lines : list (list N)) (codes : gset (list N)) (code : list N) :
  code ∈ fold_left
           (fun (codes : gset (list N)) (line : list N) =>
              match parsedCode line with
              | Some (Some c) => if truthy c then {[c]} ∪ codes else codes
              | _ => codes
              end) lines codes <->
  code ∈ codes \/
  (code <> [] /\ exists line, In line lines /\ parsedCode line = Some (Some code)).
Proof.
  revert codes; induction lines as [|l lines IH]; intros codes.
  - simpl. split; [auto|]. intros [H|(_ & line & [] & _)]. exact H.
  - cbn [fold_left]. rewrite IH. split.
    + intros [H|(Hc & line & Hin & Hp)].
      * destruct (parsedCode l) as [[c|]|] eqn:Hl; auto.
        destruct c as [|x c]; cbn [truthy] in H; auto.
        apply elem_of_union in H as [H|H]; auto.
        apply elem_of_singleton in H. subst code.
        right. split; [discriminate|]. exists l. split; [now left | exact Hl].
      * right. split; [exact Hc|]. exists line. split; [now right | exact Hp].
    + intros [H|(Hc & line & [<-|Hin] & Hp)].
      * left. destruct (parsedCode l) as [[c|]|]; auto.
        destruct (truthy c); auto. apply elem_of_union. now right.
      * left. rewrite Hp. destruct code; [contradiction|]. cbn [truthy].
        apply elem_of_union. left. now apply elem_of_singleton.
      * right. split; [exact Hc|]. eauto.
Qed.

End KnownCodes.

Section KnownCodesExtras.
Import Js Model OutcomeStore Scenarios.

(** X25 (ExportService.init): after [init] the service knows a code
    exactly when it knew it before or the corpus has a line that parses
    to a record with that code, the empty code apart; lines that do not
    parse are passed over and the corpus file is left as it is.  When
    there is no corpus file an empty one is created and nothing is
    learnt. *)
Theorem init_learns_the_codes_of_the_corpus
    (parsedCode : list N -> option (option (list N)))
    (svc : ExportService) (d : disk) :
  (jsonlFile d = None -> init parsedCode svc d = (svc, setJsonl d [])) /\
  (forall content, jsonlFile d = Some content ->
     (init parsedCode svc d).2 = d /\
     forall code,
       code ∈ existingCodes (init parsedCode svc d).1 <->
       code ∈ existingCodes svc \/
       (code <> [] /\
        exists line, In line (linesOf content) /\
                     parsedCode line = Some (Some code))).
Proof.
  unfold init. split.
  - intros ->. reflexivity.
  - intros content ->. cbn [fst snd existingCodes]. split; [reflexivity|].
    intros code. apply init_fold.
Qed.

Lemma init_learns_the_codes_of_the_corpus_witness :
  let d := setJsonl noFiles
             (linesFile [codeLine (recordOf "MARB027" "A unit"); lit "not json"]) in
  lit "MARB027" ∈ existingCodes (init codeOfLine newExportService d).1.
Proof.
  cbv zeta.
  destruct (init_learns_the_codes_of_the_corpus codeOfLine newExportService
              (setJsonl noFiles
                 (linesFile [codeLine (recordOf "MARB027" "A unit"); lit "not json"])))
    as [_ H].
  destruct (H _ eq_refl) as [_ Hiff]. apply Hiff. right.
  split; [discriminate|].
  exists (codeLine (recordOf "MARB027" "A unit")).
  split; [vm_compute; now left | vm_compute; reflexivity].
Defined.

End KnownCodesExtras.

(** ** Where a supersession link comes from *)

Section LinkFacts.
Import Js Regex Model DocumentExtractor.

(** A match of the link pattern captures a code. *)
Lemma linkCodePattern_group bef s r :
  go linkCodePattern bef s nocaps = Some r ->
  exists letters mid digits,
    s = (letters ++ mid ++ digits) ++ r_rest r /\
    closed (r_caps r) = [(1%nat, letters ++ mid ++ digits)] /\
    (2 <= List.length letters)%nat /\ forallb isUpper letters = true /\
    forallb isWord mid = true /\
    (2 <= List.length digits)%nat /\ forallb isDigit digits = true.
Proof.
  unfold linkCodePattern, codeItems, AtLeast, Star. intros Hgo. simpl in Hgo.
  destruct (xorb (hdWord bef) (hdWord s)); [|discriminate].
  apply rep_inv in Hgo as (q1 & s1 & -> & H1 & L1 & _ & Hgo).
  apply rep_inv in Hgo as (q2 & s2 & -> & H2 & _ & _ & Hgo).
  apply rep_inv in Hgo as (q3 & s3 & -> & H3 & L3 & _ & Hgo).
  destruct (xorb _ _); [|discriminate]. injection Hgo as <-.
  exists q1, q2, q3. cbn [r_rest r_caps]. repeat split; auto.
  - now rewrite <- !List.app_assoc.
  - replace (rev q3 ++ rev q2 ++ rev q1 ++ bef)
      with (rev (q1 ++ q2 ++ q3) ++ bef)
      by (now rewrite !List.rev_app_distr, <- !List.app_assoc).
    rewrite closeGroup_text, List.rev_involutive. reflexivity.
Qed.

Lemma firstLink_inv says links l :
  firstLink says links = Some l ->
  exists a, In a links /\ relationLink says a = Some l.
Proof.
  induction links as [|a links IH]; [discriminate|]. cbn [firstLink].
  destruct (relationLink says a) as [l'|] eqn:Ha.
  - intros H. injection H as <-. exists a. split; [now left | exact Ha].
  - intros H. apply IH in H as (a' & Hin & Ha'). exists a'. split; [now right | exact Ha'].
Qed.

Lemma relationLink_inv says a l :
  relationLink says a = Some l ->
  exists before after letters mid digits,
    link_url l = lit "https://training.gov.au" ++ default [] (a_href a) /\
    trim (a_text a) = before ++ link_code l ++ after /\
    link_code l = letters ++ mid ++ digits /\
    (2 <= List.length letters)%nat /\ forallb isUpper letters = true /\
    forallb isWord mid = true /\
    (2 <= List.length digits)%nat /\ forallb isDigit digits = true.
Proof.
  unfold relationLink. destruct (says a); [|discriminate].
  destruct (exec linkCodePattern (trim (a_text a))) as [m|] eqn:Hex; [|discriminate].
  cbn [option_map]. intros H. injection H as <-.
  apply execFrom_at in Hex as (bef & s & r & Hgo & -> & Hpos).
  apply linkCodePattern_group in Hgo
    as (letters & mid & digits & Hs & Hc & L1 & H1 & H2 & L3 & H3).
  exists (rev bef), (r_rest r), letters, mid, digits.
  unfold linkOf, groupText, group, mkFound. cbn [link_url link_code groups].
  rewrite Hc. cbn [assoc Nat.eqb default]. simpl in Hpos.
  split; [reflexivity|]. split; [now rewrite <- Hpos, Hs|].
  split; [reflexivity|]. auto 10.
Qed.

End LinkFacts.

Section LinkExtras.
Import Js Regex Model DocumentExtractor Scenarios.

(** X26 (extractSupersession): the code and the address of a
    supersession link come from one and the same anchor of the page.
    The address is 'https://training.gov.au' followed by the [href] of
    the anchor, and the code is a piece of its trimmed text made of two
    capital letters at least, then word characters, then two digits at
    least. *)
Theorem supersession_link_comes_from_one_anchor (d : page) (l : UocLink) :
  (extractSupersession d).1 = Some l \/ (extractSupersession d).2 = Some l ->
  exists a before after letters mid digits,
    In a (detailLinks d) /\
    link_url l = lit "https://training.gov.au" ++ default [] (a_href a) /\
    trim (a_text a) = before ++ link_code l ++ after /\
    link_code l = letters ++ mid ++ digits /\
    (2 <= List.length letters)%nat /\ forallb isUpper letters = true /\
    forallb isWord mid = true /\
    (2 <= List.length digits)%nat /\ forallb isDigit digits = true.
Proof.
  unfold extractSupersession. rewrite supersession_fold. cbn [fst snd].
  assert (Hlast : forall says,
            match lastLink says (detailLinks d) with Some x => Some x | None => None end
            = Some l ->
            exists a, In a (detailLinks d) /\ relationLink says a = Some l).
  { intros says H. destruct (lastLink says (detailLinks d)) as [x|] eqn:Hl; [|discriminate].
    injection H as ->. unfold lastLink in Hl.
    apply firstLink_inv in Hl as (a & Hin & Ha). exists a.
    split; [now apply List.in_rev | exact Ha]. }
  intros [H|H]; apply Hlast in H as (a & Hin & Ha);
    apply relationLink_inv in Ha as (before & after & letters & mid & digits & Hrest);
    exists a, before, after, letters, mid, digits; (split; [exact Hin | exact Hrest]).
Qed.

Lemma supersession_link_comes_from_one_anchor_witness :
  exists a,
    In a (detailLinks twoSuccessors) /\
    lit "https://training.gov.au/training/details/MARB046/unitdetails"
      = lit "https://training.gov.au" ++ default [] (a_href a).
Proof.
  destruct (supersession_link_comes_from_one_anchor twoSuccessors
              {| link_code := lit "MARB046";
                 link_url := lit "https://training.gov.au/training/details/MARB046/unitdetails" |})
    as (a & _ & _ & _ & _ & _ & Hin & Hurl & _).
  - left. vm_compute. reflexivity.
  - exists a. split; [exact Hin | exact Hurl].
Defined.

End LinkExtras.
